(** * pygame_maker: the embedded scripting-language engine

    A shallow embedding of [pygame_maker/scripts/language_engine.py]:
    the symbol table, the intermediate builder ([CodeBlock]), the constant
    folder ([reduceLine], [reduceBlock]), the code generator
    ([toPythonLine], [toPythonBlock], [pushFuncBlock]), the grammar ([BNF])
    and the registry ([LanguageEngine]).

    The engine is Python 2 code that emits Python 2 text and runs it.  The
    values it handles are modelled in [Module Py]; the part of the Python
    runtime that is exact on integers is defined here, the floating-point
    part is the class [PyHost]. *)

From Stdlib Require Import ZArith String Ascii List Lia Bool.
From Stdlib Require PrimFloat FloatOps SpecFloat Uint63.
From stdpp Require Import gmap strings list pretty.
Import ListNotations.

Local Open Scope string_scope.
Local Open Scope list_scope.
Local Open Scope Z_scope.

(* ===================================================================== *)
(** * Python values, exceptions and the arithmetic the engine calls        *)
(* ===================================================================== *)

Module Py.

(** Python 2 numbers: [int] (a C long), [long] (unbounded) and [float]
    (an IEEE double). *)
Inductive number :=
| NInt (z : Z)
| NLong (z : Z)
| NFloat (f : PrimFloat.float).

(** The values that reach the symbol tables and the generated code. *)
Inductive value :=
| VNum (n : number)
| VBool (b : bool)
| VNone.

(** The exceptions the engine raises or lets through.  A message keeps the
    fixed part of the text the source formats. *)
Inductive exn :=
| ParseException
| ParseFatalException (msg : string)
| CodeBlockException (msg : string)
| LanguageEngineException (msg : string)
| CodeBlockRuntimeError (msg : string)
| ZeroDivisionError
| ValueError
| OverflowError
| TypeError
| IndexError
| KeyError
| NameError
| AttributeError
| SyntaxError.

(** The result of a call: a value, an exception, or [OutOfFuel] when a
    bounded loop of the embedding used up its bound. *)
Inductive outcome (A : Type) :=
| Ok (a : A)
| Raise (e : exn)
| OutOfFuel.
Arguments Ok {A} a.
Arguments Raise {A} e.
Arguments OutOfFuel {A}.

#[export] Instance outcome_ret : MRet outcome := fun A a => Ok a.
#[export] Instance outcome_bind : MBind outcome := fun A B k m =>
  match m with
  | Ok a => k a
  | Raise e => Raise e
  | OutOfFuel => OutOfFuel
  end.

(** What the embedding takes from the platform and from the floating-point
    side of CPython: the width of [int], the text of a float and its value
    when read back, the operator and [math] calls that leave the
    fragment computed exactly below, and the functions a generated module
    calls without defining them (the built-ins [userfunc_distance],
    [userfunc_randint] and [userfunc_time]).  A host call returns or
    raises. *)
Class PyHost := {
  sys_maxint : Z;
  host_float_text : PrimFloat.float -> string;
  host_float_reparse : PrimFloat.float -> exn + PrimFloat.float;
  host_float_literal : string -> exn + PrimFloat.float;
  host_float_call : string -> list value -> exn + value;
  host_int_to_float : Z -> exn + PrimFloat.float;
  host_extern_call : string -> list value -> exn + value
}.

Definition of_host {A : Type} (r : exn + A) : outcome A :=
  match r with
  | inl e => Raise e
  | inr a => Ok a
  end.

Section Arithmetic.
Context {host : PyHost}.

Definition float_text (f : PrimFloat.float) : string := host_float_text f.
Definition float_reparse (f : PrimFloat.float) : outcome PrimFloat.float :=
  of_host (host_float_reparse f).
Definition float_literal (text : string) : outcome PrimFloat.float :=
  of_host (host_float_literal text).
Definition float_call (name : string) (args : list value) : outcome value :=
  of_host (host_float_call name args).
Definition int_to_float (z : Z) : outcome PrimFloat.float :=
  of_host (host_int_to_float z).
Definition extern_call (name : string) (args : list value) : outcome value :=
  of_host (host_extern_call name args).

Definition fits_int (z : Z) : bool :=
  (- sys_maxint - 1 <=? z) && (z <=? sys_maxint).

(** [int(z)]: an [int] when the value fits, a [long] otherwise. *)
Definition int_of_Z (z : Z) : number :=
  if fits_int z then NInt z else NLong z.

(** The value of an integer literal: in Python 2 the text of
    [-sys.maxint - 1] reads as minus a [long]. *)
Definition int_literal (z : Z) : number :=
  if (- sys_maxint <=? z) && (z <=? sys_maxint) then NInt z else NLong z.

(** The exact range of a double: integers of magnitude up to [2^53]. *)
Definition exact_double (z : Z) : bool := Z.abs z <=? 2 ^ 53.

Definition float_of_Z (z : Z) : PrimFloat.float :=
  if z <? 0 then PrimFloat.opp (PrimFloat.of_uint63 (Uint63.of_Z (- z)))
  else PrimFloat.of_uint63 (Uint63.of_Z z).

(** [float(z)]. *)
Definition to_float (z : Z) : outcome PrimFloat.float :=
  if exact_double z then Ok (float_of_Z z) else int_to_float z.

(** [int(f)] and [long(f)] truncate towards zero; infinities and NaN
    raise. *)
Definition trunc_float (f : PrimFloat.float) : outcome Z :=
  match FloatOps.Prim2SF f with
  | SpecFloat.S754_zero _ => Ok 0
  | SpecFloat.S754_finite s m e =>
      let mag := if 0 <=? e then Z.pos m * 2 ^ e else Z.pos m / 2 ^ (- e) in
      Ok (if s then - mag else mag)
  | SpecFloat.S754_infinity _ => Raise OverflowError
  | SpecFloat.S754_nan => Raise ValueError
  end.

(** Integers and booleans take part in integer arithmetic. *)
Definition as_integer (v : value) : option (bool * Z) :=
  match v with
  | VNum (NInt z) => Some (false, z)
  | VNum (NLong z) => Some (true, z)
  | VBool b => Some (false, if b then 1 else 0)
  | _ => None
  end.

Definition int_result (long1 long2 : bool) (z : Z) : value :=
  if long1 || long2 then VNum (NLong z) else VNum (int_of_Z z).

(** [math.pow] on integers whose result is an integer a double holds
    exactly. *)
Definition exact_pow (a b : Z) : bool :=
  if (0 <=? b) && (b <=? 64) then exact_double a && exact_double (a ^ b)
  else false.

(** The calls the generated code and the folder make: the functions of
    [OPERATOR_FUNCTIONS].  Integer operands are computed here; a float
    or [None] operand, or an integer outside the exact range of a double
    where the result is a float, goes to the host. *)
Definition operator_call (name : string) (args : list value) : outcome value :=
  match args with
  | [a] =>
      match as_integer a with
      | Some (_, x) =>
          if decide (name = "operator.not_") then Ok (VBool (x =? 0))
          else Raise TypeError
      | None => float_call name args
      end
  | [a; b] =>
      match as_integer a, as_integer b with
      | Some (la, x), Some (lb, y) =>
          if decide (name = "operator.add") then Ok (int_result la lb (x + y))
          else if decide (name = "operator.sub") then Ok (int_result la lb (x - y))
          else if decide (name = "operator.mul") then Ok (int_result la lb (x * y))
          else if decide (name = "operator.truediv") then
            if y =? 0 then Raise ZeroDivisionError
            else if exact_double x && exact_double y
                 then Ok (VNum (NFloat (PrimFloat.div (float_of_Z x) (float_of_Z y))))
                 else float_call name args
          else if decide (name = "operator.mod") then
            if y =? 0 then Raise ZeroDivisionError
            else Ok (int_result la lb (x mod y))
          else if decide (name = "operator.lt") then Ok (VBool (x <? y))
          else if decide (name = "operator.le") then Ok (VBool (x <=? y))
          else if decide (name = "operator.gt") then Ok (VBool (x >? y))
          else if decide (name = "operator.ge") then Ok (VBool (x >=? y))
          else if decide (name = "operator.eq") then Ok (VBool (x =? y))
          else if decide (name = "operator.ne") then Ok (VBool (negb (x =? y)))
          else if decide (name = "math.pow") then
            if exact_pow x y then Ok (VNum (NFloat (float_of_Z (x ^ y))))
            else float_call name args
          else Raise TypeError
      | _, _ => float_call name args
      end
  | _ => Raise TypeError
  end.

(** Truth value of a Python value. *)
Definition truthy (v : value) : bool :=
  match v with
  | VBool b => b
  | VNum (NInt z) | VNum (NLong z) => negb (z =? 0)
  | VNum (NFloat f) => negb (PrimFloat.eqb f PrimFloat.zero)
  | VNone => false
  end.

End Arithmetic.

End Py.

Export Py.

(* ===================================================================== *)
(** * class SymbolTable                                                    *)
(* ===================================================================== *)

Module SymbolTable.

(** The two dictionaries of the table.  The change callback is host code:
    [sym_change_callback] says whether one is installed and [notified]
    records its invocations, oldest first. *)
Record t := mk {
  vars : gmap string value;
  consts : gmap string value;
  sym_change_callback : bool;
  notified : list (string * value)
}.

Section Table.
Context {host : PyHost}.

Definition DEFAULT_UNINITIALIZED_VALUE : value :=
  VNum (NInt (- sys_maxint - 1)).

(** [__init__(initial_symbols, sym_change_callback)] *)
Definition init (initial_symbols : gmap string value) (callback : bool) : t :=
  {| vars := initial_symbols; consts := ∅;
     sym_change_callback := callback; notified := [] |}.

(** [keys()]: the names of the variables, then those of the constants. *)
Definition keys (st : t) : list string :=
  (map_to_list (vars st)).*1 ++ (map_to_list (consts st)).*1.

(** [__setitem__(item, val)] *)
Definition setitem (st : t) (item : string) (val : value) : t :=
  match consts st !! item with
  | Some _ => st
  | None =>
      {| vars := <[item := val]> (vars st);
         consts := consts st;
         sym_change_callback := sym_change_callback st;
         notified := if sym_change_callback st
                     then notified st ++ [(item, val)]
                     else notified st |}
  end.

(** [__getitem__(item)] *)
Definition getitem (st : t) (item : string) : value :=
  match consts st !! item with
  | Some c => c
  | None =>
      match vars st !! item with
      | Some v => v
      | None => DEFAULT_UNINITIALIZED_VALUE
      end
  end.

(** [setConstant(constant_name, constant_value)] *)
Definition setConstant (st : t) (constant_name : string) (constant_value : value) : t :=
  {| vars := vars st;
     consts := <[constant_name := constant_value]> (consts st);
     sym_change_callback := sym_change_callback st;
     notified := notified st |}.

End Table.

End SymbolTable.

(* ===================================================================== *)
(** * The Python text the engine generates                                 *)
(* ===================================================================== *)

Module Python.

(** The source assembles each generated expression as a string, by
    [str.format] over the strings of its parts.  An expression is kept
    here as the tree of those [format] calls; [render] gives the string. *)
#[warnings="-register-all"]
Inductive pyexpr :=
| ELit (n : number)                           (* str(op) *)
| ECall (opcall : string) (param_list : list pyexpr)   (* "{}({})" *)
| ESymbols                                    (* "_symbols" *)
| ECountSucc                                  (* "count+1" *)
| ENeg (e : pyexpr)                           (* "operator.mul(-1, {})" *)
| EBool (a : pyexpr) (opname : string) (b : pyexpr)    (* "(({}) {} ({}))" *)
| EGet (opname : string)                      (* "get_symbol(_symbols, '{}')" *)
| EName (opname : string)                     (* "{}", a function parameter *)
| EUpdate (symbol : option string) (e : pyexpr)        (* "update_symbol(_symbols, '{}', {})" *)
| EReturn (e : pyexpr)                        (* "return {}" *)
| ECountAbove (limit : Z).                    (* "count > 100" *)

(** A generated line: its indentation and what follows it. *)
Inductive linebody :=
| LExpr (e : pyexpr)                          (* toPythonLine *)
| LCond (py_cond_name : string) (conditional_code : pyexpr)   (* "{} ({}):" *)
| LElse (py_cond_name : string)               (* "{}:" *)
| LDef (function_name : string) (param_list : list string)
                                              (* "def userfunc_{}(_symbols, {}):" *)
| LDefRun                                     (* "def run(_symbols):" *)
| LRaise (function_name : string)             (* "raise(CodeBlockRuntimeError(...))" *)
| LReturnValue (z : Z).                       (* "return {}" *)

Record pyline := mkline { indent : nat; body : linebody }.

Definition join (sep : string) (l : list string) : string := String.concat sep l.

(** The double-quote character, as a string. *)
Definition dquote : string := String (ascii_of_nat 34) EmptyString.

Section Render.
Context {host : PyHost}.

Definition render_number (n : number) : string :=
  match n with
  | NInt z | NLong z => pretty z
  | NFloat f => float_text f
  end.

Fixpoint render (e : pyexpr) : string :=
  match e with
  | ELit n => render_number n
  | ECall opcall param_list =>
      opcall +:+ "(" +:+ join "," (map render param_list) +:+ ")"
  | ESymbols => "_symbols"
  | ECountSucc => "count+1"
  | ENeg e => "operator.mul(-1, " +:+ render e +:+ ")"
  | EBool a opname b =>
      "((" +:+ render a +:+ ") " +:+ opname +:+ " (" +:+ render b +:+ "))"
  | EGet opname => "get_symbol(_symbols, '" +:+ opname +:+ "')"
  | EName opname => opname
  | EUpdate symbol e =>
      "update_symbol(_symbols, '" +:+ default "None" symbol +:+ "', "
        +:+ render e +:+ ")"
  | EReturn e => "return " +:+ render e
  | ECountAbove limit => "count > " +:+ pretty limit
  end.

Definition render_body (b : linebody) : string :=
  match b with
  | LExpr e => render e
  | LCond py_cond_name conditional_code =>
      py_cond_name +:+ " (" +:+ render conditional_code +:+ "):"
  | LElse py_cond_name => py_cond_name +:+ ":"
  | LDef function_name param_list =>
      "def userfunc_" +:+ function_name +:+ "(_symbols, "
        +:+ join "," param_list +:+ "):"
  | LDefRun => "def run(_symbols):"
  | LRaise function_name =>
      "raise(CodeBlockRuntimeError(" +:+ dquote +:+ function_name
        +:+ ": Call stack depth limit exceeded" +:+ dquote +:+ "))"
  | LReturnValue z => "return " +:+ pretty z
  end.

Fixpoint spaces (n : nat) : string :=
  match n with
  | O => ""
  | S n' => String " " (spaces n')
  end.

Definition render_line (l : pyline) : string :=
  spaces (indent l) +:+ render_body (body l).

End Render.

(** ** Python's reading of the generated lines *)

(** Statements, as [compile] groups the lines by indentation; an [elif]
    is an [if] in the [orelse] of the one before. *)
#[warnings="-register-all"]
Inductive stmt :=
| SExpr (e : pyexpr)
| SReturn (e : pyexpr)
| SRaise (function_name : string)
| SIf (test : pyexpr) (body : list stmt) (orelse : list stmt).

Definition is_ident_start (c : ascii) : bool :=
  let n := nat_of_ascii c in
  ((65 <=? n) && (n <=? 90) || (97 <=? n) && (n <=? 122) || (n =? 95))%nat.

Definition is_ident_char (c : ascii) : bool :=
  let n := nat_of_ascii c in
  is_ident_start c || ((48 <=? n) && (n <=? 57))%nat.

Definition keywords : list string :=
  [ "and"; "as"; "assert"; "break"; "class"; "continue"; "def"; "del";
    "elif"; "else"; "except"; "exec"; "finally"; "for"; "from"; "global";
    "if"; "import"; "in"; "is"; "lambda"; "not"; "or"; "pass"; "print";
    "raise"; "return"; "try"; "while"; "with"; "yield"; "None" ].

(** A name Python accepts where it binds or reads a variable. *)
Definition identifier (s : string) : bool :=
  match s with
  | EmptyString => false
  | String c rest =>
      is_ident_start c && forallb is_ident_char (list_ascii_of_string rest)
        && negb (bool_decide (s ∈ keywords))
  end.

(** A dotted name such as [operator.add]. *)
Definition dotted_name (s : string) : bool :=
  forallb (fun c => is_ident_char c || bool_decide (c = "."%char))
          (list_ascii_of_string s)
  && forallb (fun part => identifier part)
       ((fix split (cur : string) (cs : list ascii) : list string :=
           match cs with
           | [] => [cur]
           | c :: cs' =>
               if bool_decide (c = "."%char) then cur :: split "" cs'
               else split (cur +:+ String c "") cs'
           end) "" (list_ascii_of_string s)).

(** A text that stays inside its single quotes. *)
Definition quotable (s : string) : bool :=
  forallb (fun c => negb (bool_decide (c = "'"%char) || bool_decide (c = "\"%char)
                            || bool_decide (c = "010"%char)))
          (list_ascii_of_string s).

(** An expression [compile] accepts: [return] is a statement. *)
Fixpoint expression (e : pyexpr) : bool :=
  match e with
  | ELit _ | ESymbols | ECountSucc | ECountAbove _ => true
  | ECall opcall param_list => dotted_name opcall && forallb expression param_list
  | ENeg e => expression e
  | EBool a opname b =>
      expression a && expression b && bool_decide (opname ∈ ["and"; "or"])
  | EGet opname => quotable opname
  | EName opname => identifier opname
  | EUpdate symbol e => quotable (default "None" symbol) && expression e
  | EReturn _ => false
  end.

Definition simple_stmt (b : linebody) : outcome stmt :=
  match b with
  | LExpr (EReturn e) => if expression e then Ok (SReturn e) else Raise SyntaxError
  | LExpr e => if expression e then Ok (SExpr e) else Raise SyntaxError
  | LRaise function_name => Ok (SRaise function_name)
  | LReturnValue z => Ok (SReturn (ELit (NInt z)))
  | _ => Raise SyntaxError
  end.

(** The statements at column [col], up to the first line to its left.  A
    header opens a deeper, non-empty suite; [elif] and [else] continue the
    [if] before them. *)
Fixpoint parse_suite (fuel : nat) (col : nat) (lines : list pyline)
  : outcome (list stmt * list pyline) :=
  match fuel with
  | O => OutOfFuel
  | S fuel' =>
      match lines with
      | [] => Ok ([], [])
      | l :: rest =>
          if (indent l <? col)%nat then Ok ([], lines)
          else if (col <? indent l)%nat then Raise SyntaxError
          else
            '(st, rest1) ←
              match body l with
              | LCond py_cond_name test =>
                  if decide (py_cond_name = "if") then
                    if expression test then parse_if fuel' col test rest
                    else Raise SyntaxError
                  else Raise SyntaxError
              | b => st ← simple_stmt b; Ok (st, rest)
              end;
            '(more, rest2) ← parse_suite fuel' col rest1;
            Ok (st :: more, rest2)
      end
  end
with parse_if (fuel : nat) (col : nat) (test : pyexpr) (lines : list pyline)
  : outcome (stmt * list pyline) :=
  match fuel with
  | O => OutOfFuel
  | S fuel' =>
      '(suite, rest) ← parse_body fuel' col lines;
      match rest with
      | l :: rest' =>
          if (indent l =? col)%nat then
            match body l with
            | LCond py_cond_name test' =>
                if decide (py_cond_name = "elif") then
                  if expression test' then
                    '(st, rest2) ← parse_if fuel' col test' rest';
                    Ok (SIf test suite [st], rest2)
                  else Raise SyntaxError
                else Ok (SIf test suite [], rest)
            | LElse py_cond_name =>
                if decide (py_cond_name = "else") then
                  '(orelse, rest2) ← parse_body fuel' col rest';
                  Ok (SIf test suite orelse, rest2)
                else Ok (SIf test suite [], rest)
            | _ => Ok (SIf test suite [], rest)
            end
          else Ok (SIf test suite [], rest)
      | [] => Ok (SIf test suite [], rest)
      end
  end
with parse_body (fuel : nat) (col : nat) (lines : list pyline)
  : outcome (list stmt * list pyline) :=
  match fuel with
  | O => OutOfFuel
  | S fuel' =>
      match lines with
      | l :: _ =>
          if (col <? indent l)%nat then parse_suite fuel' (indent l) lines
          else Raise SyntaxError
      | [] => Raise SyntaxError
      end
  end.

(** ** Running the generated code *)

(** A function of the generated module: [def userfunc_f(_symbols, p1,
    ..., pn, count=0)]. *)
Record compiled_function := mkfunction {
  cf_params : list string;
  cf_body : list stmt
}.

(** The module the code is loaded into, as [load] fills its dictionary:
    the functions it defines from the function table, by name; whether
    it executed the import lines there, which bind the names of
    [run_time_support], [operator] and [math]; and [run], when the block
    has top-level statements. *)
Record module := mkmodule {
  functions : gmap string compiled_function;
  imported : bool;
  run_body : option (list stmt)
}.

(** The local symbol table a caller hands to the engine: a dictionary, a
    [SymbolTable], or [None]. *)
Inductive local_table :=
| LocalDict (d : gmap string value)
| LocalSymbols (st : SymbolTable.t)
| LocalNone.

(** [{'globals': ..., 'locals': ...}] *)
Record symtables := mktables {
  globals : SymbolTable.t;
  locals : local_table
}.

(** The variables of a call: its parameters and [count]; [run] has no
    [count]. *)
Record frame := mkframe {
  fr_params : list (string * value);
  fr_count : option value
}.

(** How a suite ends. *)
Inductive completion :=
| Normal
| Returned (v : value).

Section Run.
Context {host : PyHost}.

(** Modelled from the spec: [run_time_support.update_symbol], the
    "update variable" call of the generated code.  The module is not
    among the sources; a name that the builder prefixed for [global]
    goes to the global table, any other name to the local one. *)
Definition update_symbol (t : symtables) (symname : string) (v : value)
  : outcome symtables :=
  match symname with
  | String "_" name =>
      Ok (mktables (SymbolTable.setitem (globals t) name v) (locals t))
  | _ =>
      match locals t with
      | LocalDict d => Ok (mktables (globals t) (LocalDict (<[symname := v]> d)))
      | LocalSymbols st =>
          Ok (mktables (globals t) (LocalSymbols (SymbolTable.setitem st symname v)))
      | LocalNone => Raise TypeError
      end
  end.

(** Modelled from the spec: [run_time_support.get_symbol], the "read
    variable" call of the generated code: the local table when it has
    the name, the global table otherwise. *)
Definition get_symbol (t : symtables) (symname : string) : outcome value :=
  match locals t with
  | LocalDict d =>
      match d !! symname with
      | Some v => Ok v
      | None => Ok (SymbolTable.getitem (globals t) symname)
      end
  | LocalSymbols st =>
      if bool_decide (symname ∈ SymbolTable.keys st)
      then Ok (SymbolTable.getitem st symname)
      else Ok (SymbolTable.getitem (globals t) symname)
  | LocalNone => Raise TypeError
  end.

(** The value of a literal of the text. *)
Definition literal (n : number) : outcome value :=
  match n with
  | NInt z | NLong z => Ok (VNum (int_literal z))
  | NFloat f => f' ← float_reparse f; Ok (VNum (NFloat f'))
  end.

Definition lookup_param (fr : frame) (name : string) : outcome value :=
  match list_find (fun p => p.1 = name) (fr_params fr) with
  | Some (_, (_, v)) => Ok v
  | None => Raise NameError
  end.

Definition count_of (fr : frame) : outcome value :=
  match fr_count fr with
  | Some c => Ok c
  | None => Raise NameError
  end.

(** The parameter [name] of the function of the frame.  Within the body
    a parameter is a local variable: it hides the name of the module
    that the generated code means by [name]. *)
Definition local (fr : frame) (name : string) : option value :=
  match list_find (fun p => p.1 = name) (fr_params fr) with
  | Some (_, (_, v)) => Some v
  | None => None
  end.

(** The name a dotted name starts with: [operator] in [operator.add]. *)
Fixpoint root (name : string) : string :=
  match name with
  | EmptyString => EmptyString
  | String c rest =>
      if bool_decide (c = "."%char) then EmptyString else String c (root rest)
  end.

(** How a name of [run_time_support] ([get_symbol], [update_symbol],
    [CodeBlockRuntimeError]) resolves in a frame: a parameter of that
    name hides it; otherwise it is the module's, bound once the import
    lines were executed. *)
Inductive binding :=
| Hidden (v : value)
| Bound
| Unbound.

Definition binding_of (m : module) (fr : frame) (name : string) : binding :=
  match local fr name with
  | Some v => Hidden v
  | None => if imported m then Bound else Unbound
  end.

(** What the name of a call stands for. *)
Inductive callee :=
| Operator                            (* a function of [operator] or [math] *)
| Function (f : compiled_function)    (* a function [load] defined *)
| Support                             (* a name of [run_time_support] *)
| NotCallable.                        (* the value of a parameter *)

(** The function a call names, which Python evaluates before the
    arguments; [user] tells a call that passes [_symbols], the call of a
    [userfunc_] name, from the call of an operator.  A parameter whose
    name is [opcall], or the name [opcall] starts with, hides the
    module's: its value is a number, a bool or [None], which cannot be
    called and has none of the attributes the generator names (those of
    [OPERATOR_FUNCTIONS]; a dotted [userfunc_] name would need a dotted
    name in the function table, which [LanguageEngine()] does not have
    and [compile] refuses in a [def]).  Otherwise the name is the
    module's: a function [load] defined, or a name the import lines
    bound. *)
Definition callee_of (m : module) (fr : frame) (user : bool) (opcall : string)
  : outcome callee :=
  match local fr (root opcall) with
  | Some _ =>
      if decide (root opcall = opcall) then Ok NotCallable else Raise AttributeError
  | None =>
      if user then
        match functions m !! opcall with
        | Some f => Ok (Function f)
        | None => if imported m then Ok Support else Raise NameError
        end
      else if imported m then Ok Operator else Raise NameError
  end.

(** The state of a run: the symbol tables, and the values of [count]
    with which the functions of the module were entered so far, oldest
    first (a record of the run, not an object of the program). *)
Record state := mkstate {
  tables : symtables;
  entered : list value
}.

Definition result (A : Type) : Type := state * outcome A.

Definition with_tables (s : state) (t : symtables) : state :=
  mkstate t (entered s).

(** Expressions, argument lists, suites and calls; every call of the
    evaluator spends one unit of [fuel].  A name is looked up as Python
    does: among the parameters of the frame first, then in the module. *)
Fixpoint eval (fuel : nat) (m : module) (fr : frame) (s : state) (e : pyexpr)
  : result value :=
  match fuel with
  | O => (s, OutOfFuel)
  | S fuel' =>
      match e with
      | ELit n => (s, literal n)
      | ESymbols => (s, Raise TypeError)
      | ECountSucc =>
          (s, c ← count_of fr; operator_call "operator.add" [c; VNum (NInt 1)])
      | ECountAbove limit =>
          (s, c ← count_of fr; operator_call "operator.gt" [c; VNum (NInt limit)])
      | ENeg e1 =>
          match callee_of m fr false "operator.mul" with
          | Ok _ =>
              match eval fuel' m fr s e1 with
              | (s1, Ok v) => (s1, operator_call "operator.mul" [VNum (NInt (-1)); v])
              | r => r
              end
          | Raise x => (s, Raise x)
          | OutOfFuel => (s, OutOfFuel)
          end
      | EBool a opname b =>
          match eval fuel' m fr s a with
          | (s1, Ok va) =>
              if decide (opname = "and") then
                if truthy va then eval fuel' m fr s1 b else (s1, Ok va)
              else
                if truthy va then (s1, Ok va) else eval fuel' m fr s1 b
          | r => r
          end
      | EGet opname =>
          match binding_of m fr "get_symbol" with
          | Bound => (s, get_symbol (tables s) opname)
          | Hidden _ => (s, Raise TypeError)
          | Unbound => (s, Raise NameError)
          end
      | EName opname => (s, lookup_param fr opname)
      | EUpdate symbol e1 =>
          match binding_of m fr "update_symbol" with
          | Unbound => (s, Raise NameError)
          | b =>
              match eval fuel' m fr s e1 with
              | (s1, Ok v) =>
                  match b with
                  | Bound =>
                      match update_symbol (tables s1) (default "None" symbol) v with
                      | Ok t2 => (with_tables s1 t2, Ok VNone)
                      | Raise x => (s1, Raise x)
                      | OutOfFuel => (s1, OutOfFuel)
                      end
                  | _ => (s1, Raise TypeError)
                  end
              | r => r
              end
          end
      | EReturn _ => (s, Raise SyntaxError)
      | ECall opcall (ESymbols :: param_list) =>
          match callee_of m fr true opcall with
          | Ok target =>
              match eval_args fuel' m fr s param_list with
              | (s1, Ok vs) =>
                  match target with
                  | Function f => call fuel' m f s1 vs
                  | Support => (s1, extern_call opcall vs)
                  | Operator | NotCallable => (s1, Raise TypeError)
                  end
              | (s1, Raise x) => (s1, Raise x)
              | (s1, OutOfFuel) => (s1, OutOfFuel)
              end
          | Raise x => (s, Raise x)
          | OutOfFuel => (s, OutOfFuel)
          end
      | ECall opcall param_list =>
          match callee_of m fr false opcall with
          | Ok target =>
              match eval_args fuel' m fr s param_list with
              | (s1, Ok vs) =>
                  match target with
                  | Operator => (s1, operator_call opcall vs)
                  | _ => (s1, Raise TypeError)
                  end
              | (s1, Raise x) => (s1, Raise x)
              | (s1, OutOfFuel) => (s1, OutOfFuel)
              end
          | Raise x => (s, Raise x)
          | OutOfFuel => (s, OutOfFuel)
          end
      end
  end
with eval_args (fuel : nat) (m : module) (fr : frame) (s : state)
               (es : list pyexpr) : result (list value) :=
  match fuel with
  | O => (s, OutOfFuel)
  | S fuel' =>
      match es with
      | [] => (s, Ok [])
      | e :: es' =>
          match eval fuel' m fr s e with
          | (s1, Ok v) =>
              match eval_args fuel' m fr s1 es' with
              | (s2, Ok vs) => (s2, Ok (v :: vs))
              | r => r
              end
          | (s1, Raise x) => (s1, Raise x)
          | (s1, OutOfFuel) => (s1, OutOfFuel)
          end
      end
  end
with exec (fuel : nat) (m : module) (fr : frame) (s : state)
          (suite : list stmt) : result completion :=
  match fuel with
  | O => (s, OutOfFuel)
  | S fuel' =>
      match suite with
      | [] => (s, Ok Normal)
      | SExpr e :: suite' =>
          match eval fuel' m fr s e with
          | (s1, Ok _) => exec fuel' m fr s1 suite'
          | (s1, Raise x) => (s1, Raise x)
          | (s1, OutOfFuel) => (s1, OutOfFuel)
          end
      | SReturn e :: _ =>
          match eval fuel' m fr s e with
          | (s1, Ok v) => (s1, Ok (Returned v))
          | (s1, Raise x) => (s1, Raise x)
          | (s1, OutOfFuel) => (s1, OutOfFuel)
          end
      | SRaise function_name :: _ =>
          match binding_of m fr "CodeBlockRuntimeError" with
          | Bound =>
              (s, Raise (CodeBlockRuntimeError
                           (function_name +:+ ": Call stack depth limit exceeded")))
          | Hidden _ => (s, Raise TypeError)
          | Unbound => (s, Raise NameError)
          end
      | SIf test thens orelse :: suite' =>
          match eval fuel' m fr s test with
          | (s1, Ok v) =>
              match exec fuel' m fr s1 (if truthy v then thens else orelse) with
              | (s2, Ok Normal) => exec fuel' m fr s2 suite'
              | r => r
              end
          | (s1, Raise x) => (s1, Raise x)
          | (s1, OutOfFuel) => (s1, OutOfFuel)
          end
      end
  end
with call (fuel : nat) (m : module) (f : compiled_function) (s : state)
          (args : list value) : result value :=
  match fuel with
  | O => (s, OutOfFuel)
  | S fuel' =>
      let n := length (cf_params f) in
      if (length args <? n)%nat || (S n <? length args)%nat
      then (s, Raise TypeError)
      else
        let count := default (VNum (NInt 0)) (args !! n) in
        let fr := mkframe (zip (cf_params f) (take n args)) (Some count) in
        match exec fuel' m fr (mkstate (tables s) (entered s ++ [count])) (cf_body f) with
        | (s1, Ok (Returned v)) => (s1, Ok v)
        | (s1, Ok Normal) => (s1, Ok VNone)
        | (s1, Raise x) => (s1, Raise x)
        | (s1, OutOfFuel) => (s1, OutOfFuel)
        end
  end.

(** [module_context.run(symtables)] *)
Definition run (fuel : nat) (m : module) (t : symtables) : result value :=
  let s := mkstate t [] in
  match run_body m with
  | Some suite =>
      match exec fuel m (mkframe [] None) s suite with
      | (s1, Ok (Returned v)) => (s1, Ok v)
      | (s1, Ok Normal) => (s1, Ok VNone)
      | (s1, Raise x) => (s1, Raise x)
      | (s1, OutOfFuel) => (s1, OutOfFuel)
      end
  | None => (s, Raise AttributeError)
  end.

End Run.

End Python.

(* ===================================================================== *)
(** * class CodeBlock: postfix lines and the constant folder               *)
(* ===================================================================== *)

Module CodeBlock.

(** The builder's lists hold numbers, strings and lists: a line is a list
    of numbers and strings (the postfix tokens), a block is a list of
    lines, of the tags ["_if"], ["_elseif"], ["_else"] and of the nested
    block that follows a tag.  [NoneObj] is Python's [None]. *)
#[warnings="-register-all"]
Inductive node :=
| Num (n : number)
| Str (s : string)
| Lst (l : list node)
| NoneObj.

(** Dictionary literals of the class, in source order. *)
Definition OPERATOR_FUNCTIONS : list (string * list string) :=
  [ ("operator.add", ["number"; "number"]);
    ("operator.sub", ["number"; "number"]);
    ("operator.mul", ["number"; "number"]);
    ("operator.truediv", ["number"; "number"]);
    ("operator.mod", ["number"; "number"]);
    ("operator.not_", ["bool"]);
    ("operator.lt", ["number"; "number"]);
    ("operator.le", ["number"; "number"]);
    ("operator.gt", ["number"; "number"]);
    ("operator.ge", ["number"; "number"]);
    ("operator.eq", ["number"; "number"]);
    ("operator.ne", ["number"; "number"]);
    ("math.pow", ["number"; "number"]) ].

Definition OPERATOR_REPLACEMENTS : list (string * string) :=
  [ ("+", "operator.add");
    ("-", "operator.sub");
    ("*", "operator.mul");
    ("/", "operator.truediv");
    ("%", "operator.mod");
    ("<", "operator.lt");
    ("not", "operator.not_");
    ("<=", "operator.le");
    (">", "operator.gt");
    (">=", "operator.ge");
    ("==", "operator.eq");
    ("!=", "operator.ne");
    ("^", "math.pow") ].

Definition CONDITIONALS : list string :=
  [ "operator.lt"; "operator.le"; "operator.gt";
    "operator.ge"; "operator.eq"; "operator.ne" ].

(** [d[key]] on a dictionary literal. *)
Fixpoint dict_get {V : Type} (d : list (string * V)) (key : string) : option V :=
  match d with
  | [] => None
  | (k, v) :: d' => if decide (k = key) then Some v else dict_get d' key
  end.

(** [x in l] on a list of strings. *)
Definition str_in (x : string) (l : list string) : bool :=
  bool_decide (x ∈ l).

(** ** Regular expressions of the class *)

Definition is_alpha (c : ascii) : bool :=
  let n := nat_of_ascii c in
  ((65 <=? n) && (n <=? 90) || (97 <=? n) && (n <=? 122))%nat.

Definition is_digit (c : ascii) : bool :=
  let n := nat_of_ascii c in ((48 <=? n) && (n <=? 57))%nat.

Definition is_symbol_body (c : ascii) : bool :=
  is_alpha c || is_digit c || bool_decide (c = "."%char) || bool_decide (c = "_"%char).

Fixpoint symbol_tail (s : string) : bool :=
  match s with
  | EmptyString => true
  | String c rest =>
      if is_symbol_body c then symbol_tail rest
      else bool_decide (c = "010"%char) && bool_decide (rest = EmptyString)
  end.

(** [SYMBOL_RE.match(op)], [SYMBOL_RE] being ["_[a-zA-Z][a-zA-Z0-9._]*$"]. *)
Definition SYMBOL_RE_match (op : string) : bool :=
  match op with
  | String "_" (String c rest) => is_alpha c && symbol_tail rest
  | _ => false
  end.

(** [s[1:]] *)
Definition drop1 (s : string) : string :=
  match s with
  | EmptyString => EmptyString
  | String _ rest => rest
  end.

Section Folder.
Context {host : PyHost}.

Inductive numtype := TInt | TLong | TFloat.

(** The loop [for a in args: if not isinstance(a, int): result_type = type(a)]. *)
Definition result_type_of (args : list number) : numtype :=
  fold_left (fun t a =>
               match a with
               | NInt _ => t
               | NLong _ => TLong
               | NFloat _ => TFloat
               end) args TInt.

(** The value [eval] reads back from [str(a)]. *)
Definition reread (a : number) : outcome value :=
  match a with
  | NInt z | NLong z => Ok (VNum (int_literal z))
  | NFloat f => f' ← float_reparse f; Ok (VNum (NFloat f'))
  end.

(** [result_type(res)] *)
Definition convert (t : numtype) (res : value) : outcome number :=
  match t, res with
  | _, VNone => Raise TypeError
  | TInt, VNum (NFloat f) => z ← trunc_float f; Ok (int_of_Z z)
  | TInt, VNum (NInt z) | TInt, VNum (NLong z) => Ok (int_of_Z z)
  | TInt, VBool b => Ok (NInt (if b then 1 else 0))
  | TLong, VNum (NFloat f) => z ← trunc_float f; Ok (NLong z)
  | TLong, VNum (NInt z) | TLong, VNum (NLong z) => Ok (NLong z)
  | TLong, VBool b => Ok (NLong (if b then 1 else 0))
  | TFloat, VNum (NFloat f) => Ok (NFloat f)
  | TFloat, VNum (NInt z) | TFloat, VNum (NLong z) => f ← to_float z; Ok (NFloat f)
  | TFloat, VBool b => Ok (NFloat (float_of_Z (if b then 1 else 0)))
  end.

(** [executeOperation(op_name, args)]; [None] is the [res = None] the
    method returns for a name outside [OPERATOR_FUNCTIONS]. *)
Definition executeOperation (op_name : string) (args : list number)
  : outcome (option number) :=
  let result_type := result_type_of args in
  match dict_get OPERATOR_FUNCTIONS op_name with
  | Some _ =>
      stargs ← mapM reread args;
      res ← operator_call op_name stargs;
      match res with
      | VBool b => Ok (Some (NInt (if b then 1 else 0)))
      | _ => r ← convert result_type res; Ok (Some r)
      end
  | None => Ok None
  end.

Definition node_of_result (r : option number) : node :=
  match r with
  | Some n => Num n
  | None => NoneObj
  end.

(** [isinstance(x, numbers.Number)] *)
Definition is_number (x : node) : option number :=
  match x with
  | Num n => Some n
  | _ => None
  end.

(** [-1 * x] *)
Definition negate (x : number) : number :=
  match x with
  | NInt z => int_of_Z (- z)
  | NLong z => NLong (- z)
  | NFloat f => NFloat (PrimFloat.mul (float_of_Z (-1)) f)
  end.

(** One pass of the inner [while] of [reduceLine]: [pre] is
    [code_line[:line_idx]], [rest] is [code_line[line_idx:]].  A token
    that is not a string formats to a text that is neither a key of
    [OPERATOR_FUNCTIONS] nor ["unary -"]. *)
Inductive pass :=
| Unchanged
| Changed (code_line : list node)
| Failed (e : exn)
| Starved.

Fixpoint scan (pre rest : list node) : pass :=
  match rest with
  | [] => Unchanged
  | x :: rest' =>
      let next := scan (pre ++ [x]) rest' in
      match x with
      | Str check_op =>
          match dict_get OPERATOR_FUNCTIONS check_op with
          | Some sig =>
              let op_len := length sig in
              let line_idx := length pre in
              if (op_len <=? line_idx)%nat then
                match mapM is_number (drop (line_idx - op_len)%nat pre) with
                | Some operands =>
                    match executeOperation check_op operands with
                    | Ok op_result =>
                        Changed (take (line_idx - op_len)%nat pre
                                   ++ node_of_result op_result :: rest')
                    | Raise e => Failed e
                    | OutOfFuel => Starved
                    end
                | None => next
                end
              else next
          | None =>
              if decide (check_op = "unary -") then
                match reverse pre with
                | Num n :: before => Changed (reverse before ++ Num (negate n) :: rest')
                | _ => next
                end
              else next
          end
      | _ => next
      end
  end.

(** The outer [while (changed_line)]. *)
Fixpoint reduce_loop (fuel : nat) (code_line : list node)
  : outcome (list node) :=
  match fuel with
  | O => OutOfFuel
  | S fuel' =>
      match scan [] code_line with
      | Unchanged => Ok code_line
      | Changed code_line' => reduce_loop fuel' code_line'
      | Failed e => Raise e
      | Starved => OutOfFuel
      end
  end.

(** [reduceLine(code_line)]: each change shortens the line, so its
    length bounds the number of passes. *)
Definition reduceLine (code_line : list node) : outcome (list node) :=
  reduce_loop (S (length code_line)) code_line.

End Folder.

(** ** The code generator *)

(** An entry of [functionmap]: [arglist] holds a type and a name for each
    parameter; [compiled] is present once [pushFuncBlock] has run. *)
Record funcarg := mkarg { arg_type : string; arg_name : string }.

Record func_entry := mkentry {
  arglist : list funcarg;
  block : list node;
  compiled : option Python.compiled_function
}.

(** An entry of [op_stack]. *)
Record operand := mkop { type : string; val : Python.pyexpr }.

(** [if func_name:] *)
Definition named (func_name : option string) : bool :=
  match func_name with
  | Some EmptyString | None => false
  | Some _ => true
  end.

(** The elements of [code_line]: those of a list, the characters of a
    string. *)
Definition line_items (code_line : node) : outcome (list node) :=
  match code_line with
  | Lst l => Ok l
  | Str s => Ok (map (fun c => Str (String c EmptyString)) (list_ascii_of_string s))
  | Num _ | NoneObj => Raise TypeError
  end.

Section Generator.
Context {host : PyHost}.
Import Python.

Variable functionmap : gmap string func_entry.
Variable func_name : option string.

(** The result type of a call, from [params]. *)
Definition result_tag (opcall : string) (params : list operand) : string :=
  if str_in opcall CONDITIONALS then "bool"
  else fold_left (fun res_type arghash =>
                    if decide (type arghash = "float") then "float"
                    else if decide (type arghash = "string") then "str"
                    else res_type) params "int".

(** The branch of [toPythonLine] for an operator or a function:
    [arg_count] operands leave [op_stack], the call enters it. *)
Definition push_call (opcall : string) (arg_count : nat)
           (func_params : list pyexpr) (op_stack : list operand)
  : outcome (list operand) :=
  if (length op_stack <? arg_count)%nat
  then Raise (CodeBlockException "Stack underflow")
  else
    let id_start := (length op_stack - arg_count)%nat in
    let params := drop id_start op_stack in
    let res_type := result_tag opcall params in
    let param_list := func_params ++ map val params in
    let param_list :=
      if named func_name && negb (bool_decide (is_Some (dict_get OPERATOR_FUNCTIONS opcall)))
      then param_list ++ [ECountSucc] else param_list in
    Ok (take id_start op_stack ++ [mkop res_type (ECall opcall param_list)]).

(** [op_stack[-1]['val'] = wrap(op_stack[-1]['val'])] *)
Definition wrap_last (wrap : pyexpr -> pyexpr) (op_stack : list operand)
  : outcome (list operand) :=
  match reverse op_stack with
  | top :: below => Ok (reverse below ++ [mkop (type top) (wrap (val top))])
  | [] => Raise IndexError
  end.

(** The [for op_idx in range(start_pos, len(code_line))] loop; the cases
    ['='] and ['return'] leave it. *)
Fixpoint assemble (symbol : option string) (ops : list node)
         (op_stack : list operand) : outcome (list operand) :=
  match ops with
  | [] => Ok op_stack
  | Num (NInt z) :: ops' =>
      assemble symbol ops' (op_stack ++ [mkop "int" (ELit (NInt z))])
  | Num (NFloat f) :: ops' =>
      assemble symbol ops' (op_stack ++ [mkop "float" (ELit (NFloat f))])
  | Num (NLong _) :: _ | Lst _ :: _ | NoneObj :: _ => Raise TypeError
  | Str op :: ops' =>
      let opname := if SYMBOL_RE_match op then drop1 op else op in
      match dict_get OPERATOR_FUNCTIONS opname, functionmap !! opname with
      | Some sig, _ =>
          op_stack' ← push_call opname (length sig) [] op_stack;
          assemble symbol ops' op_stack'
      | None, Some entry =>
          op_stack' ← push_call ("userfunc_" +:+ opname) (length (arglist entry))
                                [ESymbols] op_stack;
          assemble symbol ops' op_stack'
      | None, None =>
          if decide (opname = "unary -") then
            match reverse op_stack with
            | top :: below =>
                if str_in (type top) ["int"; "float"]
                then assemble symbol ops'
                       (reverse below ++ [mkop (type top) (ENeg (val top))])
                else assemble symbol ops' op_stack
            | [] => assemble symbol ops' op_stack
            end
          else if str_in opname ["and"; "or"] then
            if (length op_stack <? 2)%nat
            then Raise (CodeBlockException "Stack underflow")
            else
              match drop (length op_stack - 2)%nat op_stack with
              | [p0; p1] =>
                  assemble symbol ops'
                    (take (length op_stack - 2)%nat op_stack
                       ++ [mkop "bool" (EBool (val p0) opname (val p1))])
              | _ => Raise IndexError
              end
          else if decide (opname = "=") then
            wrap_last (EUpdate symbol) op_stack
          else if decide (opname = "return") then
            wrap_last EReturn op_stack
          else if named func_name then
            match functionmap !! default "" func_name with
            | Some entry =>
                if str_in opname (map arg_name (arglist entry))
                then assemble symbol ops' (op_stack ++ [mkop "int" (EName opname)])
                else assemble symbol ops' (op_stack ++ [mkop "int" (EGet opname)])
            | None => Raise KeyError
            end
          else assemble symbol ops' (op_stack ++ [mkop "int" (EGet opname)])
      end
  end.

(** The assignee and the first token to assemble: [symbol] and
    [start_pos].  The first token of a line that ends in ['='] is the
    string [pushAssignment] put there. *)
Definition line_head (items : list node) : outcome (option string * list node) :=
  match last items with
  | None => Raise IndexError
  | Some (Str "=") =>
      match items with
      | Str s :: ops => Ok (Some (drop1 s), ops)
      | _ => Raise TypeError
      end
  | Some _ => Ok (None, items)
  end.

(** The body of [toPythonLine] up to [op_stack[-1]['val']]. *)
Definition assembled (code_line : node) : outcome pyexpr :=
  items ← line_items code_line;
  '(symbol, ops) ← line_head items;
  op_stack ← assemble symbol ops [];
  if (1 <? length op_stack)%nat
  then Raise (CodeBlockException "Stack overflow")
  else
    match last op_stack with
    | Some top => Ok (val top)
    | None => Raise IndexError
    end.

(** [toPythonLine(code_line, loc, func_name)]: [col] is [loc[1]]. *)
Definition toPythonLine (code_line : node) (col : nat) : outcome pyline :=
  e ← assembled code_line;
  Ok (mkline col (LExpr e)).

Definition tags : list string := ["_if"; "_elseif"; "_else"].

(** [code_line in ["_if", "_elseif", "_else"]] *)
Definition is_tag (code_line : node) : option string :=
  match code_line with
  | Str s => if str_in s tags then Some s else None
  | _ => None
  end.

(** [block[0]] *)
Definition first_item (block : node) : outcome node :=
  match block with
  | Lst (x :: _) => Ok x
  | Str (String c _) => Ok (Str (String c EmptyString))
  | Lst [] | Str EmptyString => Raise IndexError
  | Num _ | NoneObj => Raise TypeError
  end.

(** The [while] loop of [toPythonBlock] over the items of a block whose
    lines stand at [col].  Its case for a tag is
    [toPythonConditional(code_line[1:], block[block_idx+1], loc,
    func_name)], in which [sub_lines] is the call
    [toPythonBlock(block[block_start_idx:], loc, func_name)]. *)
Section BlockLines.
Variable sub_lines : bool -> node -> nat -> outcome (list pyline).
Variable col : nat.

Fixpoint block_lines (b : list node) : outcome (list pyline) :=
  match b with
  | [] => Ok []
  | code_line :: rest =>
      match is_tag code_line with
      | Some tag =>
          match rest with
          | sub :: rest' =>
              let conditional_name := drop1 tag in
              conditional_code ← (first ← first_item sub; assembled first);
              let py_cond_name :=
                if decide (conditional_name = "elseif") then "elif"
                else conditional_name in
              let header := str_in py_cond_name ["if"; "elif"] in
              inner ← sub_lines header sub col;
              more ← block_lines rest';
              Ok (mkline col
                    (if header
                     then LCond py_cond_name conditional_code
                     else LElse py_cond_name)
                    :: inner ++ more)
          | [] => Raise IndexError
          end
      | None =>
          l ← toPythonLine code_line col;
          more ← block_lines rest;
          Ok (l :: more)
      end
  end.

End BlockLines.

(** [toPythonBlock(block[start:], loc, func_name)], [start] being 0 or
    1: [skip] says which.  The lines of the block stand at [col + 2]. *)
Fixpoint toPythonBlockFrom (skip : bool) (block : node) (col : nat)
  : outcome (list pyline) :=
  let col := (col + 2)%nat in
  match block with
  | Lst items =>
      block_lines toPythonBlockFrom col
        match skip, items with
        | true, _ :: items' => items'
        | _, _ => items
        end
  | Str s =>
      mapM (fun c => toPythonLine (Str (String c EmptyString)) col)
           (list_ascii_of_string (if skip then drop1 s else s))
  | Num _ | NoneObj => Raise TypeError
  end.

(** [toPythonBlock(block, loc, func_name)] *)
Definition toPythonBlock (block : list node) (col : nat) : outcome (list pyline) :=
  toPythonBlockFrom false (Lst block) col.

End Generator.

(** ** The builder: the parse actions *)

(** The tokens a parse action receives: strings, and the nested results of
    a [Group]. *)
#[warnings="-register-all"]
Inductive ptok :=
| PStr (s : string)
| PGroup (toks : list ptok).

(** [str(tok)]: the text of a token, a group as the list it prints as. *)
Fixpoint ptok_str (quoted : bool) (tok : ptok) : string :=
  match tok with
  | PStr s => if quoted then "'" +:+ s +:+ "'" else s
  | PGroup toks => "[" +:+ Python.join ", " (map (ptok_str true) toks) +:+ "]"
  end.

(** [tok == s] *)
Definition ptok_is (tok : ptok) (s : string) : bool :=
  match tok with
  | PStr s' => bool_decide (s' = s)
  | PGroup _ => false
  end.

(** What [self.stack] and [self.frame] refer to: [self.outer_block], the
    ["block"] of a function of [functionmap], or an element of
    [self.inner_blocks]. *)
Inductive frameref :=
| OuterBlock
| FunctionBlock (func_name : string).

Inductive stackref :=
| AtFrame (f : frameref)
| AtInner (i : nat).

(** The fields of a [CodeBlock] that the compilation reads; the module
    context, the syntax tree and the log are left out. *)
Record t := mkblock {
  name : string;
  outer_block : list node;
  inner_blocks : list (list node);
  stack : stackref;
  frame : frameref;
  scratch : list node;
  inner_block_count : nat;
  function_name : option string;
  functionmap : gmap string func_entry
}.

(** [CodeBlock(name, module_context, funcmap)] *)
Definition init (name : string) (funcmap : gmap string func_entry) : t :=
  mkblock name [] [] (AtFrame OuterBlock) OuterBlock [] 0 None funcmap.

Definition set_scratch (cb : t) (scratch : list node) : t :=
  mkblock (name cb) (outer_block cb) (inner_blocks cb) (stack cb) (frame cb)
          scratch (inner_block_count cb) (function_name cb) (functionmap cb).

Definition set_stack (cb : t) (stack : stackref) : t :=
  mkblock (name cb) (outer_block cb) (inner_blocks cb) stack (frame cb)
          (scratch cb) (inner_block_count cb) (function_name cb) (functionmap cb).

Definition set_outer (cb : t) (outer_block : list node) : t :=
  mkblock (name cb) outer_block (inner_blocks cb) (stack cb) (frame cb)
          (scratch cb) (inner_block_count cb) (function_name cb) (functionmap cb).

Definition set_inner (cb : t) (inner_blocks : list (list node)) (count : nat) : t :=
  mkblock (name cb) (outer_block cb) inner_blocks (stack cb) (frame cb)
          (scratch cb) count (function_name cb) (functionmap cb).

Definition set_functionmap (cb : t) (functionmap : gmap string func_entry) : t :=
  mkblock (name cb) (outer_block cb) (inner_blocks cb) (stack cb) (frame cb)
          (scratch cb) (inner_block_count cb) (function_name cb) functionmap.

Definition set_block (e : func_entry) (block : list node) : func_entry :=
  mkentry (arglist e) block (compiled e).

(** The list a reference points to. *)
Definition frame_block (cb : t) (f : frameref) : outcome (list node) :=
  match f with
  | OuterBlock => Ok (outer_block cb)
  | FunctionBlock func_name =>
      match functionmap cb !! func_name with
      | Some e => Ok (block e)
      | None => Raise KeyError
      end
  end.

Definition stack_block (cb : t) : outcome (list node) :=
  match stack cb with
  | AtFrame f => frame_block cb f
  | AtInner i =>
      match inner_blocks cb !! i with
      | Some b => Ok b
      | None => Raise IndexError
      end
  end.

(** [ref.append(x)] *)
Definition frame_append (cb : t) (f : frameref) (x : node) : outcome t :=
  match f with
  | OuterBlock => Ok (set_outer cb (outer_block cb ++ [x]))
  | FunctionBlock func_name =>
      match functionmap cb !! func_name with
      | Some e =>
          Ok (set_functionmap cb
                (<[func_name := set_block e (block e ++ [x])]> (functionmap cb)))
      | None => Raise KeyError
      end
  end.

Definition inner_append (cb : t) (i : nat) (x : node) : outcome t :=
  match inner_blocks cb !! i with
  | Some b => Ok (set_inner cb (<[i := b ++ [x]]> (inner_blocks cb)) (inner_block_count cb))
  | None => Raise IndexError
  end.

Definition stack_append (cb : t) (x : node) : outcome t :=
  match stack cb with
  | AtFrame f => frame_append cb f x
  | AtInner i => inner_append cb i x
  end.

Section Builder.
Context {host : PyHost}.

(** [int(text)] for a text of digits. *)
Definition digits_value (cs : list ascii) : Z :=
  fold_left (fun acc c => 10 * acc + (Z.of_nat (nat_of_ascii c) - 48)) cs 0.

Definition signed_digits (text : string) : option Z :=
  let cs := list_ascii_of_string text in
  let '(neg, ds) :=
    match cs with
    | "-"%char :: ds => (true, ds)
    | "+"%char :: ds => (false, ds)
    | _ => (false, cs)
    end in
  match ds with
  | [] => None
  | _ => if forallb is_digit ds
         then Some (if neg : bool then - digits_value ds else digits_value ds)
         else None
  end.

Definition starts_number (text : string) : bool :=
  match list_ascii_of_string text with
  | c :: c' :: _ =>
      is_digit c
      || ((bool_decide (c = "-"%char) || bool_decide (c = "+"%char)) && is_digit c')
  | [c] => is_digit c
  | [] => false
  end.

(** Modelled from the spec: [infix_to_postfix.convert_infix_to_postfix],
    a module that is not among the sources.  Each token becomes one
    postfix token: a numeric literal its number, a key of
    [replacement_ops] the operator tag it maps to, [and] and [or]
    themselves, and any other name the symbol reference ["_name"], the
    form that [SYMBOL_RE] and the blocks of the built-in functions
    show. *)
Definition convert_token (replacement_ops : list (string * string)) (tok : string)
  : outcome node :=
  if starts_number tok then
    match signed_digits tok with
    | Some z => Ok (Num (int_of_Z z))
    | None => f ← float_literal tok; Ok (Num (NFloat f))
    end
  else
    match dict_get replacement_ops tok with
    | Some op => Ok (Str op)
    | None =>
        if str_in tok ["and"; "or"] then Ok (Str tok)
        else Ok (Str ("_" +:+ tok))
    end.

(** Modelled from the spec: the conversion of a token that is itself a
    list of tokens, element by element. *)
Fixpoint convert_ptok (replacement_ops : list (string * string)) (tok : ptok)
  : outcome (list node) :=
  match tok with
  | PStr s => x ← convert_token replacement_ops s; Ok [x]
  | PGroup g => xs ← mapM (convert_ptok replacement_ops) g; Ok (concat xs)
  end.

(** Modelled from the spec: [convert_infix_to_postfix(tok_list,
    replacement_ops)], the postfix tokens of the tokens of [tok_list] in
    their order. *)
Definition convert_infix_to_postfix (replacement_ops : list (string * string))
           (tok_list : list ptok) : outcome (list node) :=
  xs ← mapM (convert_ptok replacement_ops) tok_list; Ok (concat xs).

(** [pushAssignment(parsestr, loc, toks)] *)
Definition pushAssignment (cb : t) (toks : list ptok) : outcome t :=
  let assign_list :=
    match toks with
    | PGroup assign_tok :: _ =>
        (fix items (global_prefix : string) (l : list ptok) : list node :=
           match l with
           | [] => []
           | inner_item :: l' =>
               if ptok_is inner_item "=" then []
               else if ptok_is inner_item "global" then items "_" l'
               else Str (global_prefix +:+ "_" +:+ ptok_str false inner_item)
                      :: items global_prefix l'
           end) "" assign_tok
    | PStr s :: _ =>
        (fix chars (l : list ascii) : list node :=
           match l with
           | [] => []
           | c :: l' =>
               if decide (c = "="%char) then []
               else Str ("_" +:+ String c EmptyString) :: chars l'
           end) (list_ascii_of_string s)
    | [] => []
    end in
  cb ← stack_append cb (Lst (assign_list ++ scratch cb ++ [Str "="]));
  Ok (set_scratch cb []).

(** [del(l[i])] *)
Definition del {A : Type} (l : list A) (i : nat) : outcome (list A) :=
  if (i <? length l)%nat then Ok (delete i l) else Raise IndexError.

(** [pushConditionalBlock(parsestr, loc, toks)] *)
Definition pushConditionalBlock (cb : t) (toks : list ptok) : outcome t :=
  copy ← stack_block cb;
  if (1 <? inner_block_count cb)%nat then
    let count := (inner_block_count cb - 1)%nat in
    let cb := set_inner cb (inner_blocks cb) count in
    cb ← inner_append cb (count - 1)%nat (Lst copy);
    let cb := set_stack cb (AtInner (count - 1)%nat) in
    blocks ← del (inner_blocks cb) count;
    Ok (set_inner cb blocks count)
  else
    cb ← frame_append cb (frame cb) (Lst copy);
    let cb := set_inner cb (inner_blocks cb) 0 in
    blocks ← del (inner_blocks cb) 0;
    Ok (set_stack (set_inner cb blocks 0) (AtFrame (frame cb))).

(** [pushIfCond(parsestr, loc, toks)] *)
Definition pushIfCond (cb : t) (toks : list ptok) : outcome t :=
  let if_statement :=
    match toks with
    | tok :: _ => "_" +:+ ptok_str false tok
    | [] => ""
    end in
  cb ← (if (0 <? inner_block_count cb)%nat
        then if (0 <? length (inner_blocks cb))%nat
             then inner_append cb (length (inner_blocks cb) - 1)%nat (Str if_statement)
             else Raise IndexError
        else frame_append cb (frame cb) (Str if_statement));
  let cb := set_inner cb (inner_blocks cb ++ [[]]) (S (inner_block_count cb)) in
  Ok (set_stack cb (AtInner (length (inner_blocks cb) - 1)%nat)).

(** [pushComparison(parsestr, loc, toks)] *)
Definition pushComparison (cb : t) (toks : list ptok) : outcome t :=
  cb ← stack_append cb (Lst (scratch cb));
  Ok (set_scratch cb []).

(** [pushReturn(parsestr, loc, toks)] *)
Definition pushReturn (cb : t) (toks : list ptok) : outcome t :=
  cb ← stack_append cb (Lst (scratch cb ++ [Str "_return"]));
  Ok (set_scratch cb []).

(** [tok in self.functionmap] *)
Definition known (cb : t) (tok : ptok) : option func_entry :=
  match tok with
  | PStr s => functionmap cb !! s
  | PGroup _ => None
  end.

Definition fatal {A : Type} (msg : string) : outcome A :=
  Raise (ParseFatalException msg).

(** [countFunctionArgs(parsestr, loc, toks)]: the loop over the tokens
    after the function name carries [skip_count] and [arg_count]. *)
Fixpoint count_args (cb : t) (func_name : string) (arity : nat)
         (toks : list ptok) (skip_count arg_count : nat) : outcome nat :=
  match toks with
  | [] => Ok arg_count
  | tok :: toks' =>
      let arg_count := if (arg_count =? 0)%nat then 1%nat else arg_count in
      if (arity =? 0)%nat then
        fatal ("Too many arguments to function " +:+ Python.dquote +:+ func_name
                 +:+ Python.dquote)
      else
        let skip_count :=
          match known cb tok with
          | Some e => (skip_count + (length (arglist e) - 1))%nat
          | None => skip_count
          end in
        if ptok_is tok "," then
          if (0 <? skip_count)%nat
          then count_args cb func_name arity toks' (skip_count - 1)%nat arg_count
          else count_args cb func_name arity toks' skip_count (S arg_count)
        else count_args cb func_name arity toks' skip_count arg_count
  end.

Definition countFunctionArgs (cb : t) (toks : list ptok) : outcome t :=
  match toks with
  | [] => Ok cb
  | tok :: toks' =>
      match known cb tok with
      | Some e =>
          let func_name := ptok_str false tok in
          let arity := length (arglist e) in
          arg_count ← count_args cb func_name arity toks' 0 0;
          if (arg_count <? arity)%nat then
            fatal ("Too few arguments to function " +:+ Python.dquote +:+ func_name
                     +:+ Python.dquote)
          else if (arity <? arg_count)%nat then
            fatal ("Too many arguments to function " +:+ Python.dquote +:+ func_name
                     +:+ Python.dquote)
          else Ok cb
      | None => fatal ("Unknown function call '" +:+ ptok_str false tok +:+ "'")
      end
  end.

(** [pushFuncArgs(parsestr, loc, toks)]: the loop over the items that
    follow the function name carries [arg_with_type] and [arg_list]. *)
Fixpoint declared_args (func_name : string) (items : list ptok)
         (arg_with_type : option string) (arg_list : list funcarg)
  : outcome (list funcarg) :=
  match items with
  | [] => Ok arg_list
  | item :: items' =>
      if ptok_is item "," then declared_args func_name items' arg_with_type arg_list
      else
        match arg_with_type with
        | None =>
            let typename := ptok_str false item in
            if str_in typename ["void"; "number"; "string"] then
              declared_args func_name items' (Some typename)
                (if decide (typename = "void")
                 then arg_list ++ [mkarg typename ""] else arg_list)
            else fatal ("Missing type name in declaration of function '"
                          +:+ func_name +:+ "'")
        | Some typename =>
            if decide (typename = "void") then
              fatal ("Extraneous token following void in declaration of function '"
                       +:+ func_name +:+ "'")
            else declared_args func_name items' None
                   (arg_list ++ [mkarg typename (ptok_str false item)])
        end
  end.

(** The items of [for tok in toks: for item in tok]. *)
Definition flat_items (toks : list ptok) : list ptok :=
  concat (map (fun tok =>
                 match tok with
                 | PGroup items => items
                 | PStr s => map (fun c => PStr (String c EmptyString))
                                 (list_ascii_of_string s)
                 end) toks).

Definition pushFuncArgs (cb : t) (toks : list ptok) : outcome t :=
  match filter (fun item => ptok_is item "," = false) (flat_items toks) with
  | [] => Raise IndexError
  | first :: items =>
      let func_name := ptok_str false first in
      if bool_decide (is_Some (functionmap cb !! func_name)) then
        fatal ("Redefinition of existing function '" +:+ func_name +:+ "'")
      else
        arg_list ← declared_args func_name items None [];
        match arg_list with
        | [] => Raise IndexError
        | a :: _ =>
            let entry :=
              if decide (arg_type a = "void") then mkentry [] [] None
              else mkentry arg_list [] None in
            Ok (mkblock (name cb) (outer_block cb) (inner_blocks cb)
                        (AtFrame (FunctionBlock func_name)) (FunctionBlock func_name)
                        (scratch cb) (inner_block_count cb) (Some func_name)
                        (<[func_name := entry]> (functionmap cb)))
        end
  end.

(** [pushAtom(parsestr, loc, toks)] *)
Definition pushAtom (cb : t) (toks : list ptok) : outcome t :=
  let '(add_not, add_tok) :=
    match toks with
    | [] => (false, None)
    | tok :: rest =>
        if ptok_is tok "not" then (true, head rest) else (false, Some tok)
    end in
  let func_call :=
    match add_tok with
    | Some tok => bool_decide (is_Some (known cb tok))
    | None => false
    end in
  if func_call then
    xs ← convert_infix_to_postfix OPERATOR_REPLACEMENTS (option_list add_tok);
    Ok (set_scratch cb (scratch cb ++ xs
                          ++ if add_not then [Str "operator.not_"] else []))
  else
    xs ← convert_infix_to_postfix OPERATOR_REPLACEMENTS toks;
    Ok (set_scratch cb (scratch cb ++ xs)).

(** [pushFirst(parsestr, loc, toks)] *)
Definition pushFirst (cb : t) (toks : list ptok) : outcome t :=
  match toks with
  | tok :: _ =>
      xs ← convert_infix_to_postfix OPERATOR_REPLACEMENTS [tok];
      Ok (set_scratch cb (scratch cb ++ xs))
  | [] => Raise IndexError
  end.

(** [pushUMinus(parsestr, loc, toks)] *)
Fixpoint leading_minus (toks : list ptok) : list node :=
  match toks with
  | t :: toks' => if ptok_is t "-" then Str "unary -" :: leading_minus toks' else []
  | [] => []
  end.

Definition pushUMinus (cb : t) (toks : list ptok) : outcome t :=
  Ok (set_scratch cb (scratch cb ++ leading_minus toks)).

(** The [while] loop of [reduceBlock] over the items of a block;
    [reduce_sub] is the call [self.reduceBlock(block[block_idx+1])] for
    the item after a tag.  Any other list is reduced as a line. *)
Section ReduceItems.
Variable reduce_sub : node -> outcome node.

Fixpoint reduce_items (b : list node) : outcome (list node) :=
  match b with
  | [] => Ok []
  | code_line :: rest =>
      match is_tag code_line with
      | Some _ =>
          match rest with
          | sub :: rest' =>
              sub' ← reduce_sub sub;
              rest'' ← reduce_items rest';
              Ok (code_line :: sub' :: rest'')
          | [] => Raise IndexError
          end
      | None =>
          code_line' ←
            match code_line with
            | Lst l => l' ← reduceLine l; Ok (Lst l')
            | _ => Ok code_line
            end;
          rest' ← reduce_items rest;
          Ok (code_line' :: rest')
      end
  end.

End ReduceItems.

(** [reduceBlock(block)]: a string has no item that is a tag or a list,
    a number has no length. *)
Fixpoint reduceBlockNode (block : node) : outcome node :=
  match block with
  | Lst items => items' ← reduce_items reduceBlockNode items; Ok (Lst items')
  | Str s => Ok (Str s)
  | Num _ | NoneObj => Raise TypeError
  end.

Definition reduceBlock (block : list node) : outcome (list node) :=
  r ← reduceBlockNode (Lst block);
  match r with
  | Lst block' => Ok block'
  | _ => Ok block
  end.

(** [reduce()] *)
Definition reduce (cb : t) : outcome t :=
  outer ← reduceBlock (outer_block cb);
  Ok (set_outer cb outer).

(** [RETURN_RE.match(line)], [RETURN_RE] being ["  return "]. *)
Definition RETURN_RE_match (line : string) : bool :=
  String.prefix "  return " line.

(** [compile(function_code, ...)]: the lines of a [def] as Python reads
    them.  The header [pushFuncBlock] writes ends in [count=0]. *)
Definition distinct (names : list string) : bool :=
  bool_decide (NoDup names).

Definition compile_def (lines : list Python.pyline)
  : outcome (option string * Python.compiled_function) :=
  match lines with
  | Python.mkline O header :: suite =>
      '(defname, params) ←
        match header with
        | Python.LDef function_name param_list =>
            match reverse param_list with
            | "count=0" :: names =>
                let names := reverse names in
                if Python.identifier ("userfunc_" +:+ function_name)
                   && forallb Python.identifier names
                   && distinct ("_symbols" :: "count" :: names)
                then Ok (Some function_name, names)
                else Raise SyntaxError
            | _ => Raise SyntaxError
            end
        | Python.LDefRun => Ok (None, [])
        | _ => Raise SyntaxError
        end;
      '(stmts, rest) ← Python.parse_body (3 * S (length suite)) 0 suite;
      match rest with
      | [] => Ok (defname, Python.mkfunction params stmts)
      | _ => Raise SyntaxError
      end
  | _ => Raise SyntaxError
  end.

Definition set_compiled (e : func_entry) (c : Python.compiled_function) : func_entry :=
  mkentry (arglist e) (block e) (Some c).

(** [pushFuncBlock(parsestr, loc, toks)] *)
Definition pushFuncBlock (cb : t) (toks : list ptok) : outcome t :=
  body ← frame_block cb (frame cb);
  body ← reduceBlock body;
  cb ← match frame cb with
       | OuterBlock => Ok (set_outer cb body)
       | FunctionBlock f =>
           match functionmap cb !! f with
           | Some e => Ok (set_functionmap cb (<[f := set_block e body]> (functionmap cb)))
           | None => Raise KeyError
           end
       end;
  match function_name cb with
  | None => Raise AttributeError
  | Some function_name =>
      match functionmap cb !! function_name with
      | None => Raise KeyError
      | Some e =>
          let param_list := map arg_name (arglist e) in
          function_body ← toPythonBlock (functionmap cb) (Some function_name) body 0;
          let func_lines :=
            [ Python.mkline 0 (Python.LDef function_name (param_list ++ ["count=0"]));
              Python.mkline 2 (Python.LCond "if" (Python.ECountAbove 100));
              Python.mkline 4 (Python.LRaise function_name) ]
            ++ function_body in
          let func_lines :=
            match last func_lines with
            | Some l =>
                if RETURN_RE_match (Python.render_line l) then func_lines
                else func_lines ++ [Python.mkline 2 (Python.LReturnValue (- sys_maxint - 1))]
            | None => func_lines
            end in
          '(_, code) ← compile_def func_lines;
          Ok (mkblock (name cb) (outer_block cb) (inner_blocks cb)
                      (AtFrame OuterBlock) OuterBlock
                      (scratch cb) (inner_block_count cb) (Some "None")
                      (<[function_name := set_compiled e code]> (functionmap cb)))
      end
  end.

(** [toPython()] *)
Definition toPython (cb : t) : outcome (list Python.pyline) :=
  match outer_block cb with
  | [] => Ok []
  | _ =>
      python_lines ← toPythonBlock (functionmap cb) None (outer_block cb) 0;
      Ok (Python.mkline 0 Python.LDefRun :: python_lines)
  end.

(** [load(import_list)], with the list [operator], [math] that
    [register_code_block] passes: the functions that have a ['compiled']
    entry, then the import lines and [run] when [toPython()] is not
    empty. *)
Definition load (cb : t) : outcome Python.module :=
  let functions : gmap string Python.compiled_function :=
    list_to_map
      (omap (fun kv => c ← compiled kv.2; Some ("userfunc_" +:+ kv.1, c))
            (map_to_list (functionmap cb))) in
  exec_code ← toPython cb;
  match exec_code with
  | [] => Ok (Python.mkmodule functions false None)
  | _ =>
      '(_, code) ← compile_def exec_code;
      Ok (Python.mkmodule functions true (Some (Python.cf_body code)))
  end.

(** [clear()] *)
Definition clear (cb : t) : t :=
  mkblock "" [] [] (AtFrame OuterBlock) OuterBlock [] 0 (function_name cb) ∅.

(** [addToFuncMap(func_map)] *)
Definition addToFuncMap (cb : t) (func_map : gmap string func_entry) : t :=
  set_functionmap cb (func_map ∪ functionmap cb).

(** [copyTo(other)] *)
Definition copyTo (cb other : t) : t :=
  addToFuncMap (set_outer other (outer_block cb)) (functionmap cb).

End Builder.

End CodeBlock.


(* ===================================================================== *)
(** * pyparsing: the elements the grammar is built from                    *)
(* ===================================================================== *)

Module PyParsing.
Import CodeBlock.

(** The position in [instring]: the character before [loc], and the text
    from [loc] on. *)
Record cursor := mkcursor { before : option ascii; rest : list ascii }.

(** The result of [element._parse(instring, loc)]: the new position and
    the tokens, a [ParseException], or any other exception.  A parse
    action runs when its element matches, also inside an alternative that
    fails later, so the builder is threaded through failures as well. *)
Inductive presult :=
| Matched (c : cursor) (toks : list ptok) (cb : CodeBlock.t)
| NoMatch (cb : CodeBlock.t)
| Abort (e : exn)
| Starved.

Definition parser : Type := cursor -> CodeBlock.t -> presult.

Definition is_white (c : ascii) : bool :=
  bool_decide (c ∈ [" "%char; "010"%char; "009"%char; "013"%char]).

(** [preParse]: skip the white space before an element. *)
Fixpoint skip_white (c : cursor) (cs : list ascii) : cursor :=
  match cs with
  | x :: cs' => if is_white x then skip_white (mkcursor (Some x) cs') cs' else c
  | [] => c
  end.

Definition pre_parse (c : cursor) : cursor := skip_white c (rest c).

(** Advance over [n] characters. *)
Fixpoint advance (n : nat) (c : cursor) : cursor :=
  match n, rest c with
  | S n', x :: cs => advance n' (mkcursor (Some x) cs)
  | _, _ => c
  end.

Fixpoint starts_with (pat cs : list ascii) : bool :=
  match pat, cs with
  | [], _ => true
  | p :: pat', x :: cs' => bool_decide (p = x) && starts_with pat' cs'
  | _ :: _, [] => false
  end.

(** [Literal(match)] *)
Definition Literal (m : string) : parser := fun c cb =>
  let c := pre_parse c in
  if starts_with (list_ascii_of_string m) (rest c)
  then Matched (advance (String.length m) c) [PStr m] cb
  else NoMatch cb.

(** [identChars] of [Keyword]: [alphanums + "_$"]. *)
Definition ident_char (x : ascii) : bool :=
  is_alpha x || is_digit x || bool_decide (x = "_"%char) || bool_decide (x = "$"%char).

(** [Keyword(match)] *)
Definition Keyword (m : string) : parser := fun c cb =>
  let c := pre_parse c in
  if starts_with (list_ascii_of_string m) (rest c)
     && match drop (String.length m) (rest c) with
        | x :: _ => negb (ident_char x)
        | [] => true
        end
     && match before c with
        | Some x => negb (ident_char x)
        | None => true
        end
  then Matched (advance (String.length m) c) [PStr m] cb
  else NoMatch cb.

Fixpoint take_while (f : ascii -> bool) (cs : list ascii) : list ascii :=
  match cs with
  | x :: cs' => if f x then x :: take_while f cs' else []
  | [] => []
  end.

(** [Word(initChars, bodyChars)] *)
Definition Word (init body : ascii -> bool) : parser := fun c cb =>
  let c := pre_parse c in
  match rest c with
  | x :: cs =>
      if init x then
        let w := x :: take_while body cs in
        Matched (advance (length w) c) [PStr (string_of_list_ascii w)] cb
      else NoMatch cb
  | [] => NoMatch cb
  end.

(** [Regex(pattern)], given the function that returns the length of the
    match of the pattern at the start of a text. *)
Definition Regex (re_match : list ascii -> option nat) : parser := fun c cb =>
  let c := pre_parse c in
  match re_match (rest c) with
  | Some n => Matched (advance n c) [PStr (string_of_list_ascii (take n (rest c)))] cb
  | None => NoMatch cb
  end.

(** [StringEnd()] *)
Definition stringEnd : parser := fun c cb =>
  match rest (pre_parse c) with
  | [] => Matched (pre_parse c) [] cb
  | _ => NoMatch cb
  end.

(** [a + b] *)
Definition And (a b : parser) : parser := fun c cb =>
  match a c cb with
  | Matched c1 toks1 cb1 =>
      match b c1 cb1 with
      | Matched c2 toks2 cb2 => Matched c2 (toks1 ++ toks2) cb2
      | r => r
      end
  | r => r
  end.

(** [a | b] *)
Definition MatchFirst (a b : parser) : parser := fun c cb =>
  match a c cb with
  | NoMatch cb1 => b c cb1
  | r => r
  end.

(** [Optional(a)] *)
Definition Optional (a : parser) : parser := fun c cb =>
  match a c cb with
  | NoMatch cb1 => Matched c [] cb1
  | r => r
  end.

(** [ZeroOrMore(a)]: every match of [a] in the grammar consumes a
    character, which bounds the repetitions. *)
Fixpoint repeat (fuel : nat) (a : parser) (acc : list ptok) : parser := fun c cb =>
  match fuel with
  | O => Starved
  | S fuel' =>
      match a c cb with
      | Matched c1 toks cb1 => repeat fuel' a (acc ++ toks) c1 cb1
      | NoMatch cb1 => Matched c acc cb1
      | r => r
      end
  end.

Definition ZeroOrMore (a : parser) : parser := fun c cb =>
  repeat (2 + length (rest c)) a [] c cb.

(** [OneOrMore(a)] *)
Definition OneOrMore (a : parser) : parser := And a (ZeroOrMore a).

(** [Group(a)] *)
Definition Group (a : parser) : parser := fun c cb =>
  match a c cb with
  | Matched c1 toks cb1 => Matched c1 [PGroup toks] cb1
  | r => r
  end.

(** [a.suppress()] *)
Definition suppress (a : parser) : parser := fun c cb =>
  match a c cb with
  | Matched c1 _ cb1 => Matched c1 [] cb1
  | r => r
  end.

(** [a.setParseAction(fn)]: the actions of the builder return [None], so
    the tokens stay as they are.  [MatchFirst], [Optional] and
    [ZeroOrMore] take an [IndexError] for a failed match as they take a
    [ParseException], and every action of the grammar runs inside one of
    them: an action that raises [IndexError] makes its element fail, and
    the builder is kept as the action found it.  Any other exception ends
    the parse. *)
Definition setParseAction (a : parser) (fn : CodeBlock.t -> list ptok -> outcome CodeBlock.t)
  : parser := fun c cb =>
  match a c cb with
  | Matched c1 toks cb1 =>
      match fn cb1 toks with
      | Ok cb2 => Matched c1 toks cb2
      | Raise IndexError => NoMatch cb1
      | Raise e => Abort e
      | OutOfFuel => Starved
      end
  | r => r
  end.

(** [element.parseString(instring)] *)
Definition parseString (bnf : parser) (instring : string) (cb : CodeBlock.t)
  : outcome CodeBlock.t :=
  match bnf (mkcursor None (list_ascii_of_string instring)) cb with
  | Matched _ _ cb1 => Ok cb1
  | NoMatch _ => Raise ParseException
  | Abort e => Raise e
  | Starved => OutOfFuel
  end.

End PyParsing.

(* ===================================================================== *)
(** * BNF: the grammar and its parse actions                               *)
(* ===================================================================== *)

Module Grammar.
Import CodeBlock PyParsing.

Notation "a +> b" := (And a b) (at level 50, left associativity).
Notation "a <|> b" := (MatchFirst a b) (at level 60, right associativity).

(** The length of the match of the pattern of [fnumber] at the start of
    [cs]: an optional sign and digits; then, optionally, an optional
    colon, a dot and digits; then, optionally, an optional colon, [e] or
    [E], an optional sign and digits.  (The source writes the two
    non-capturing groups as an optional colon.) *)
Definition re_fnumber (cs : list ascii) : option nat :=
  let sign cs :=
    match cs with
    | x :: cs' => if bool_decide (x = "+"%char) || bool_decide (x = "-"%char)
                  then (1%nat, cs') else (0%nat, cs)
    | [] => (0%nat, cs)
    end in
  let colon cs :=
    match cs with
    | ":"%char :: cs' => (1%nat, cs')
    | _ => (0%nat, cs)
    end in
  let '(n0, cs) := sign cs in
  let ds := take_while is_digit cs in
  match ds with
  | [] => None
  | _ =>
      let cs := drop (length ds) cs in
      let n1 := (n0 + length ds)%nat in
      (* the fraction *)
      let '(n2, cs) :=
        let '(k, cs') := colon cs in
        match cs' with
        | "."%char :: cs'' =>
            let fs := take_while is_digit cs'' in
            ((n1 + k + 1 + length fs)%nat, drop (length fs) cs'')
        | _ => (n1, cs)
        end in
      (* the exponent *)
      let n3 :=
        let '(k, cs') := colon cs in
        match cs' with
        | x :: cs'' =>
            if bool_decide (x = "e"%char) || bool_decide (x = "E"%char) then
              let '(j, cs3) := sign cs'' in
              let es := take_while is_digit cs3 in
              match es with
              | [] => n2
              | _ => (n2 + k + 1 + j + length es)%nat
              end
            else n2
        | [] => n2
        end in
      Some n3
  end.

(** The length of the match of [.*] followed by the line separator. *)
Fixpoint re_uptolineend (cs : list ascii) : option nat :=
  match cs with
  | [] => None
  | x :: cs' =>
      if bool_decide (x = "010"%char) then Some 1%nat
      else S <$> re_uptolineend cs'
  end.

Section BNF.
Context {host : PyHost}.

Definition fnumber : parser := Regex re_fnumber.
Definition ident : parser :=
  Word is_alpha
       (fun x => is_alpha x || is_digit x
                 || bool_decide (x ∈ ["."%char; "_"%char; "$"%char])).
Definition uptolineend : parser := Regex re_uptolineend.
Definition comment_sym : parser := Literal "#".
Definition plus : parser := Literal "+".
Definition minus : parser := Literal "-".
Definition mult : parser := Literal "*".
Definition div : parser := Literal "/".
Definition mod_ : parser := Literal "%".
Definition lpar : parser := suppress (Literal "(").
Definition rpar : parser := suppress (Literal ")").
Definition lbrack : parser := suppress (Literal "{").
Definition rbrack : parser := suppress (Literal "}").
Definition glbl : parser := Keyword "global".
Definition boolnot : parser := Keyword "not".
Definition boolor : parser := Keyword "or".
Definition booland : parser := Keyword "and".
Definition ifcond : parser := Keyword "if".
Definition elseifcond : parser := Keyword "elseif".
Definition elsecond : parser := Keyword "else".
Definition func : parser := Keyword "function".
Definition num : parser := Keyword "number".
Definition strn : parser := Keyword "string".
Definition void : parser := Keyword "void".
Definition ret : parser := Keyword "return".
Definition is_equal : parser := Keyword "==".
Definition is_nequal : parser := Keyword "!=".
Definition is_lt : parser := Keyword "<".
Definition is_lte : parser := Keyword "<=".
Definition is_gt : parser := Keyword ">".
Definition is_gte : parser := Keyword ">=".
Definition assignop : parser := Keyword "=".
Definition compareop : parser :=
  is_equal <|> is_nequal <|> is_lte <|> is_lt <|> is_gte <|> is_gt.
Definition boolop : parser := boolor <|> booland.
Definition addop : parser := plus <|> minus.
Definition multop : parser := mult <|> div <|> mod_.
Definition typestring : parser := num <|> strn.
Definition expop : parser := Literal "^".
Definition comments : parser := comment_sym +> uptolineend.

(** [atom], given [combinatorial]. *)
Definition atom (combinatorial : parser) : parser :=
  setParseAction
    (ZeroOrMore minus
       +> (setParseAction
             (setParseAction
                (ident +> lpar
                   +> Optional (combinatorial
                                  +> ZeroOrMore (Literal "," +> combinatorial))
                   +> rpar)
                countFunctionArgs
              <|> fnumber <|> ident)
             pushAtom
           <|> Group (lpar +> combinatorial +> rpar)))
    pushUMinus.

(** [factor <<= atom + ZeroOrMore((expop + factor).setParseAction(pushFirst))];
    [n] bounds the depth of the [Forward] references. *)
Fixpoint factor (n : nat) (atom : parser) (c : cursor) (cb : CodeBlock.t) {struct n}
  : presult :=
  match n with
  | O => Starved
  | S n' =>
      (atom +> ZeroOrMore (setParseAction (expop +> factor n' atom) pushFirst)) c cb
  end.

Definition term (factor : parser) : parser :=
  factor +> ZeroOrMore (setParseAction (multop +> factor) pushFirst).

Definition expr (term : parser) : parser :=
  term +> ZeroOrMore (setParseAction (addop +> term) pushFirst).

Fixpoint combinatorial (n : nat) (c : cursor) (cb : CodeBlock.t) {struct n}
  : presult :=
  match n with
  | O => Starved
  | S n' =>
      let expr := expr (term (factor n (atom (combinatorial n'))))  in
      (Optional boolnot +> expr
         +> ZeroOrMore (setParseAction
                          ((boolop <|> compareop) +> Optional boolnot +> expr)
                          pushFirst)) c cb
  end.

Section Statements.
Variable n : nat.

Definition returnline : parser :=
  setParseAction (Group (ret +> combinatorial n)) pushReturn.

Definition assignment : parser :=
  setParseAction (Group (Optional glbl +> ident +> assignop +> combinatorial n))
                 pushAssignment.

Definition comparison : parser :=
  setParseAction (Group (lpar +> combinatorial n +> rpar)) pushComparison.

(** [conditional_set], given [block] with its parse action. *)
Definition conditional_set (block : parser) : parser :=
  let conditional_start :=
    setParseAction ifcond pushIfCond +> comparison +> block in
  let conditional_continue :=
    setParseAction elseifcond pushIfCond +> comparison +> block in
  let conditional_else :=
    setParseAction elsecond pushIfCond +> block in
  Group (conditional_start +> ZeroOrMore conditional_continue
           +> Optional conditional_else).

(** [block], with the action [pushConditionalBlock] that the three
    [block.setParseAction] calls give it. *)
Fixpoint block (m : nat) (c : cursor) (cb : CodeBlock.t) {struct m} : presult :=
  match m with
  | O => Starved
  | S m' =>
      setParseAction
        (Group (lbrack
                  +> ZeroOrMore (suppress comments <|> assignment
                                   <|> conditional_set (block m'))
                  +> rbrack))
        pushConditionalBlock c cb
  end.

Definition func_def_args : parser :=
  setParseAction
    (Group (ident +> lpar
              +> ((typestring +> ident
                     +> ZeroOrMore (Literal "," +> typestring +> ident))
                  <|> void)
              +> rpar))
    pushFuncArgs.

Definition function_block : parser :=
  setParseAction
    (Group (lbrack
              +> ZeroOrMore (suppress comments <|> assignment
                               <|> conditional_set (block n) <|> returnline)
              +> rbrack))
    pushFuncBlock.

Definition func_def : parser := Group (func +> func_def_args +> function_block).

Definition bnf : parser :=
  OneOrMore (suppress comments <|> func_def <|> assignment
               <|> conditional_set (block n))
    +> stringEnd.
End Statements.

(** [BNF(code_block_obj).parseString(source_code_str)]: the length of
    the text bounds the nesting of its expressions and blocks. *)
Definition parse (source_code_str : string) (cb : CodeBlock.t) : outcome CodeBlock.t :=
  parseString (bnf (S (String.length source_code_str))) source_code_str cb.

End BNF.
End Grammar.

(* ===================================================================== *)
(** * class CodeBlockGenerator and class LanguageEngine                    *)
(* ===================================================================== *)

Module LanguageEngine.
Import CodeBlock.

(** What the registry keeps for a name: the code block and the module its
    code was loaded into. *)
Record runnable := mkrunnable {
  code_block : CodeBlock.t;
  module_context : Python.module
}.

Record t := mkengine {
  global_symbol_table : SymbolTable.t;
  functionmap : gmap string func_entry;
  code_blocks : gmap string runnable;
  local_tables : gmap string (gmap string value)
}.

Section Engine.
Context {host : PyHost}.

(** [CodeBlockGenerator.wrap_code_block(program_name, module_context,
    source_code_str, funcmap)].  The class keeps one builder and clears
    it in the [finally] clause of every call, so each call starts from
    the state [clear()] leaves; [function_name], which [clear()] does
    not reset, is written by [pushFuncArgs] before [pushFuncBlock] reads
    it. *)
Definition wrap_code_block (program_name : string) (source_code_str : string)
           (funcmap : gmap string func_entry) : outcome CodeBlock.t :=
  let shared := clear (init "none" ∅) in
  let shared := if bool_decide (funcmap = ∅) then shared
                else addToFuncMap shared funcmap in
  shared ← Grammar.parse source_code_str shared;
  shared ← reduce shared;
  Ok (copyTo shared (init program_name funcmap)).

(** [math.pi] and [math.e] *)
Definition math_pi : PrimFloat.float :=
  PrimFloat.div (float_of_Z 884279719003555) (float_of_Z (2 ^ 48)).
Definition math_e : PrimFloat.float :=
  PrimFloat.div (float_of_Z 6121026514868073) (float_of_Z (2 ^ 51)).

(** [LanguageEngine()] *)
Definition init : t :=
  mkengine
    (SymbolTable.setConstant
       (SymbolTable.setConstant (SymbolTable.init ∅ false)
                                "pi" (VNum (NFloat math_pi)))
       "e" (VNum (NFloat math_e)))
    (<["distance" :=
         mkentry [mkarg "number" "start"; mkarg "number" "end"]
                 [Str "_start"; Str "_end"; Str "operator.sub";
                  Str "operator.abs"; Str "_return"] None]>
       (<["randint" :=
            mkentry [mkarg "number" "max"]
                    [Num (NInt 0); Str "_max"; Str "random.randint"; Str "_return"]
                    None]>
          (<["time" := mkentry [] [Str "time.time"; Str "_return"] None]> ∅)))
    ∅ ∅.

(** [register_code_block(block_name, code_string)] *)
Definition register_code_block (eng : t) (block_name code_string : string)
  : t * outcome unit :=
  match code_blocks eng !! block_name with
  | Some _ =>
      (eng, Raise (LanguageEngineException
                     ("Attempt to register another code block named '"
                        +:+ block_name +:+ "'")))
  | None =>
      match (code_block_runnable ← wrap_code_block block_name code_string
                                     (functionmap eng);
             m ← load code_block_runnable;
             Ok (mkrunnable code_block_runnable m)) with
      | Ok r =>
          (mkengine (global_symbol_table eng) (functionmap eng)
                    (<[block_name := r]> (code_blocks eng)) (local_tables eng),
           Ok ())
      | Raise e => (eng, Raise e)
      | OutOfFuel => (eng, OutOfFuel)
      end
  end.

(** [if local_symbol_table:] *)
Definition nonempty (l : Python.local_table) : bool :=
  match l with
  | Python.LocalDict d => negb (bool_decide (d = ∅))
  | Python.LocalSymbols _ => true
  | Python.LocalNone => false
  end.

(** [d.update(local_symbol_table)] *)
Definition update (d : gmap string value) (l : Python.local_table)
  : gmap string value :=
  match l with
  | Python.LocalDict d' => d' ∪ d
  | Python.LocalSymbols st => SymbolTable.consts st ∪ SymbolTable.vars st ∪ d
  | Python.LocalNone => d
  end.

(** [execute_code_block(block_name, local_symbol_table)]: the engine
    and the caller's table after the call, and how the call ended;
    [fuel] bounds the steps of the run. *)
Definition execute_code_block (fuel : nat) (eng : t) (block_name : string)
           (local_symbol_table : Python.local_table)
  : t * Python.local_table * outcome unit :=
  match code_blocks eng !! block_name with
  | None =>
      (eng, local_symbol_table,
       Raise (LanguageEngineException
                ("Attempt to execute unknown code block named '"
                   +:+ block_name +:+ "'")))
  | Some r =>
      let local_tables :=
        if nonempty local_symbol_table then
          <[block_name :=
              update (default ∅ (local_tables eng !! block_name))
                     local_symbol_table]> (local_tables eng)
        else local_tables eng in
      let symtables := Python.mktables (global_symbol_table eng) local_symbol_table in
      let '(s, res) := Python.run fuel (module_context r) symtables in
      (mkengine (Python.globals (Python.tables s)) (functionmap eng) (code_blocks eng)
                local_tables,
       Python.locals (Python.tables s),
       match res with
       | Ok _ => Ok ()
       | Raise e => Raise e
       | OutOfFuel => OutOfFuel
       end)
  end.

(** [unregister_code_block(block_name)] *)
Definition unregister_code_block (eng : t) (block_name : string) : t :=
  match code_blocks eng !! block_name with
  | Some _ =>
      mkengine (global_symbol_table eng) (functionmap eng)
               (delete block_name (code_blocks eng)) (local_tables eng)
  | None => eng
  end.

End Engine.
End LanguageEngine.


(* ===================================================================== *)
(** * Hosts, scenarios and predicates of the statements                    *)
(* ===================================================================== *)

(** CPython 2 on a 64-bit platform, for programs that stay in the
    integers: the floating-point calls of this host raise instead of
    approximating CPython. *)
Definition cpython64 : PyHost := {|
  sys_maxint := 9223372036854775807;
  host_float_text := fun _ => "nan";
  host_float_reparse := fun _ => inl NameError;
  host_float_literal := fun _ => inl ValueError;
  host_float_call := fun _ _ => inl TypeError;
  host_int_to_float := fun _ => inl OverflowError;
  host_extern_call := fun _ _ => inl NameError
|}.

(** The platforms CPython 2 runs on: [int] is a 32-bit or a 64-bit C
    long. *)
Definition c_long (host : PyHost) : Prop :=
  sys_maxint = 2 ^ 31 - 1 \/ sys_maxint = 2 ^ 63 - 1.

(** A table with a constant and a variable of the same name, and a
    callback. *)
Definition shadowed_table : SymbolTable.t :=
  SymbolTable.setConstant (SymbolTable.init {["x" := VNum (NInt 2)]} true)
                          "x" (VNum (NInt 1)).

(** The engine after [register("b1", "x = 5")]. *)
Definition engine_b1 : LanguageEngine.t :=
  (LanguageEngine.register_code_block (host := cpython64)
     LanguageEngine.init "b1" "x = 5").1.

(** Register [code_string] under [block_name] in a fresh engine and
    execute it once against the dictionary [locals]: how the two calls
    ended, and the dictionary afterwards. *)
Definition compile_and_run {host : PyHost} (block_name code_string : string)
           (locals : gmap string value)
  : outcome unit * outcome unit * Python.local_table :=
  let '(eng, registered) :=
    LanguageEngine.register_code_block LanguageEngine.init block_name code_string in
  let '(_, locals, executed) :=
    LanguageEngine.execute_code_block 1000 eng block_name (Python.LocalDict locals) in
  (registered, executed, locals).

(** The text [load] hands to Python for the [run] of a block. *)
Definition generated_text {host : PyHost} (block_name code_string : string)
  : outcome (list string) :=
  cb ← LanguageEngine.wrap_code_block block_name code_string
         (LanguageEngine.functionmap LanguageEngine.init);
  python_lines ← CodeBlock.toPython cb;
  Ok (map Python.render_line python_lines).

(** A function settles on [x]: it comes to an end there, and its result on
    [x] is a fixed point. *)
Definition settles {A : Type} (f : A -> outcome A) (x : A) : Prop :=
  f x <> OutOfFuel /\ forall x', f x = Ok x' -> f x' = Ok x'.

(** [x = 2 + 3 * 4] in postfix form, as built and folded. *)
Definition sum_and_product : list CodeBlock.node :=
  [CodeBlock.Str "_x"; CodeBlock.Num (NInt 2); CodeBlock.Num (NInt 3);
   CodeBlock.Num (NInt 4); CodeBlock.Str "operator.mul";
   CodeBlock.Str "operator.add"; CodeBlock.Str "="].

Definition folded_sum : list CodeBlock.node :=
  [CodeBlock.Str "_x"; CodeBlock.Num (NInt 14); CodeBlock.Str "="].

(** The block of [if (a < 1 + 1) { x = 2 + 3 }], as built and folded. *)
Definition conditional : list CodeBlock.node :=
  [CodeBlock.Str "_if";
   CodeBlock.Lst
     [CodeBlock.Lst [CodeBlock.Str "_a"; CodeBlock.Num (NInt 1); CodeBlock.Num (NInt 1);
                     CodeBlock.Str "operator.add"; CodeBlock.Str "operator.lt"];
      CodeBlock.Lst [CodeBlock.Str "_x"; CodeBlock.Num (NInt 2); CodeBlock.Num (NInt 3);
                     CodeBlock.Str "operator.add"; CodeBlock.Str "="]]].

Definition folded_conditional : list CodeBlock.node :=
  [CodeBlock.Str "_if";
   CodeBlock.Lst
     [CodeBlock.Lst [CodeBlock.Str "_a"; CodeBlock.Num (NInt 2);
                     CodeBlock.Str "operator.lt"];
      CodeBlock.Lst [CodeBlock.Str "_x"; CodeBlock.Num (NInt 5); CodeBlock.Str "="]]].

(** The statement the grammar builds from an assignment. *)
Definition statement_of {host : PyHost} (code_string : string)
  : outcome (list CodeBlock.node) :=
  cb ← Grammar.parse code_string (CodeBlock.init "none" ∅);
  Ok (CodeBlock.outer_block cb).

(** Generate the code of a block that holds the one statement
    [code_line], load it and run it against empty tables: the local table
    afterwards. *)
Definition run_statement {host : PyHost} (code_line : list CodeBlock.node)
  : outcome Python.local_table :=
  m ← CodeBlock.load (CodeBlock.set_outer (CodeBlock.init "none" ∅)
                                           [CodeBlock.Lst code_line]);
  match Python.run 100 m (Python.mktables (SymbolTable.init ∅ false)
                                          (Python.LocalDict ∅)) with
  | (s, Ok _) => Ok (Python.locals (Python.tables s))
  | (_, Raise e) => Raise e
  | (_, OutOfFuel) => OutOfFuel
  end.

(** [x = 1 / 2] and [x = -(1 < 2)] in postfix form. *)
Definition half : list CodeBlock.node :=
  [CodeBlock.Str "_x"; CodeBlock.Num (NInt 1); CodeBlock.Num (NInt 2);
   CodeBlock.Str "operator.truediv"; CodeBlock.Str "="].

Definition minus_comparison : list CodeBlock.node :=
  [CodeBlock.Str "_x"; CodeBlock.Num (NInt 1); CodeBlock.Num (NInt 2);
   CodeBlock.Str "operator.lt"; CodeBlock.Str "unary -"; CodeBlock.Str "="].

(** The number of arguments of a call whose tokens after the name are
    [toks]: one more than the commas, none for no token. *)
Definition commas (toks : list CodeBlock.ptok) : nat :=
  length (filter (fun tok => CodeBlock.ptok_is tok "," = true) toks).

Definition supplied (toks : list CodeBlock.ptok) : nat :=
  match toks with
  | [] => 0
  | _ => S (commas toks)
  end.

Definition too_few {A : Type} (func_name : string) : outcome A :=
  Raise (ParseFatalException
           ("Too few arguments to function " +:+ Python.dquote +:+ func_name
              +:+ Python.dquote)).

Definition too_many {A : Type} (func_name : string) : outcome A :=
  Raise (ParseFatalException
           ("Too many arguments to function " +:+ Python.dquote +:+ func_name
              +:+ Python.dquote)).

(** The builder at the start of a compilation by a fresh engine. *)
Definition fresh_builder : CodeBlock.t :=
  CodeBlock.addToFuncMap (CodeBlock.clear (CodeBlock.init "none" ∅))
                         (LanguageEngine.functionmap LanguageEngine.init).

(** The per-block table after [execute_code_block]: what the method does
    to [self.local_tables]. *)
Definition merged (eng : LanguageEngine.t) (block_name : string)
           (local_symbol_table : Python.local_table)
  : gmap string (gmap string value) :=
  if LanguageEngine.nonempty local_symbol_table then
    <[block_name :=
        LanguageEngine.update
          (default ∅ (LanguageEngine.local_tables eng !! block_name))
          local_symbol_table]> (LanguageEngine.local_tables eng)
  else LanguageEngine.local_tables eng.



(** The parameters of a generated call. *)
Definition call_params (func_name : option string) (opcall : string)
           (func_params : list Python.pyexpr) (params : list CodeBlock.operand)
  : list Python.pyexpr :=
  if CodeBlock.named func_name
     && negb (bool_decide (is_Some (CodeBlock.dict_get CodeBlock.OPERATOR_FUNCTIONS opcall)))
  then (func_params ++ map CodeBlock.val params) ++ [Python.ECountSucc]
  else func_params ++ map CodeBlock.val params.



(** A function that calls itself unconditionally, and a call of it from
    the top level. *)
Definition endless : string :=
  "function f(number n) { return f(n) } x = f(1)".

(** The same function with a parameter named as the exception of the
    guard. *)
Definition hidden_guard : string :=
  "function f(number CodeBlockRuntimeError) { return f(1) } x = f(1)".

(** Register [code_string] in a fresh engine and run its module against
    empty tables: how the run ended, and the values of [count] with which
    functions were entered. *)
Definition entered_counts {host : PyHost} (code_string : string)
  : outcome (outcome value * list value) :=
  cb ← LanguageEngine.wrap_code_block "b" code_string
         (LanguageEngine.functionmap LanguageEngine.init);
  m ← CodeBlock.load cb;
  let '(s, ended) :=
    Python.run 2000 m (Python.mktables (SymbolTable.init ∅ false) (Python.LocalDict ∅)) in
  Ok (ended, Python.entered s).

Definition depth_exceeded (function_name : string) : exn :=
  CodeBlockRuntimeError (function_name +:+ ": Call stack depth limit exceeded").

(** The body of a compiled function opens with the guard. *)
Definition guarded (function_name : string) (code : Python.compiled_function) : Prop :=
  exists dead orelse rest,
    Python.cf_body code
    = Python.SIf (Python.ECountAbove 100)
                 (Python.SRaise function_name :: dead) orelse :: rest.

(* ===================================================================== *)
(** * Call sites, the depth counter and the builder's function table       *)
(* ===================================================================== *)

Section CallSitePredicates.
Import Python.

(** The shape of the arguments of a call inside a function body: the
    declared number of operands, then [count+1]. *)
Definition counted (qs : list pyexpr) (n : nat) : bool :=
  (length qs =? S n)%nat
  && match last qs with
     | Some ECountSucc => true
     | _ => false
     end.

(** The call sites of an expression and of a statement, checked against
    the number of parameters [arity] gives for the called name: a call
    inside a function body ([infn]) passes that many operands and
    [count+1], a call of the top level passes the operands only.  A name
    without an arity is refused when the check is [strict]. *)
Section CallSites.
Variable strict : bool.
Variable arity : string -> option nat.
Variable infn : bool.

Fixpoint site_ok (e : pyexpr) : bool :=
  match e with
  | ECall opcall ps =>
      forallb site_ok ps
      && match ps with
         | ESymbols :: qs =>
             match arity opcall with
             | Some n => if infn then counted qs n else (length qs =? n)%nat
             | None => negb strict
             end
         | _ => true
         end
  | ENeg e1 | EUpdate _ e1 | EReturn e1 => site_ok e1
  | EBool a _ b => site_ok a && site_ok b
  | _ => true
  end.

Fixpoint stmt_ok (st : stmt) : bool :=
  match st with
  | SExpr e | SReturn e => site_ok e
  | SRaise _ => true
  | SIf test body orelse =>
      site_ok test && forallb stmt_ok body && forallb stmt_ok orelse
  end.

End CallSites.

(** The number of parameters of a function of a module. *)
Definition arity_of (m : module) (opcall : string) : option nat :=
  (fun f => length (cf_params f)) <$> functions m !! opcall.

(** Every function of the module opens with the guard, and the call
    sites of the module agree with its functions. *)
Definition module_ok (m : module) : Prop :=
  (forall opcall f, functions m !! opcall = Some f ->
     (exists function_name, guarded function_name f)
     /\ forallb (stmt_ok false (arity_of m) true) (cf_body f) = true)
  /\ (forall suite, run_body m = Some suite ->
        forallb (stmt_ok false (arity_of m) false) suite = true).

(** A count with which a function may be entered. *)
Definition depth_ok (v : value) : Prop :=
  exists c, v = VNum (NInt c) /\ 0 <= c <= 101.

(** Past the guard, the count of a function frame is at most 100. *)
Definition frame_ok (infn : bool) (fr : frame) : Prop :=
  if infn then exists c, fr_count fr = Some (VNum (NInt c)) /\ 0 <= c <= 100
  else True.

(** The counts with which the functions were entered stay within one of
    the ceiling. *)
Definition bounded (s : state) : Prop := Forall depth_ok (entered s).

End CallSitePredicates.

Section BuilderPredicates.
Import Python CodeBlock.

(** [s] without the prefix [p]. *)
Fixpoint strip_prefix (p s : string) : option string :=
  match p, s with
  | EmptyString, _ => Some s
  | String a p', String b s' => if decide (a = b) then strip_prefix p' s' else None
  | String _ _, EmptyString => None
  end.

(** The number of parameters that [functionmap] declares for the function
    behind the name of a generated call. *)
Definition arity_in (fm : gmap string func_entry) (opcall : string) : option nat :=
  g ← strip_prefix "userfunc_" opcall;
  e ← fm !! g;
  Some (length (arglist e)).

(** A line whose expressions have well-formed call sites. *)
Definition line_ok (strict : bool) (arity : string -> option nat) (infn : bool)
           (l : pyline) : bool :=
  match body l with
  | LExpr e | LCond _ e => site_ok strict arity infn e
  | _ => true
  end.

Definition is_symbols (e : pyexpr) : bool :=
  match e with
  | ESymbols => true
  | _ => false
  end.

(** An entry of [op_stack]: its call sites are well-formed, and it is not
    the name [_symbols]. *)
Definition operand_ok (arity : string -> option nat) (infn : bool) (o : operand) : bool :=
  site_ok true arity infn (val o) && negb (is_symbols (val o)).

(** [fm'] declares what [fm] declares. *)
Definition extends (fm fm' : gmap string func_entry) : Prop :=
  forall g e, fm !! g = Some e ->
              exists e', fm' !! g = Some e' /\ arglist e' = arglist e.

(** A compiled function of the table opens with the guard, takes the
    declared parameters, and its call sites agree with the table. *)
Definition fn_ok (fm : gmap string func_entry) (k : string) (e : func_entry) : Prop :=
  forall code, compiled e = Some code ->
    guarded k code
    /\ length (cf_params code) = length (arglist e)
    /\ forallb (stmt_ok true (arity_in fm) true) (cf_body code) = true.

(** The builder during a compilation: the function being defined has a
    name, and the compiled functions are well-formed. *)
Definition builder_ok (cb : CodeBlock.t) : Prop :=
  (forall f, function_name cb = Some f -> f <> "")
  /\ map_Forall (fn_ok (functionmap cb)) (functionmap cb).

(** No function of the table has been compiled: the state of the table
    of an engine. *)
Definition uncompiled (funcmap : gmap string func_entry) : Prop :=
  map_Forall (fun _ e => compiled e = None) funcmap.

End BuilderPredicates.

Section ParserPredicates.
Import CodeBlock PyParsing.

(** A parser keeps the builder well-formed, whether it matches or not. *)
Definition preserves (p : parser) : Prop :=
  forall c cb, builder_ok cb ->
    match p c cb with
    | Matched _ _ cb' | NoMatch cb' => builder_ok cb'
    | Abort _ | Starved => True
    end.

End ParserPredicates.

(* ===================================================================== *)
(** * Write sequences, requests and the shapes the further results use     *)
(* ===================================================================== *)

(** A sequence of statements [table[item] = val], oldest first. *)
Definition writes (st : SymbolTable.t) (ws : list (string * value)) : SymbolTable.t :=
  fold_left (fun st w => SymbolTable.setitem st w.1 w.2) ws st.

(** The value of the last write to [item] among [ws]. *)
Definition last_written (item : string) (ws : list (string * value)) : option value :=
  snd <$> last (filter (fun w => w.1 = item) ws).

(** A token the folder passes over: any item but a key of
    [OPERATOR_FUNCTIONS] and ["unary -"]. *)
Definition operand_token (x : CodeBlock.node) : bool :=
  match x with
  | CodeBlock.Str s =>
      negb (bool_decide (is_Some (CodeBlock.dict_get CodeBlock.OPERATOR_FUNCTIONS s)))
      && negb (bool_decide (s = "unary -"))
  | _ => true
  end.

(** What folding may do to an item of a block: a list stays a list, any
    other item stays as it is. *)
Definition same_kind (x y : CodeBlock.node) : Prop :=
  match x with
  | CodeBlock.Lst _ => exists l, y = CodeBlock.Lst l
  | _ => y = x
  end.

(** The operators whose result on integers is an integer computed without
    rounding. *)
Definition exact_operator (op : string) : option (Z -> Z -> Z) :=
  if decide (op = "operator.add") then Some Z.add
  else if decide (op = "operator.sub") then Some Z.sub
  else if decide (op = "operator.mul") then Some Z.mul
  else None.

(** The statement [symbol = a op b] in postfix form. *)
Definition binary_statement (symbol : string) (a b : Z) (op : string)
  : list CodeBlock.node :=
  [CodeBlock.Str symbol; CodeBlock.Num (NInt a); CodeBlock.Num (NInt b);
   CodeBlock.Str op; CodeBlock.Str "="].

(** The builder between two statements: [inner_block_count] blocks are
    open, and [stack] is the innermost of them, or the frame. *)
Definition between_statements (cb : CodeBlock.t) : Prop :=
  CodeBlock.inner_block_count cb = length (CodeBlock.inner_blocks cb)
  /\ CodeBlock.stack cb
     = match CodeBlock.inner_block_count cb with
       | O => CodeBlock.AtFrame (CodeBlock.frame cb)
       | S k => CodeBlock.AtInner k
       end.

(** The statements [body], appended to [stack] one after the other. *)
Fixpoint appended (body : list CodeBlock.node) (cb : CodeBlock.t) : outcome CodeBlock.t :=
  match body with
  | [] => Ok cb
  | x :: body' => cb ← CodeBlock.stack_append cb x; appended body' cb
  end.

(** The parse actions of a conditional whose block holds the statements
    [body]: the keyword, the comparison when the keyword has one, the
    statements, and the end of the block. *)
Definition conditional_actions (compared : bool) (keyword : string)
           (body : list CodeBlock.node) (cb : CodeBlock.t) : outcome CodeBlock.t :=
  cb ← CodeBlock.pushIfCond cb [CodeBlock.PStr keyword];
  cb ← (if compared then CodeBlock.pushComparison cb [] else Ok cb);
  cb ← appended body cb;
  CodeBlock.pushConditionalBlock cb [].

(** What the actions of a conditional amount to: the tag and the block
    are appended to [stack], and the comparison empties [scratch]. *)
Definition conditional_appended (compared : bool) (keyword : string)
           (body : list CodeBlock.node) (cb : CodeBlock.t) : outcome CodeBlock.t :=
  cb1 ← CodeBlock.stack_append cb (CodeBlock.Str ("_" +:+ keyword));
  cb2 ← CodeBlock.stack_append cb1
          (CodeBlock.Lst ((if compared then [CodeBlock.Lst (CodeBlock.scratch cb)] else [])
                            ++ body));
  Ok (if compared then CodeBlock.set_scratch cb2 [] else cb2).

(** The tokens of the parameters of a declaration
    [f(type1 name1, type2 name2, ...)], as [func_def_args] groups them. *)
Fixpoint parameter_tokens (args : list CodeBlock.funcarg) : list CodeBlock.ptok :=
  match args with
  | [] => []
  | a :: rest =>
      CodeBlock.PStr (CodeBlock.arg_type a) :: CodeBlock.PStr (CodeBlock.arg_name a)
        :: match rest with
           | [] => []
           | _ => CodeBlock.PStr "," :: parameter_tokens rest
           end
  end.

Definition declaration (func_name : string) (args : list CodeBlock.funcarg)
  : list CodeBlock.ptok :=
  [CodeBlock.PGroup (CodeBlock.PStr func_name :: parameter_tokens args)].

(** A parameter the grammar accepts: its type is [number] or [string],
    and its name is not a comma. *)
Definition parameter (a : CodeBlock.funcarg) : bool :=
  bool_decide (CodeBlock.arg_type a ∈ ["number"; "string"])
  && negb (bool_decide (CodeBlock.arg_name a = ",")).

(** The builder after [pushFuncArgs] on the declaration of [func_name]
    with the parameters [arglist]. *)
Definition declared (cb : CodeBlock.t) (func_name : string)
           (arglist : list CodeBlock.funcarg) : CodeBlock.t :=
  CodeBlock.mkblock (CodeBlock.name cb) (CodeBlock.outer_block cb)
    (CodeBlock.inner_blocks cb)
    (CodeBlock.AtFrame (CodeBlock.FunctionBlock func_name))
    (CodeBlock.FunctionBlock func_name)
    (CodeBlock.scratch cb) (CodeBlock.inner_block_count cb) (Some func_name)
    (<[func_name := CodeBlock.mkentry arglist [] None]> (CodeBlock.functionmap cb)).

(** The lines of a suite that stands at [col]: the first line is at
    [col], no line is to its left. *)
Definition suite_at (col : nat) (lines : list Python.pyline) : Prop :=
  Forall (fun l => (col <= Python.indent l)%nat) lines
  /\ forall l, head lines = Some l -> Python.indent l = col.

(** A call of a method of the engine. *)
Inductive request :=
| ReqRegister (block_name code_string : string)
| ReqExecute (fuel : nat) (block_name : string) (local_symbol_table : Python.local_table)
| ReqUnregister (block_name : string).

(** The engine after a call, and after a sequence of calls. *)
Definition serve {host : PyHost} (eng : LanguageEngine.t) (req : request)
  : LanguageEngine.t :=
  match req with
  | ReqRegister block_name code_string =>
      (LanguageEngine.register_code_block eng block_name code_string).1
  | ReqExecute fuel block_name local_symbol_table =>
      (LanguageEngine.execute_code_block fuel eng block_name local_symbol_table).1.1
  | ReqUnregister block_name => LanguageEngine.unregister_code_block eng block_name
  end.

Definition served {host : PyHost} (eng : LanguageEngine.t) (reqs : list request)
  : LanguageEngine.t :=
  fold_left serve reqs eng.

(** The constants of the global table of a run are [constants]. *)
Definition constant_table (constants : gmap string value) (s : Python.state) : Prop :=
  SymbolTable.consts (Python.globals (Python.tables s)) = constants.

(** The text of a float is not a [return] statement. *)
Definition plain_floats (host : PyHost) : Prop :=
  forall f, String.prefix "return " (float_text f) = false.

(** A suite that ends with a [return]. *)
Definition returns (suite : list Python.stmt) : Prop :=
  exists stmts e, suite = stmts ++ [Python.SReturn e].

(** The lines that remain to be read end with the line [l]. *)
Definition ends_with (l : Python.pyline) (lines : list Python.pyline) : Prop :=
  last lines = Some l.

(** A block that holds a function definition and no statement. *)
Definition functions_only : string := "function one(void) { return 1 }".

(** A block that assigns to a constant of the global table. *)
Definition assigns_pi : string := "global pi = 3".

(* ===================================================================== *)
(** * The symbol table                                                     *)
(* ===================================================================== *)

Section SymbolTableFacts.
Context {host : PyHost}.
Import SymbolTable.

Lemma getitem_constant (st : SymbolTable.t) (item : string) (c : value) :
  consts st !! item = Some c -> getitem st item = c.
Proof. intros H. unfold getitem. now rewrite H. Qed.

Lemma getitem_variable (st : SymbolTable.t) (item : string) (v : value) :
  consts st !! item = None -> vars st !! item = Some v -> getitem st item = v.
Proof. intros Hc Hv. unfold getitem. now rewrite Hc, Hv. Qed.

(** C9: a name that is in neither dictionary reads as the sentinel
    [-sys.maxint - 1], and a name of the constants reads as the
    constant, whatever the variables hold under that name. *)
Theorem getitem_sentinel_and_shadowing (st : SymbolTable.t) (item : string) :
  (consts st !! item = None -> vars st !! item = None ->
     getitem st item = VNum (NInt (- sys_maxint - 1)))
  /\ (forall c, consts st !! item = Some c -> getitem st item = c).
Proof.
  split.
  - intros Hc Hv. unfold getitem. now rewrite Hc, Hv.
  - apply getitem_constant.
Qed.

(** C10: writing to a name of the constants through [__setitem__]
    leaves the table as it is: both dictionaries, and the record of the
    callback's invocations. *)
Theorem setitem_constant_is_noop (st : SymbolTable.t) (item : string) (val : value) :
  is_Some (consts st !! item) -> setitem st item val = st.
Proof. intros [c Hc]. unfold setitem. now rewrite Hc. Qed.

Lemma setitem_variable_notifies (st : SymbolTable.t) (item : string) (val : value) :
  consts st !! item = None -> sym_change_callback st = true ->
  notified (setitem st item val) = notified st ++ [(item, val)]
  /\ vars (setitem st item val) !! item = Some val.
Proof.
  intros Hc Hcb. unfold setitem. rewrite Hc. simpl. rewrite Hcb.
  split; [reflexivity | apply lookup_insert_eq].
Qed.

End SymbolTableFacts.

Lemma getitem_sentinel_and_shadowing_witness :
  SymbolTable.getitem (host := cpython64) shadowed_table "y"
    = VNum (NInt (-9223372036854775808))
  /\ SymbolTable.getitem (host := cpython64) shadowed_table "x" = VNum (NInt 1).
Proof.
  split.
  - apply (proj1 (getitem_sentinel_and_shadowing (host := cpython64) shadowed_table "y"));
      vm_compute; reflexivity.
  - apply (proj2 (getitem_sentinel_and_shadowing (host := cpython64) shadowed_table "x"));
      vm_compute; reflexivity.
Defined.

Lemma setitem_constant_is_noop_witness :
  SymbolTable.setitem shadowed_table "x" (VNum (NInt 7)) = shadowed_table.
Proof.
  apply (setitem_constant_is_noop shadowed_table "x" (VNum (NInt 7))).
  exists (VNum (NInt 1)). vm_compute. reflexivity.
Defined.

(* ===================================================================== *)
(** * The registry                                                         *)
(* ===================================================================== *)

Section RegistryFacts.
Context {host : PyHost}.
Import LanguageEngine.

Lemma register_duplicate (eng : LanguageEngine.t) (block_name code_string : string) :
  is_Some (code_blocks eng !! block_name) ->
  register_code_block eng block_name code_string
  = (eng, Raise (LanguageEngineException
                   ("Attempt to register another code block named '"
                      +:+ block_name +:+ "'"))).
Proof. intros [r Hr]. unfold register_code_block. now rewrite Hr. Qed.

Lemma execute_unknown (fuel : nat) (eng : LanguageEngine.t) (block_name : string)
      (local_symbol_table : Python.local_table) :
  code_blocks eng !! block_name = None ->
  execute_code_block fuel eng block_name local_symbol_table
  = (eng, local_symbol_table,
     Raise (LanguageEngineException
              ("Attempt to execute unknown code block named '"
                 +:+ block_name +:+ "'"))).
Proof. intros Hr. unfold execute_code_block. now rewrite Hr. Qed.

Lemma unregister_deletes (eng : LanguageEngine.t) (block_name : string) :
  code_blocks (unregister_code_block eng block_name)
  = delete block_name (code_blocks eng)
  /\ global_symbol_table (unregister_code_block eng block_name) = global_symbol_table eng
  /\ functionmap (unregister_code_block eng block_name) = functionmap eng
  /\ local_tables (unregister_code_block eng block_name) = local_tables eng.
Proof.
  unfold unregister_code_block.
  destruct (code_blocks eng !! block_name) eqn:Hr; simpl; repeat split.
  symmetry. now apply delete_id.
Qed.

Lemma unregister_absent (eng : LanguageEngine.t) (block_name : string) :
  code_blocks eng !! block_name = None -> unregister_code_block eng block_name = eng.
Proof. intros Hr. unfold unregister_code_block. now rewrite Hr. Qed.

(** C6: registering a name that is taken fails and leaves the engine,
    and so the unit registered under the name, as it was; executing a
    name that is not registered fails and leaves the engine and the
    caller's table as they were; unregistering removes the name from the
    registry, and does nothing when the name is absent. *)
Theorem registry_usage_errors (fuel : nat) (eng : LanguageEngine.t)
        (block_name code_string : string) (local_symbol_table : Python.local_table) :
  (is_Some (code_blocks eng !! block_name) ->
     exists msg, register_code_block eng block_name code_string
                 = (eng, Raise (LanguageEngineException msg)))
  /\ (code_blocks eng !! block_name = None ->
        exists msg, execute_code_block fuel eng block_name local_symbol_table
                    = (eng, local_symbol_table, Raise (LanguageEngineException msg)))
  /\ code_blocks (unregister_code_block eng block_name) !! block_name = None
  /\ (forall other, other <> block_name ->
        code_blocks (unregister_code_block eng block_name) !! other
        = code_blocks eng !! other)
  /\ (code_blocks eng !! block_name = None ->
        unregister_code_block eng block_name = eng).
Proof.
  repeat split.
  - intros H. eexists. now apply register_duplicate.
  - intros H. eexists. now apply execute_unknown.
  - rewrite (proj1 (unregister_deletes eng block_name)). apply lookup_delete_eq.
  - intros other Hne. rewrite (proj1 (unregister_deletes eng block_name)).
    now apply lookup_delete_ne.
  - apply unregister_absent.
Qed.

End RegistryFacts.

Lemma registry_usage_errors_witness :
  (exists msg,
      LanguageEngine.register_code_block (host := cpython64) engine_b1 "b1" "x = 6"
      = (engine_b1, Raise (LanguageEngineException msg)))
  /\ (exists msg,
         LanguageEngine.execute_code_block (host := cpython64) 100 engine_b1 "b2"
                                           (Python.LocalDict ∅)
         = (engine_b1, Python.LocalDict ∅, Raise (LanguageEngineException msg)))
  /\ LanguageEngine.unregister_code_block engine_b1 "b2" = engine_b1.
Proof.
  pose proof (registry_usage_errors (host := cpython64) 100 engine_b1 "b1" "x = 6"
                (Python.LocalDict ∅)) as (Hreg & _).
  pose proof (registry_usage_errors (host := cpython64) 100 engine_b1 "b2" "x = 6"
                (Python.LocalDict ∅)) as (_ & Hexec & _ & _ & Hunreg).
  split; [| split].
  - apply Hreg. vm_compute. eexists. reflexivity.
  - apply Hexec. vm_compute. reflexivity.
  - apply Hunreg. vm_compute. reflexivity.
Defined.

(* ===================================================================== *)
(** * The constant folder                                                  *)
(* ===================================================================== *)

Section FolderFacts.
Context {host : PyHost}.
Import CodeBlock.

Lemma signature_nonempty (op : string) (sig : list string) :
  dict_get OPERATOR_FUNCTIONS op = Some sig -> (1 <= length sig)%nat.
Proof.
  unfold OPERATOR_FUNCTIONS. simpl.
  repeat (case_decide; [intros [= <-]; simpl; lia |]).
  discriminate.
Qed.

Lemma of_host_returns {A : Type} (r : exn + A) : of_host r <> OutOfFuel.
Proof. destruct r; discriminate. Qed.

Lemma operator_call_returns (op : string) (args : list value) :
  operator_call op args <> OutOfFuel.
Proof.
  unfold operator_call, int_result, float_call.
  repeat (case_match; try discriminate; try apply of_host_returns).
Qed.

Lemma mapM_returns {A B : Type} (f : A -> outcome B) (l : list A) :
  (forall a, f a <> OutOfFuel) -> mapM f l <> OutOfFuel.
Proof.
  intros Hf. induction l as [| a l IH]; simpl; [discriminate |].
  unfold mbind, outcome_bind.
  specialize (Hf a). destruct (f a); try congruence.
  destruct (mapM f l); try congruence; discriminate.
Qed.

Lemma reread_returns (a : number) : reread a <> OutOfFuel.
Proof.
  destruct a; simpl; try discriminate.
  unfold float_reparse, mbind, outcome_bind.
  destruct (host_float_reparse f); discriminate.
Qed.

Lemma trunc_float_returns (f : PrimFloat.float) : trunc_float f <> OutOfFuel.
Proof. unfold trunc_float. destruct (FloatOps.Prim2SF f); discriminate. Qed.

Lemma convert_returns (t : numtype) (res : value) : convert t res <> OutOfFuel.
Proof.
  destruct t, res as [[z | z | f] | b |]; simpl; try discriminate;
    unfold mbind, outcome_bind, to_float, int_to_float;
    try (pose proof (trunc_float_returns f); destruct (trunc_float f); congruence);
    destruct (exact_double z); try discriminate;
    destruct (host_int_to_float z); discriminate.
Qed.

Lemma executeOperation_returns (op : string) (args : list number) :
  executeOperation op args <> OutOfFuel.
Proof.
  unfold executeOperation.
  destruct (dict_get OPERATOR_FUNCTIONS op); [| discriminate].
  unfold mbind, outcome_bind.
  pose proof (mapM_returns reread args reread_returns) as Hm.
  destruct (mapM reread args) as [stargs | |]; try congruence; try discriminate.
  pose proof (operator_call_returns op stargs) as Ho.
  destruct (operator_call op stargs) as [res | |]; try congruence; try discriminate.
  destruct res as [n | b |]; try discriminate.
  - pose proof (convert_returns (result_type_of args) (VNum n)) as Hc.
    destruct (convert _ _); congruence.
  - pose proof (convert_returns (result_type_of args) VNone) as Hc.
    destruct (convert _ _); congruence.
Qed.

(** A pass finishes, and a pass that changes the line shortens it. *)
Lemma scan_returns (rest pre : list node) : scan pre rest <> Starved.
Proof.
  revert pre. induction rest as [| x rest IH]; intros pre; cbn [scan]; [discriminate |].
  destruct x as [n | s | l |]; try apply IH.
  destruct (dict_get OPERATOR_FUNCTIONS s) as [sig |].
  - destruct (length sig <=? length pre)%nat; [| apply IH].
    destruct (mapM is_number _) as [operands |]; [| apply IH].
    pose proof (executeOperation_returns s operands) as He.
    destruct (executeOperation s operands); congruence.
  - case_decide; [| apply IH].
    destruct (reverse pre) as [| [n | | |] before]; try apply IH. discriminate.
Qed.

Lemma scan_shortens (rest pre code_line : list node) :
  scan pre rest = Changed code_line ->
  (length code_line < length pre + length rest)%nat.
Proof.
  revert pre. induction rest as [| x rest IH]; intros pre; cbn [scan]; [discriminate |].
  assert (Hnext : scan (pre ++ [x]) rest = Changed code_line ->
                  (length code_line < length pre + S (length rest))%nat).
  { intros H. apply IH in H. rewrite length_app in H. simpl in H. lia. }
  destruct x as [n | s | l |]; try exact Hnext.
  destruct (dict_get OPERATOR_FUNCTIONS s) as [sig |] eqn:Hsig.
  - apply signature_nonempty in Hsig.
    destruct (length sig <=? length pre)%nat eqn:Hlen; [| exact Hnext].
    apply Nat.leb_le in Hlen.
    destruct (mapM is_number _) as [operands |]; [| exact Hnext].
    destruct (executeOperation s operands); try discriminate.
    intros [= <-]. rewrite length_app, length_take. simpl. lia.
  - case_decide; [| exact Hnext].
    destruct (reverse pre) as [| [n | | |] before] eqn:Hrev; try exact Hnext.
    intros [= <-].
    assert (Hpre : length pre = S (length before)).
    { rewrite <- (length_reverse pre), Hrev. reflexivity. }
    rewrite length_app, length_reverse. simpl. lia.
Qed.

Lemma reduce_loop_returns (fuel : nat) (code_line : list node) :
  (length code_line < fuel)%nat -> reduce_loop fuel code_line <> OutOfFuel.
Proof.
  revert code_line. induction fuel as [| fuel IH]; intros code_line Hlen; [lia |].
  simpl. pose proof (scan_returns code_line []) as Hs.
  destruct (scan [] code_line) eqn:Hscan; try discriminate; try congruence.
  apply IH. apply scan_shortens in Hscan. simpl in Hscan. lia.
Qed.

Lemma reduce_loop_fixpoint (fuel : nat) (code_line folded : list node) :
  reduce_loop fuel code_line = Ok folded -> scan [] folded = Unchanged.
Proof.
  revert code_line. induction fuel as [| fuel IH]; intros code_line; simpl;
    [discriminate |].
  destruct (scan [] code_line) eqn:Hscan; try discriminate.
  - now intros [= <-].
  - apply IH.
Qed.

Lemma reduceLine_returns (code_line : list node) : reduceLine code_line <> OutOfFuel.
Proof. apply reduce_loop_returns. lia. Qed.

Lemma reduceLine_idempotent (code_line folded : list node) :
  reduceLine code_line = Ok folded -> reduceLine folded = Ok folded.
Proof.
  intros H. apply reduce_loop_fixpoint in H.
  unfold reduceLine. simpl. now rewrite H.
Qed.

(** Induction over the lists nested in a node. *)
Lemma node_nested_ind (P : node -> Prop) :
  (forall n, P (Num n)) -> (forall s, P (Str s)) ->
  (forall l, Forall P l -> P (Lst l)) -> P NoneObj ->
  forall x, P x.
Proof.
  intros HNum HStr HLst HNone.
  fix IH 1. intros [n | s | l |]; [apply HNum | apply HStr | | apply HNone].
  apply HLst. induction l as [| x l IHl]; constructor; [apply IH | exact IHl].
Qed.

(** The loop over the items of a block settles when the reduction of
    each item does. *)
Lemma reduce_items_settles (f : node -> outcome node) (b : list node) :
  Forall (settles f) b -> settles (reduce_items f) b.
Proof.
  intros Hb.
  assert (H : forall n b, (length b <= n)%nat -> Forall (settles f) b ->
                          settles (reduce_items f) b);
    [| now apply (H (length b))].
  clear b Hb. unfold settles at 2.
  induction n as [| n IH]; intros b Hlen Hb.
  { destruct b; [| simpl in Hlen; lia]. split; [discriminate |].
    now intros b' [= <-]. }
  destruct b as [| code_line rest]; [split; [discriminate | now intros b' [= <-]] |].
  apply Forall_cons in Hb as [Hline Hrest]. cbn [reduce_items].
  destruct (is_tag code_line) as [tag |] eqn:Htag.
  - destruct rest as [| sub rest']; [split; discriminate |].
    apply Forall_cons in Hrest as [[Hsub Hsub'] Hrest'].
    destruct (IH rest') as [Hr Hr']; [simpl in Hlen; lia | exact Hrest' |].
    unfold mbind, outcome_bind.
    destruct (f sub) as [sub' | e |] eqn:Hf; [| split; discriminate | congruence].
    destruct (reduce_items f rest') as [rest'' | e |] eqn:Hrr;
      [| split; discriminate | congruence].
    split; [discriminate |]. intros b' [= <-]. cbn [reduce_items].
    rewrite Htag, (Hsub' sub' eq_refl), (Hr' rest'' eq_refl). reflexivity.
  - destruct (IH rest) as [Hr Hr']; [simpl in Hlen; lia | exact Hrest |].
    unfold mbind, outcome_bind.
    destruct code_line as [x | s | l |].
    3: { pose proof (reduceLine_returns l) as Hl.
         destruct (reduceLine l) as [l' | e |] eqn:Hrl;
           [| split; discriminate | congruence].
         destruct (reduce_items f rest) as [rest'' | e |] eqn:Hrr;
           [| split; discriminate | congruence].
         split; [discriminate |]. intros b' [= <-]. cbn [reduce_items is_tag].
         unfold mbind, outcome_bind.
         now rewrite (reduceLine_idempotent l l' Hrl), (Hr' rest'' eq_refl). }
    all: destruct (reduce_items f rest) as [rest'' | e |] eqn:Hrr;
      [| split; discriminate | congruence].
    all: split; [discriminate |]; intros b' [= <-]; cbn [reduce_items]; rewrite Htag.
    all: unfold mbind, outcome_bind; now rewrite (Hr' rest'' eq_refl).
Qed.

Lemma reduceBlockNode_settles (block : node) : settles reduceBlockNode block.
Proof.
  induction block as [n | s | l IH |] using node_nested_ind; unfold settles.
  - split; discriminate.
  - split; [discriminate | now intros x' [= <-]].
  - cbn [reduceBlockNode]. apply reduce_items_settles in IH as [Hr Hr'].
    unfold mbind, outcome_bind.
    destruct (reduce_items reduceBlockNode l) as [l' | e |] eqn:Hl;
      [| split; discriminate | congruence].
    split; [discriminate |]. intros x' [= <-]. cbn [reduceBlockNode].
    unfold mbind, outcome_bind. now rewrite (Hr' l' eq_refl).
  - split; discriminate.
Qed.

Lemma reduceBlock_settles (block : list node) : settles reduceBlock block.
Proof.
  pose proof (reduceBlockNode_settles (Lst block)) as [Hr Hr'].
  unfold settles, reduceBlock. unfold mbind, outcome_bind.
  destruct (reduceBlockNode (Lst block)) as [r | e |] eqn:Hb;
    [| split; discriminate | congruence].
  specialize (Hr' r eq_refl).
  cbn [reduceBlockNode] in Hb. unfold mbind, outcome_bind in Hb.
  destruct (reduce_items reduceBlockNode block) as [items' | |]; try discriminate.
  injection Hb as <-.
  split; [discriminate |]. intros folded [= <-]. now rewrite Hr'.
Qed.

(** C8: folding comes to an end on every line and on every block (it
    returns the folded form or raises what an operation raised), and
    folding what is already folded gives it back unchanged: for
    [reduceLine] on a statement, and for [reduceBlock] on a block with
    its nested conditional blocks. *)
Theorem folding_terminates_and_is_idempotent (code_line block : list node) :
  reduceLine code_line <> OutOfFuel
  /\ (forall folded, reduceLine code_line = Ok folded -> reduceLine folded = Ok folded)
  /\ reduceBlock block <> OutOfFuel
  /\ (forall folded, reduceBlock block = Ok folded -> reduceBlock folded = Ok folded).
Proof.
  split; [apply reduceLine_returns |].
  split; [apply reduceLine_idempotent |].
  apply reduceBlock_settles.
Qed.

End FolderFacts.

Lemma folding_terminates_and_is_idempotent_witness :
  CodeBlock.reduceLine (host := cpython64) folded_sum = Ok folded_sum
  /\ CodeBlock.reduceBlock (host := cpython64) folded_conditional = Ok folded_conditional.
Proof.
  pose proof (folding_terminates_and_is_idempotent (host := cpython64)
                sum_and_product conditional) as (_ & Hline & _ & Hblock).
  split; [apply Hline | apply Hblock]; vm_compute; reflexivity.
Defined.

(* ===================================================================== *)
(** * Compiling and running a block                                       *)
(* ===================================================================== *)

(** Solve a closed goal about a run on a 32-bit or 64-bit host. *)
Ltac run_on_c_long H :=
  let host := fresh "host" in
  match type of H with
  | @c_long ?h =>
      destruct h; unfold c_long in H; cbn [sys_maxint] in H;
      destruct H as [H | H]; subst; vm_compute; repeat split; reflexivity
  end.

Section RoundTrip.
Context {host : PyHost}.

(** C3: the block [x = 2 + 3 * 4] compiles to one call that updates [x]
    with 14, and running it leaves 14 under [x]; the block
    [x = 2 ^ 3 ^ 2] compiles to an update with 512, the value of
    [2 ^ (3 ^ 2)], and running it leaves 512 under [x]. *)
Theorem precedence_and_right_associative_power :
  c_long host ->
  generated_text "b" "x = 2 + 3 * 4"
    = Ok ["def run(_symbols):"; "  update_symbol(_symbols, 'x', 14)"]
  /\ compile_and_run "b" "x = 2 + 3 * 4" ∅
     = (Ok (), Ok (), Python.LocalDict {["x" := VNum (NInt 14)]})
  /\ generated_text "b" "x = 2 ^ 3 ^ 2"
     = Ok ["def run(_symbols):"; "  update_symbol(_symbols, 'x', 512)"]
  /\ compile_and_run "b" "x = 2 ^ 3 ^ 2" ∅
     = (Ok (), Ok (), Python.LocalDict {["x" := VNum (NInt (2 ^ (3 ^ 2)))]}).
Proof. intros H. run_on_c_long H. Qed.

End RoundTrip.

Lemma c_long_cpython64 : c_long cpython64.
Proof. right. reflexivity. Defined.

Lemma precedence_and_right_associative_power_witness :
  compile_and_run (host := cpython64) "b" "x = 2 + 3 * 4" ∅
    = (Ok (), Ok (), Python.LocalDict {["x" := VNum (NInt 14)]})
  /\ compile_and_run (host := cpython64) "b" "x = 2 ^ 3 ^ 2" ∅
     = (Ok (), Ok (), Python.LocalDict {["x" := VNum (NInt 512)]}).
Proof.
  pose proof (precedence_and_right_associative_power (host := cpython64) c_long_cpython64)
    as (_ & H14 & _ & H512).
  split; [exact H14 | exact H512].
Defined.

(* ===================================================================== *)
(** * Folding and the code generated without it                            *)
(* ===================================================================== *)

Section FoldingSemantics.
Context {host : PyHost}.

(** C2, at the statement [x = 1 / 2]: the code generated from the
    statement as built assigns [operator.truediv(1,2)], the float 0.5; the
    folder replaces the division by [int(0.5)], and the code generated
    from the folded statement assigns 0.  At [x = -(1 < 2)] the code from
    the statement as built drops the minus of a [bool] operand and
    assigns [True], the code from the folded statement assigns -1. *)
Theorem folding_changes_the_assigned_value :
  c_long host ->
  statement_of "x = 1 / 2" = Ok [CodeBlock.Lst half]
  /\ run_statement half
     = Ok (Python.LocalDict
             {["x" := VNum (NFloat (PrimFloat.div (float_of_Z 1) (float_of_Z 2)))]})
  /\ CodeBlock.reduceLine half
     = Ok [CodeBlock.Str "_x"; CodeBlock.Num (NInt 0); CodeBlock.Str "="]
  /\ (folded ← CodeBlock.reduceLine half; run_statement folded)
     = Ok (Python.LocalDict {["x" := VNum (NInt 0)]})
  /\ statement_of "x = -(1 < 2)" = Ok [CodeBlock.Lst minus_comparison]
  /\ run_statement minus_comparison = Ok (Python.LocalDict {["x" := VBool true]})
  /\ (folded ← CodeBlock.reduceLine minus_comparison; run_statement folded)
     = Ok (Python.LocalDict {["x" := VNum (NInt (-1))]}).
Proof. intros H. run_on_c_long H. Qed.

End FoldingSemantics.

Lemma folding_changes_the_assigned_value_witness :
  run_statement (host := cpython64) half
    = Ok (Python.LocalDict
            {["x" := VNum (NFloat (PrimFloat.div (float_of_Z 1) (float_of_Z 2)))]})
  /\ (folded ← CodeBlock.reduceLine (host := cpython64) half;
      run_statement (host := cpython64) folded)
     = Ok (Python.LocalDict {["x" := VNum (NInt 0)]}).
Proof.
  pose proof (folding_changes_the_assigned_value (host := cpython64) c_long_cpython64)
    as (_ & Hbuilt & _ & Hfolded & _).
  split; [exact Hbuilt | exact Hfolded].
Defined.

(* ===================================================================== *)
(** * Calls and their argument counts                                      *)
(* ===================================================================== *)

Section CallChecks.
Context {host : PyHost}.
Import CodeBlock.

(** A call of a name that is not in [functionmap] is fatal. *)
Lemma countFunctionArgs_unknown (cb : CodeBlock.t) (tok : ptok) (toks : list ptok) :
  known cb tok = None ->
  countFunctionArgs cb (tok :: toks)
  = Raise (ParseFatalException ("Unknown function call '" +:+ ptok_str false tok +:+ "'")).
Proof. intros H. unfold countFunctionArgs. now rewrite H. Qed.

(** A call without arguments of a function that declares some is fatal. *)
Lemma countFunctionArgs_no_arguments (cb : CodeBlock.t) (func_name : string)
      (e : func_entry) :
  functionmap cb !! func_name = Some e -> arglist e <> [] ->
  countFunctionArgs cb [PStr func_name]
  = Raise (ParseFatalException
             ("Too few arguments to function " +:+ Python.dquote +:+ func_name
                +:+ Python.dquote)).
Proof.
  intros H Hargs. unfold countFunctionArgs. simpl. rewrite H. simpl.
  destruct (arglist e); [congruence | reflexivity].
Qed.

(** A registration that fails leaves the engine as it was. *)
Lemma register_failure_registers_nothing (eng : LanguageEngine.t)
      (block_name code_string : string) (e : exn) :
  (LanguageEngine.register_code_block eng block_name code_string).2 = Raise e ->
  (LanguageEngine.register_code_block eng block_name code_string).1 = eng.
Proof.
  unfold LanguageEngine.register_code_block.
  destruct (LanguageEngine.code_blocks eng !! block_name); [reflexivity |].
  destruct (_ ← LanguageEngine.wrap_code_block _ _ _; _); simpl;
    [discriminate | reflexivity | reflexivity].
Qed.

Lemma commas_cons (tok : ptok) (toks : list ptok) :
  commas (tok :: toks) = ((if ptok_is tok "," then 1 else 0) + commas toks)%nat.
Proof.
  unfold commas. cbn [filter list_filter]. case_decide as H; rewrite ?H; [reflexivity |].
  now destruct (ptok_is tok ",").
Qed.

Lemma count_args_plain (cb : CodeBlock.t) (func_name : string) (arity : nat)
      (toks : list ptok) (arg_count : nat) :
  arity <> 0%nat -> arg_count <> 0%nat ->
  Forall (fun tok => known cb tok = None) toks ->
  count_args cb func_name arity toks 0 arg_count = Ok (arg_count + commas toks)%nat.
Proof.
  intros Harity Hcount Htoks. revert arg_count Hcount.
  induction Htoks as [| tok toks Htok _ IH]; intros arg_count Hcount.
  - simpl. f_equal. unfold commas. simpl. lia.
  - cbn [count_args]. rewrite Htok, commas_cons.
    destruct (arg_count =? 0)%nat eqn:H0; [apply Nat.eqb_eq in H0; lia |].
    destruct (arity =? 0)%nat eqn:Ha; [apply Nat.eqb_eq in Ha; lia |].
    destruct (ptok_is tok ",").
    + cbn [Nat.ltb Nat.leb]. rewrite IH by lia. f_equal. lia.
    + rewrite IH by lia. reflexivity.
Qed.

(** The arity check is exact when no argument token is the name of a
    function. *)
Lemma countFunctionArgs_plain (cb : CodeBlock.t) (func_name : string) (e : func_entry)
      (toks : list ptok) :
  functionmap cb !! func_name = Some e ->
  Forall (fun tok => known cb tok = None) toks ->
  countFunctionArgs cb (PStr func_name :: toks)
  = if (supplied toks <? length (arglist e))%nat then too_few func_name
    else if (length (arglist e) <? supplied toks)%nat then too_many func_name
    else Ok cb.
Proof.
  intros Hf Htoks. unfold countFunctionArgs. cbn [known ptok_str]. rewrite Hf.
  destruct toks as [| tok toks]; [reflexivity |].
  destruct (length (arglist e)) as [| n] eqn:Hn.
  - cbn [count_args]. reflexivity.
  - assert (Hc : count_args cb func_name (S n) (tok :: toks) 0 0
                 = Ok (supplied (tok :: toks))).
    { apply Forall_cons in Htoks as [Htok Htoks]. cbn [count_args]. rewrite Htok.
      cbn [Nat.eqb]. unfold supplied. rewrite commas_cons.
      destruct (ptok_is tok ",").
      - cbn [Nat.ltb Nat.leb]. rewrite count_args_plain by (try lia; assumption).
        f_equal.
      - rewrite count_args_plain by (try lia; assumption). reflexivity. }
    rewrite Hc. reflexivity.
Qed.

(** The two examples of the arity check. *)
Lemma arity_examples :
  c_long host ->
  LanguageEngine.register_code_block LanguageEngine.init "b" "x = randint()"
  = (LanguageEngine.init,
     Raise (ParseFatalException
              ("Too few arguments to function " +:+ Python.dquote +:+ "randint"
                 +:+ Python.dquote)))
  /\ LanguageEngine.register_code_block LanguageEngine.init "b" "x = foo(1)"
     = (LanguageEngine.init, Raise (ParseFatalException "Unknown function call 'foo'")).
Proof. intros H. run_on_c_long H. Qed.

(** C5: a call of a name that is not in the function table is fatal,
    and a failed registration registers nothing.  The count of the
    arguments is exact when no token among the arguments is the name of a
    function: the call is accepted when it supplies the declared number of
    arguments and is fatal with an argument-count error otherwise.  At
    the block [x = randint(distance, 1)] the call hands two arguments to
    a function that declares one: [countFunctionArgs] takes the name
    [distance] for a nested call, skips the comma after it and accepts
    the call with a count of one; the compilation goes on and fails in
    the code generator with a stack underflow. *)
Theorem comma_after_a_function_name_is_not_counted :
  c_long host ->
  (forall cb tok toks,
      known cb tok = None ->
      countFunctionArgs cb (tok :: toks)
      = Raise (ParseFatalException
                 ("Unknown function call '" +:+ ptok_str false tok +:+ "'")))
  /\ (forall cb func_name e toks,
         functionmap cb !! func_name = Some e ->
         Forall (fun tok => known cb tok = None) toks ->
         countFunctionArgs cb (PStr func_name :: toks)
         = if (supplied toks <? length (arglist e))%nat then too_few func_name
           else if (length (arglist e) <? supplied toks)%nat then too_many func_name
           else Ok cb)
  /\ (forall eng block_name code_string e,
         (LanguageEngine.register_code_block eng block_name code_string).2 = Raise e ->
         (LanguageEngine.register_code_block eng block_name code_string).1 = eng)
  /\ countFunctionArgs fresh_builder
       [PStr "randint"; PStr "distance"; PStr ","; PStr "1"]
     = Ok fresh_builder
  /\ LanguageEngine.register_code_block LanguageEngine.init "b" "x = randint(distance, 1)"
     = (LanguageEngine.init, Raise (CodeBlockException "Stack underflow")).
Proof.
  intros H.
  split; [exact countFunctionArgs_unknown |].
  split; [exact countFunctionArgs_plain |].
  split; [exact register_failure_registers_nothing |].
  run_on_c_long H.
Qed.

End CallChecks.

Lemma comma_after_a_function_name_is_not_counted_witness :
  LanguageEngine.register_code_block (host := cpython64) LanguageEngine.init "b"
                                     "x = randint(distance, 1)"
  = (LanguageEngine.init, Raise (CodeBlockException "Stack underflow")).
Proof.
  exact (proj2 (proj2 (proj2 (proj2
           (comma_after_a_function_name_is_not_counted (host := cpython64)
              c_long_cpython64))))).
Defined.

(* ===================================================================== *)
(** * Executing a registered block                                         *)
(* ===================================================================== *)

Section Execution.
Context {host : PyHost}.
Import LanguageEngine.

Lemma merged_empty (eng : LanguageEngine.t) (block_name : string) :
  merged eng block_name (Python.LocalDict ∅) = local_tables eng.
Proof. reflexivity. Qed.

Lemma merged_holds_the_supplied_symbols (eng : LanguageEngine.t) (block_name : string)
      (d : gmap string value) (symname : string) (v : value) :
  d !! symname = Some v ->
  exists table, merged eng block_name (Python.LocalDict d) !! block_name = Some table
                /\ table !! symname = Some v.
Proof.
  intros Hd. unfold merged. simpl.
  destruct (bool_decide (d = ∅)) eqn:Hempty.
  - apply bool_decide_eq_true in Hempty. subst d. now rewrite lookup_empty in Hd.
  - simpl. eexists. split; [apply lookup_insert_eq |].
    now apply lookup_union_Some_l.
Qed.

Lemma merged_keeps_the_earlier_symbols (eng : LanguageEngine.t) (block_name : string)
      (d earlier : gmap string value) (symname : string) (v : value) :
  local_tables eng !! block_name = Some earlier ->
  earlier !! symname = Some v -> d !! symname = None ->
  exists table, merged eng block_name (Python.LocalDict d) !! block_name = Some table
                /\ table !! symname = Some v.
Proof.
  intros Ht He Hd. unfold merged. simpl.
  destruct (bool_decide (d = ∅)).
  - simpl. eauto.
  - simpl. eexists. split; [apply lookup_insert_eq |].
    rewrite Ht. simpl. rewrite lookup_union_r by exact Hd. exact He.
Qed.




End Execution.



(* ===================================================================== *)
(** * The type tags of the code generator                                  *)
(* ===================================================================== *)

Section TypeTags.
Import CodeBlock Python.
Variable functionmap : gmap string func_entry.
Variable func_name : option string.





(** A call takes its operands from the top of the stack and leaves one
    entry. *)
Lemma push_call_snoc (opcall : string) (func_params : list pyexpr)
      (below params : list operand) :
  push_call func_name opcall (length params) func_params (below ++ params)
  = Ok (below ++ [mkop (result_tag opcall params)
                       (ECall opcall (call_params func_name opcall func_params params))]).
Proof.
  unfold push_call, call_params. rewrite length_app.
  replace (length below + length params <? length params)%nat with false
    by (symmetry; apply Nat.ltb_ge; lia).
  replace (length below + length params - length params)%nat with (length below) by lia.
  rewrite drop_app_length, take_app_length.
  now destruct (named func_name && _).
Qed.






End TypeTags.



(* ===================================================================== *)
(** * The recursion-depth counter                                          *)
(* ===================================================================== *)

Section RecursionGuard.
Context {host : PyHost}.
Import CodeBlock Python.

Lemma userfunc_is_no_operator (opname : string) :
  dict_get OPERATOR_FUNCTIONS ("userfunc_" +:+ opname) = None.
Proof.
  unfold OPERATOR_FUNCTIONS. simpl.
  repeat (case_decide; [discriminate |]). reflexivity.
Qed.

(** A call site: the generated call passes [_symbols], the operands and,
    inside a function body, [count+1]. *)
Lemma call_site (functionmap : gmap string func_entry) (func_name : option string)
      (symbol : option string) (op : string) (entry : func_entry)
      (below params : list operand) :
  let opname := if SYMBOL_RE_match op then drop1 op else op in
  dict_get OPERATOR_FUNCTIONS opname = None ->
  functionmap !! opname = Some entry ->
  length (arglist entry) = length params ->
  assemble functionmap func_name symbol [Str op] (below ++ params)
  = Ok (below ++ [mkop (result_tag ("userfunc_" +:+ opname) params)
                       (ECall ("userfunc_" +:+ opname)
                              (ESymbols :: map val params
                                 ++ if named func_name then [ECountSucc] else []))]).
Proof.
  intros opname Hop Hfun Hlen. cbn [assemble]. fold opname.
  rewrite Hop, Hfun, Hlen, push_call_snoc. unfold call_params.
  rewrite userfunc_is_no_operator. simpl.
  destruct (named func_name); simpl; [reflexivity | now rewrite app_nil_r].
Qed.

(** The binding of [count]: the default 0 when the call passes the
    declared arguments only, the extra last argument otherwise. *)
Lemma call_binds_count (fuel : nat) (m : module) (f : compiled_function) (s : state)
      (args : list value) (extra : list value) :
  length args = length (cf_params f) -> (length extra <= 1)%nat ->
  let count := default (VNum (NInt 0)) (head extra) in
  call (S fuel) m f s (args ++ extra)
  = match exec fuel m (mkframe (zip (cf_params f) args) (Some count))
                (mkstate (tables s) (entered s ++ [count])) (cf_body f) with
    | (s1, Ok (Returned v)) => (s1, Ok v)
    | (s1, Ok Normal) => (s1, Ok VNone)
    | (s1, Raise x) => (s1, Raise x)
    | (s1, OutOfFuel) => (s1, OutOfFuel)
    end.
Proof.
  intros Hlen Hextra count. cbn [call]. rewrite length_app, <- Hlen.
  replace (length args + length extra <? length args)%nat with false
    by (symmetry; apply Nat.ltb_ge; lia).
  replace (S (length args) <? length args + length extra)%nat with false
    by (symmetry; apply Nat.ltb_ge; lia).
  simpl. rewrite take_app_length.
  replace (default (VNum (NInt 0)) ((args ++ extra) !! length args)) with count;
    [reflexivity |].
  subst count. rewrite lookup_app_r by lia. rewrite Nat.sub_diag.
  now destruct extra.
Qed.

(** The preamble: it raises exactly when [count] is above 100, and then
    nothing of the body runs.  What it raises is the value of the
    expression [CodeBlockRuntimeError(...)] in the frame. *)
Lemma guard_raises_exactly_above_the_ceiling
      (fuel : nat) (m : module) (fr : frame) (s : state) (function_name : string)
      (dead orelse rest : list stmt) (c : Z) :
  fr_count fr = Some (VNum (NInt c)) ->
  exec (S (S fuel)) m fr s
       (SIf (ECountAbove 100) (SRaise function_name :: dead) orelse :: rest)
  = if c >? 100 then
      (s, Raise (match local fr "CodeBlockRuntimeError" with
                 | Some _ => TypeError
                 | None => if imported m then depth_exceeded function_name
                           else NameError
                 end))
    else match exec (S fuel) m fr s orelse with
         | (s2, Ok Normal) => exec (S fuel) m fr s2 rest
         | r => r
         end.
Proof.
  intros Hc. cbn [exec eval]. unfold count_of. rewrite Hc. simpl.
  destruct (c >? 100); [| reflexivity]. cbn [exec]. unfold binding_of.
  destruct (local fr "CodeBlockRuntimeError"); [reflexivity |].
  destruct (imported m); reflexivity.
Qed.

(** The parameters of a call are the local variables of its frame. *)
Lemma local_zip (params : list string) (args : list value) (name : string) (count : option value) :
  length args = length params ->
  (name ∈ params -> exists v, local (mkframe (zip params args) count) name = Some v)
  /\ (name ∉ params -> local (mkframe (zip params args) count) name = None).
Proof.
  intros Hlen. unfold local. cbn [fr_params]. split.
  - intros Hin.
    destruct (list_find (fun p : string * value => p.1 = name) (zip params args))
      as [[i [k v]] |] eqn:Hfind; [now exists v |].
    exfalso. apply list_find_None in Hfind.
    apply list_elem_of_lookup in Hin as [i Hi].
    destruct (lookup_lt_is_Some_2 args i) as [v Hv];
      [rewrite Hlen; now apply lookup_lt_Some in Hi |].
    assert (Hz : zip params args !! i = Some (name, v))
      by (apply lookup_zip_with_Some; eauto).
    apply list_elem_of_lookup_2 in Hz.
    rewrite List.Forall_forall in Hfind.
    apply (Hfind (name, v)); [now apply list_elem_of_In | reflexivity].
  - intros Hnot.
    destruct (list_find (fun p : string * value => p.1 = name) (zip params args))
      as [[i [k v]] |] eqn:Hfind; [| reflexivity].
    exfalso. apply list_find_Some in Hfind as (Hz & Hk & _). cbn in Hk. subst k.
    apply lookup_zip_with_Some in Hz as (x & y & [= <- <-] & Hx & _).
    apply Hnot. now apply list_elem_of_lookup_2 in Hx.
Qed.

End RecursionGuard.

Section Preamble.
Context {host : PyHost}.
Import CodeBlock Python.

Lemma parse_suite_S (fuel col : nat) (l : pyline) (rest : list pyline) :
  parse_suite (S fuel) col (l :: rest)
  = if (indent l <? col)%nat then Ok ([], l :: rest)
    else if (col <? indent l)%nat then Raise SyntaxError
    else
      '(st, rest1) ←
        match body l with
        | LCond py_cond_name test =>
            if decide (py_cond_name = "if") then
              if expression test then parse_if fuel col test rest
              else Raise SyntaxError
            else Raise SyntaxError
        | b => st ← simple_stmt b; Ok (st, rest)
        end;
      '(more, rest2) ← parse_suite fuel col rest1;
      Ok (st :: more, rest2).
Proof. reflexivity. Qed.

Lemma parse_if_S (fuel col : nat) (test : pyexpr) (lines : list pyline) :
  parse_if (S fuel) col test lines
  = '(suite, rest) ← parse_body fuel col lines;
    match rest with
    | l :: rest' =>
        if (indent l =? col)%nat then
          match body l with
          | LCond py_cond_name test' =>
              if decide (py_cond_name = "elif") then
                if expression test' then
                  '(st, rest2) ← parse_if fuel col test' rest';
                  Ok (SIf test suite [st], rest2)
                else Raise SyntaxError
              else Ok (SIf test suite [], rest)
          | LElse py_cond_name =>
              if decide (py_cond_name = "else") then
                '(orelse, rest2) ← parse_body fuel col rest';
                Ok (SIf test suite orelse, rest2)
              else Ok (SIf test suite [], rest)
          | _ => Ok (SIf test suite [], rest)
          end
        else Ok (SIf test suite [], rest)
    | [] => Ok (SIf test suite [], rest)
    end.
Proof. reflexivity. Qed.

Lemma parse_body_S (fuel col : nat) (l : pyline) (rest : list pyline) :
  parse_body (S fuel) col (l :: rest)
  = if (col <? indent l)%nat then parse_suite fuel (indent l) (l :: rest)
    else Raise SyntaxError.
Proof. reflexivity. Qed.

Lemma bind_Ok {A B : Type} (m : outcome A) (k : A -> outcome B) (b : B) :
  m ≫= k = Ok b -> exists a, m = Ok a /\ k a = Ok b.
Proof. destruct m; try discriminate. intros H. eauto. Qed.

Lemma parse_guard (fuel : nat) (function_name : string) (tail : list pyline)
      (stmts : list stmt) (rest : list pyline) :
  parse_body (S (S (S (S (S fuel))))) 0
             (mkline 2 (LCond "if" (ECountAbove 100))
                :: mkline 4 (LRaise function_name) :: tail)
  = Ok (stmts, rest) ->
  exists dead orelse more,
    stmts = SIf (ECountAbove 100) (SRaise function_name :: dead) orelse :: more.
Proof.
  rewrite parse_body_S. cbn [indent Nat.ltb Nat.leb].
  rewrite parse_suite_S. cbn [indent body Nat.ltb Nat.leb expression].
  destruct (decide ("if" = "if")) as [_ | Hne]; [| congruence].
  intros H. apply bind_Ok in H as ([st rest1] & Hif & H).
  apply bind_Ok in H as ([more rest2] & _ & [= <- <-]).
  assert (Hst : exists dead orelse,
             st = SIf (ECountAbove 100) (SRaise function_name :: dead) orelse);
    [| destruct Hst as (dead & orelse & ->); eauto].
  clear -Hif. rewrite parse_if_S in Hif.
  apply bind_Ok in Hif as ([suite after] & Hbody & Hif).
  rewrite parse_body_S in Hbody. cbn [indent Nat.ltb Nat.leb] in Hbody.
  rewrite parse_suite_S in Hbody. cbn [indent body Nat.ltb Nat.leb simple_stmt] in Hbody.
  apply bind_Ok in Hbody as ([st0 after0] & [= <- <-] & Hbody).
  apply bind_Ok in Hbody as ([dead after1] & _ & [= <- <-]).
  exists dead.
  destruct after1 as [| l after']; [injection Hif as <- _; eauto |].
  destruct (indent l =? 2)%nat; [| injection Hif as <- _; eauto].
  destruct (body l) as [e | kw test' | kw | | | |];
    try (injection Hif as <- _; eauto).
  - destruct (decide (kw = "elif")); [| injection Hif as <- _; eauto].
    destruct (expression test'); [| discriminate].
    apply bind_Ok in Hif as ([st1 rest3] & _ & [= <- _]). eauto.
  - destruct (decide (kw = "else")); [| injection Hif as <- _; eauto].
    apply bind_Ok in Hif as ([orelse rest3] & _ & [= <- _]). eauto.
Qed.

Lemma compile_def_guard (header : linebody) (function_name : string)
      (tail : list pyline) (defname : option string) (code : compiled_function) :
  compile_def (mkline 0 header
                 :: mkline 2 (LCond "if" (ECountAbove 100))
                 :: mkline 4 (LRaise function_name) :: tail)
  = Ok (defname, code) ->
  guarded function_name code.
Proof.
  unfold compile_def.
  replace (3 * S (length (mkline 2 (LCond "if" (ECountAbove 100))
                            :: mkline 4 (LRaise function_name) :: tail)))%nat
    with (S (S (S (S (S (3 * length tail + 4)))))) by (simpl; lia).
  intros H. apply bind_Ok in H as ([defname' params] & _ & H).
  apply bind_Ok in H as ([stmts after] & Hparse & H).
  apply parse_guard in Hparse as (dead & orelse & more & ->).
  destruct after; [| discriminate]. injection H as _ <-.
  exists dead, orelse, more. reflexivity.
Qed.

(** The parameters of a compiled [def] are the names of its header
    before [count=0]. *)
Lemma compile_def_params (function_name : string) (names : list string)
      (suite : list pyline) (defname : option string) (code : compiled_function) :
  compile_def (mkline 0 (LDef function_name (names ++ ["count=0"])) :: suite)
  = Ok (defname, code) ->
  cf_params code = names.
Proof.
  unfold compile_def. rewrite reverse_app.
  change (reverse ["count=0"]) with ["count=0"]. cbn [app].
  rewrite reverse_involutive.
  intros H. apply bind_Ok in H as ([defname' params] & Hhead & H).
  destruct (_ && _) in Hhead; [| discriminate]. injection Hhead as <- <-.
  apply bind_Ok in H as ([stmts after] & _ & H).
  destruct after; [| discriminate]. now injection H as _ <-.
Qed.

(** Every function that [pushFuncBlock] compiles opens with the guard and
    takes the declared parameters. *)
Lemma pushFuncBlock_guard (cb cb' : CodeBlock.t) (toks : list ptok) (f : string) :
  pushFuncBlock cb toks = Ok cb' -> function_name cb = Some f ->
  exists e code,
    functionmap cb' !! f = Some e /\ compiled e = Some code /\ guarded f code
    /\ cf_params code = map arg_name (arglist e).
Proof.
  unfold pushFuncBlock. intros H Hname.
  apply bind_Ok in H as (body0 & _ & H).
  apply bind_Ok in H as (body1 & _ & H).
  apply bind_Ok in H as (cb1 & Hcb1 & H).
  assert (Hname1 : function_name cb1 = Some f).
  { destruct (CodeBlock.frame cb) as [| g]; [injection Hcb1 as <-; exact Hname |].
    destruct (functionmap cb !! g); [| discriminate].
    injection Hcb1 as <-. exact Hname. }
  rewrite Hname1 in H.
  destruct (functionmap cb1 !! f) as [e |]; [| discriminate].
  apply bind_Ok in H as (function_body & _ & H).
  apply bind_Ok in H as ([defname code] & Hcompile & [= <-]).
  exists (set_compiled e code), code. cbn [functionmap].
  split; [apply lookup_insert_eq |]. split; [reflexivity |].
  cbn [app] in Hcompile.
  destruct (last _) as [l |] in Hcompile;
    [destruct (RETURN_RE_match _) in Hcompile |];
    cbn [app] in Hcompile;
    (split; [eapply compile_def_guard; exact Hcompile
            | cbn [set_compiled arglist]; eapply compile_def_params; exact Hcompile]).
Qed.
End Preamble.

(** ** Call sites: from the generator to the loaded module *)

Section CallSiteFacts.
Import Python CodeBlock.

Lemma strip_prefix_app (p s : string) : strip_prefix p (p +:+ s) = Some s.
Proof.
  induction p as [| a p IH]; simpl; [now destruct s |].
  destruct (decide (a = a)); [exact IH | congruence].
Qed.

Lemma strip_prefix_Some (p s g : string) : strip_prefix p s = Some g -> s = p +:+ g.
Proof.
  revert s. induction p as [| a p IH]; intros s; simpl.
  - destruct s; now intros [= <-].
  - destruct s as [| b s]; [discriminate |].
    destruct (decide (a = b)) as [<- |]; [| discriminate].
    intros H. apply IH in H. now rewrite H.
Qed.

Lemma arity_in_userfunc (fm : gmap string func_entry) (g : string) (e : func_entry) :
  fm !! g = Some e -> arity_in fm ("userfunc_" +:+ g) = Some (length (arglist e)).
Proof.
  intros H. unfold arity_in. rewrite strip_prefix_app. simpl. now rewrite H.
Qed.

Lemma arity_in_extends (fm fm' : gmap string func_entry) (opcall : string) (n : nat) :
  extends fm fm' -> arity_in fm opcall = Some n -> arity_in fm' opcall = Some n.
Proof.
  intros Hext. unfold arity_in.
  destruct (strip_prefix "userfunc_" opcall) as [g |]; [| discriminate]. simpl.
  destruct (fm !! g) as [e |] eqn:He; [| discriminate]. simpl. intros [= <-].
  destruct (Hext g e He) as (e' & He' & Harg). rewrite He'. simpl. now rewrite Harg.
Qed.

(** Induction over the argument lists nested in an expression. *)
Lemma pyexpr_nested_ind (P : pyexpr -> Prop) :
  (forall n, P (ELit n)) ->
  (forall opcall ps, Forall P ps -> P (ECall opcall ps)) ->
  P ESymbols -> P ECountSucc ->
  (forall e, P e -> P (ENeg e)) ->
  (forall a opname b, P a -> P b -> P (EBool a opname b)) ->
  (forall opname, P (EGet opname)) -> (forall opname, P (EName opname)) ->
  (forall symbol e, P e -> P (EUpdate symbol e)) ->
  (forall e, P e -> P (EReturn e)) ->
  (forall limit, P (ECountAbove limit)) ->
  forall e, P e.
Proof.
  intros HLit HCall HSym HSucc HNeg HBool HGet HName HUpd HRet HAbove.
  fix IH 1. intros [n | opcall ps | | | e | a opname b | opname | opname | symbol e | e | limit].
  - apply HLit.
  - apply HCall. induction ps as [| p ps IHps]; constructor; [apply IH | exact IHps].
  - apply HSym.
  - apply HSucc.
  - apply HNeg, IH.
  - apply HBool; apply IH.
  - apply HGet.
  - apply HName.
  - apply HUpd, IH.
  - apply HRet, IH.
  - apply HAbove.
Qed.

(** Call sites checked strictly against an arity table stay well-formed
    against a table that extends it. *)
Lemma site_ok_extends (arity arity' : string -> option nat) (infn : bool) (e : pyexpr) :
  (forall o n, arity o = Some n -> arity' o = Some n) ->
  site_ok true arity infn e = true -> site_ok true arity' infn e = true.
Proof.
  intros Har. induction e as [| opcall ps IH | | | | | | | | |] using pyexpr_nested_ind;
    cbn [site_ok]; try tauto.
  - intros Hc. apply andb_prop in Hc as [Hps Hshape]. apply andb_true_intro. split.
    + apply forallb_forall. intros p Hp.
      rewrite forallb_forall in Hps. rewrite List.Forall_forall in IH. auto.
    + destruct ps as [| [] qs]; try reflexivity.
      destruct (arity opcall) as [n |] eqn:Hn; [| discriminate].
      now rewrite (Har _ _ Hn).
  - intros H. apply andb_prop in H as [Ha Hb]. apply andb_true_intro. auto.
Qed.

(** They are well-formed against any table that, where it is defined,
    agrees with the first. *)
Lemma site_ok_lax (arity arity' : string -> option nat) (infn : bool) (e : pyexpr) :
  (forall o n, arity' o = Some n -> arity o = Some n) ->
  site_ok true arity infn e = true -> site_ok false arity' infn e = true.
Proof.
  intros Har. induction e as [| opcall ps IH | | | | | | | | |] using pyexpr_nested_ind;
    cbn [site_ok]; try tauto.
  - intros Hc. apply andb_prop in Hc as [Hps Hshape]. apply andb_true_intro. split.
    + apply forallb_forall. intros p Hp.
      rewrite forallb_forall in Hps. rewrite List.Forall_forall in IH. auto.
    + destruct ps as [| [] qs]; try reflexivity.
      destruct (arity' opcall) as [n |] eqn:Hn; [| reflexivity].
      now rewrite (Har _ _ Hn) in Hshape.
  - intros H. apply andb_prop in H as [Ha Hb]. apply andb_true_intro. auto.
Qed.

(** Induction over the suites nested in a statement. *)
Lemma stmt_nested_ind (P : stmt -> Prop) :
  (forall e, P (SExpr e)) -> (forall e, P (SReturn e)) ->
  (forall function_name, P (SRaise function_name)) ->
  (forall test body orelse, Forall P body -> Forall P orelse -> P (SIf test body orelse)) ->
  forall st, P st.
Proof.
  intros HExpr HRet HRaise HIf.
  fix IH 1. intros [e | e | function_name | test body orelse].
  - apply HExpr.
  - apply HRet.
  - apply HRaise.
  - apply HIf.
    + induction body as [| st body IHb]; constructor; [apply IH | exact IHb].
    + induction orelse as [| st orelse IHo]; constructor; [apply IH | exact IHo].
Qed.

Lemma forallb_impl {A : Type} (f g : A -> bool) (l : list A) :
  Forall (fun x => f x = true -> g x = true) l ->
  forallb f l = true -> forallb g l = true.
Proof.
  induction 1 as [| x l Hx _ IH]; simpl; [reflexivity |].
  intros H. apply andb_prop in H as [H1 H2]. apply andb_true_intro. auto.
Qed.

Lemma stmt_ok_extends (arity arity' : string -> option nat) (infn : bool) (st : stmt) :
  (forall o n, arity o = Some n -> arity' o = Some n) ->
  stmt_ok true arity infn st = true -> stmt_ok true arity' infn st = true.
Proof.
  intros Har. induction st as [| | | test body orelse IHb IHo] using stmt_nested_ind;
    cbn [stmt_ok]; try apply site_ok_extends; try tauto; try exact Har.
  intros H. apply andb_prop in H as [H Ho]. apply andb_prop in H as [Ht Hb].
  repeat (apply andb_true_intro; split).
  - now apply (site_ok_extends arity).
  - now apply (forallb_impl _ _ _ IHb).
  - now apply (forallb_impl _ _ _ IHo).
Qed.

Lemma stmt_ok_lax (arity arity' : string -> option nat) (infn : bool) (st : stmt) :
  (forall o n, arity' o = Some n -> arity o = Some n) ->
  stmt_ok true arity infn st = true -> stmt_ok false arity' infn st = true.
Proof.
  intros Har. induction st as [| | | test body orelse IHb IHo] using stmt_nested_ind;
    cbn [stmt_ok]; try apply site_ok_lax; try tauto; try exact Har.
  intros H. apply andb_prop in H as [H Ho]. apply andb_prop in H as [Ht Hb].
  repeat (apply andb_true_intro; split).
  - now apply (site_ok_lax arity).
  - now apply (forallb_impl _ _ _ IHb).
  - now apply (forallb_impl _ _ _ IHo).
Qed.

End CallSiteFacts.

Section Assembly.
Context {host : PyHost}.
Import Python CodeBlock.
Variable functionmap : gmap string func_entry.
Variable func_name : option string.

Abbreviation ok := (operand_ok (arity_in functionmap) (named func_name)).
Abbreviation site := (site_ok true (arity_in functionmap) (named func_name)).

Lemma forallb_vals (arity : string -> option nat) (infn : bool) (params : list operand) :
  forallb (operand_ok arity infn) params = true ->
  forallb (site_ok true arity infn) (map val params) = true.
Proof.
  induction params as [| o params IH]; simpl; [reflexivity |].
  intros H. apply andb_prop in H as [Ho Hp]. apply andb_prop in Ho as [Ho _].
  rewrite Ho. simpl. auto.
Qed.

(** A call of an operator. *)
Lemma operator_site (opname : string) (sig : list string) (op_stack st' : list operand) :
  dict_get OPERATOR_FUNCTIONS opname = Some sig ->
  forallb ok op_stack = true ->
  push_call func_name opname (length sig) [] op_stack = Ok st' ->
  forallb ok st' = true.
Proof.
  intros Hsig Hst. unfold push_call. destruct (_ <? _)%nat; [discriminate |].
  rewrite Hsig. simpl. rewrite andb_false_r. intros [= <-].
  rewrite forallb_app. apply andb_true_intro. split.
  - rewrite <- (take_drop (length op_stack - length sig) op_stack), forallb_app in Hst.
    now apply andb_prop in Hst as [Ht _].
  - simpl. rewrite andb_true_r. unfold operand_ok. cbn [val site_ok is_symbols].
    rewrite andb_true_r.
    assert (Hd : forallb ok (drop (length op_stack - length sig) op_stack) = true).
    { rewrite <- (take_drop (length op_stack - length sig) op_stack), forallb_app in Hst.
      now apply andb_prop in Hst as [_ Hd]. }
    rewrite (forallb_vals _ _ _ Hd). simpl.
    destruct (drop _ op_stack) as [| o params]; [reflexivity |]. simpl.
    simpl in Hd. apply andb_prop in Hd as [Ho _]. apply andb_prop in Ho as [_ Ho].
    now destruct (val o).
Qed.

(** A call of a function of [functionmap]. *)
Lemma function_site (opname : string) (entry : func_entry) (op_stack st' : list operand) :
  functionmap !! opname = Some entry ->
  forallb ok op_stack = true ->
  push_call func_name ("userfunc_" +:+ opname) (length (arglist entry)) [ESymbols] op_stack
  = Ok st' ->
  forallb ok st' = true.
Proof.
  intros Hfun Hst. unfold push_call.
  destruct (_ <? _)%nat eqn:Hlen; [discriminate |]. apply Nat.ltb_ge in Hlen.
  rewrite userfunc_is_no_operator. simpl. rewrite andb_true_r. intros [= <-].
  set (id_start := (length op_stack - length (arglist entry))%nat).
  assert (Hd : forallb ok (drop id_start op_stack) = true
               /\ forallb ok (take id_start op_stack) = true).
  { rewrite <- (take_drop id_start op_stack), forallb_app in Hst.
    apply andb_prop in Hst as [Ht Hd]. now split. }
  destruct Hd as [Hd Ht].
  assert (Hn : length (drop id_start op_stack) = length (arglist entry))
    by (rewrite length_drop; unfold id_start; lia).
  rewrite forallb_app. apply andb_true_intro. split; [exact Ht |].
  simpl. rewrite andb_true_r. unfold operand_ok. cbn [val is_symbols].
  rewrite andb_true_r. cbn [site_ok].
  rewrite (arity_in_userfunc _ _ _ Hfun).
  destruct (named func_name); cbn [app forallb site_ok].
  - rewrite forallb_app, (forallb_vals _ _ _ Hd). simpl.
    unfold counted. rewrite length_app, length_map, Hn. simpl.
    replace (length (arglist entry) + 1 =? S (length (arglist entry)))%nat with true
      by (symmetry; apply Nat.eqb_eq; lia).
    simpl. now rewrite last_snoc.
  - rewrite (forallb_vals _ _ _ Hd). simpl.
    rewrite length_map, Hn. apply Nat.eqb_refl.
Qed.

Lemma snoc_ok (arity : string -> option nat) (infn : bool)
      (op_stack : list operand) (o : operand) :
  forallb (operand_ok arity infn) op_stack = true -> operand_ok arity infn o = true ->
  forallb (operand_ok arity infn) (op_stack ++ [o]) = true.
Proof. intros H Ho. rewrite forallb_app, H. simpl. now rewrite Ho. Qed.

Lemma forallb_reverse {A : Type} (f : A -> bool) (l : list A) :
  forallb f (reverse l) = forallb f l.
Proof.
  induction l as [| x l IH]; [reflexivity |].
  rewrite reverse_cons, forallb_app, IH. simpl. rewrite andb_true_r. apply andb_comm.
Qed.

Lemma wrap_last_ok (wrap : pyexpr -> pyexpr) (op_stack st' : list operand) :
  (forall e, site e = true -> site (wrap e) = true) ->
  (forall e, is_symbols (wrap e) = false) ->
  forallb ok op_stack = true -> wrap_last wrap op_stack = Ok st' ->
  forallb ok st' = true.
Proof.
  intros Hw Hs Hst. unfold wrap_last.
  destruct (reverse op_stack) as [| top below] eqn:Hrev; [discriminate |].
  intros [= <-]. rewrite <- forallb_reverse, Hrev in Hst. simpl in Hst.
  apply andb_prop in Hst as [Htop Hbelow]. apply andb_prop in Htop as [Htop _].
  apply snoc_ok; [now rewrite forallb_reverse |].
  unfold operand_ok. simpl. now rewrite Hw, Hs.
Qed.

(** The call sites of every entry of the stack are well-formed, at every
    point of the assembly of a line. *)
Lemma assemble_ok (symbol : option string) (ops : list node)
      (op_stack st' : list operand) :
  forallb ok op_stack = true ->
  assemble functionmap func_name symbol ops op_stack = Ok st' ->
  forallb ok st' = true.
Proof.
  revert op_stack. induction ops as [| op ops IH]; intros op_stack Hst H;
    cbn [assemble] in H; [now injection H as <- |].
  destruct op as [[z | z | f] | s | l |]; try discriminate.
  - apply IH in H; [exact H | now apply snoc_ok].
  - apply IH in H; [exact H | now apply snoc_ok].
  - set (opname := if SYMBOL_RE_match s then drop1 s else s) in H.
    destruct (dict_get OPERATOR_FUNCTIONS opname) as [sig |] eqn:Hsig.
    { destruct (push_call _ _ _ _ _) as [st1 | |] eqn:Hp; try discriminate.
      apply (IH st1); [| exact H]. eapply operator_site; eauto. }
    destruct (functionmap !! opname) as [entry |] eqn:Hfun.
    { destruct (push_call _ _ _ _ _) as [st1 | |] eqn:Hp; try discriminate.
      apply (IH st1); [| exact H]. eapply function_site; eauto. }
    destruct (decide (opname = "unary -")).
    { destruct (reverse op_stack) as [| top below] eqn:Hrev; [now apply (IH op_stack) |].
      destruct (str_in (type top) ["int"; "float"]); [| now apply (IH op_stack)].
      apply IH in H; [exact H |].
      rewrite <- forallb_reverse, Hrev in Hst. simpl in Hst.
      apply andb_prop in Hst as [Htop Hbelow]. apply andb_prop in Htop as [Htop _].
      apply snoc_ok; [now rewrite forallb_reverse |].
      unfold operand_ok. simpl. now rewrite Htop. }
    destruct (str_in opname ["and"; "or"]).
    { destruct (_ <? _)%nat; [discriminate |].
      destruct (drop _ op_stack) as [| p0 [| p1 [| ? ?]]] eqn:Hd; try discriminate.
      apply IH in H; [exact H |].
      rewrite <- (take_drop (length op_stack - 2) op_stack), forallb_app, Hd in Hst.
      apply andb_prop in Hst as [Ht Hp]. simpl in Hp.
      apply andb_prop in Hp as [H0 Hp]. apply andb_prop in Hp as [H1 _].
      apply andb_prop in H0 as [H0 _]. apply andb_prop in H1 as [H1 _].
      apply snoc_ok; [exact Ht |]. unfold operand_ok. simpl. now rewrite H0, H1. }
    destruct (decide (opname = "=")); [now apply wrap_last_ok in H |].
    destruct (decide (opname = "return")); [now apply wrap_last_ok in H |].
    destruct (named func_name).
    + destruct (functionmap !! default "" func_name) as [entry |]; [| discriminate].
      destruct (str_in opname _); (apply IH in H; [exact H | now apply snoc_ok]).
    + apply IH in H; [exact H | now apply snoc_ok].
Qed.

(** The expression of a generated line. *)
Lemma assembled_ok (code_line : node) (e : pyexpr) :
  assembled functionmap func_name code_line = Ok e -> site e = true.
Proof.
  unfold assembled. intros H.
  apply bind_Ok in H as (items & _ & H).
  apply bind_Ok in H as ([symbol ops] & _ & H).
  apply bind_Ok in H as (op_stack & Hasm & H).
  apply assemble_ok in Hasm; [| reflexivity].
  destruct (1 <? length op_stack)%nat; [discriminate |].
  destruct (last op_stack) as [top |] eqn:Hlast; [| discriminate].
  injection H as <-.
  apply last_Some in Hlast as [below ->].
  rewrite forallb_app in Hasm. apply andb_prop in Hasm as [_ Htop].
  simpl in Htop. rewrite andb_true_r in Htop. now apply andb_prop in Htop as [Htop _].
Qed.

End Assembly.

Section GeneratedLines.
Context {host : PyHost}.
Import Python CodeBlock.
Variable functionmap : gmap string func_entry.
Variable func_name : option string.

Abbreviation lines_ok :=
  (forallb (line_ok true (arity_in functionmap) (named func_name))).

Lemma toPythonLine_ok (code_line : node) (col : nat) (l : pyline) :
  toPythonLine functionmap func_name code_line col = Ok l -> lines_ok [l] = true.
Proof.
  unfold toPythonLine. intros H. apply bind_Ok in H as (e & He & [= <-]).
  simpl. unfold line_ok. simpl. rewrite andb_true_r. eapply assembled_ok; eauto.
Qed.

Lemma mapM_lines_ok (f : ascii -> outcome pyline) (cs : list ascii) (lines : list pyline) :
  (forall c l, f c = Ok l -> lines_ok [l] = true) ->
  mapM f cs = Ok lines -> lines_ok lines = true.
Proof.
  intros Hf. revert lines. induction cs as [| c cs IH]; intros lines; simpl.
  - now intros [= <-].
  - intros H. apply bind_Ok in H as (l & Hl & H).
    apply bind_Ok in H as (ls & Hls & [= <-]).
    apply Hf in Hl. simpl in Hl |- *. rewrite andb_true_r in Hl. rewrite Hl. simpl. auto.
Qed.

Lemma block_lines_ok
      (sub_lines : bool -> node -> nat -> outcome (list pyline)) (col : nat)
      (b : list node) (lines : list pyline) :
  Forall (fun sub => forall skip col lines,
                       sub_lines skip sub col = Ok lines -> lines_ok lines = true) b ->
  block_lines functionmap func_name sub_lines col b = Ok lines ->
  lines_ok lines = true.
Proof.
  intros Hb.
  assert (H : forall n b lines, (length b <= n)%nat ->
              Forall (fun sub => forall skip col lines,
                                   sub_lines skip sub col = Ok lines ->
                                   lines_ok lines = true) b ->
              block_lines functionmap func_name sub_lines col b = Ok lines ->
              lines_ok lines = true);
    [| now apply (H (length b))].
  clear b lines Hb. induction n as [| n IH]; intros b lines Hlen Hb.
  { destruct b; [| simpl in Hlen; lia]. now intros [= <-]. }
  destruct b as [| code_line rest]; [now intros [= <-] |].
  apply Forall_cons in Hb as [_ Hrest]. cbn [block_lines].
  destruct (is_tag code_line) as [tag |].
  - destruct rest as [| sub rest']; [discriminate |].
    apply Forall_cons in Hrest as [Hsub Hrest'].
    intros H. apply bind_Ok in H as (conditional_code & Hcond & H).
    apply bind_Ok in H as (inner & Hinner & H).
    apply bind_Ok in H as (more & Hmore & [= <-]).
    apply bind_Ok in Hcond as (first & _ & Hcond). apply assembled_ok in Hcond.
    apply Hsub in Hinner. apply IH in Hmore; [| simpl in Hlen; lia | exact Hrest'].
    cbn [forallb]. rewrite forallb_app, Hinner, Hmore.
    destruct (str_in _ _); unfold line_ok; simpl; [now rewrite Hcond | reflexivity].
  - intros H. apply bind_Ok in H as (l & Hl & H).
    apply bind_Ok in H as (more & Hmore & [= <-]).
    apply toPythonLine_ok in Hl. apply IH in Hmore; [| simpl in Hlen; lia | exact Hrest].
    simpl in Hl |- *. rewrite andb_true_r in Hl. now rewrite Hl, Hmore.
Qed.

(** Every line generated for a block has well-formed call sites. *)
Lemma toPythonBlockFrom_ok (block : node) :
  forall skip col lines,
    toPythonBlockFrom functionmap func_name skip block col = Ok lines ->
    lines_ok lines = true.
Proof.
  induction block as [n | s | l IH |] using node_nested_ind; intros skip col lines;
    cbn [toPythonBlockFrom]; try discriminate.
  - apply mapM_lines_ok. intros c l. apply toPythonLine_ok.
  - apply block_lines_ok.
    destruct skip, l as [| x l]; try exact IH; [now apply Forall_cons in IH as [_ IH]].
Qed.

End GeneratedLines.

Section CompiledSuites.
Context {host : PyHost}.
Import Python CodeBlock.
Variable arity : string -> option nat.
Variable infn : bool.

Abbreviation lines_ok := (forallb (line_ok true arity infn)).
Abbreviation stmts_ok := (forallb (stmt_ok true arity infn)).

Lemma simple_stmt_ok (b : linebody) (st : stmt) (indent : nat) :
  line_ok true arity infn (mkline indent b) = true ->
  simple_stmt b = Ok st -> stmt_ok true arity infn st = true.
Proof.
  unfold line_ok. simpl. intros Hl.
  destruct b as [e | kw e | kw | f ps | | f | z]; simpl; try discriminate.
  - destruct e; (destruct (expression _); [| discriminate]); now intros [= <-].
  - now intros [= <-].
  - now intros [= <-].
Qed.

(** The statements Python reads from well-formed lines are well-formed. *)
Lemma parse_ok (fuel : nat) :
  (forall col lines stmts rest,
      lines_ok lines = true -> parse_suite fuel col lines = Ok (stmts, rest) ->
      stmts_ok stmts = true /\ lines_ok rest = true)
  /\ (forall col test lines st rest,
         site_ok true arity infn test = true -> lines_ok lines = true ->
         parse_if fuel col test lines = Ok (st, rest) ->
         stmt_ok true arity infn st = true /\ lines_ok rest = true)
  /\ (forall col lines stmts rest,
         lines_ok lines = true -> parse_body fuel col lines = Ok (stmts, rest) ->
         stmts_ok stmts = true /\ lines_ok rest = true).
Proof.
  induction fuel as [| fuel (IHsuite & IHif & IHbody)];
    [repeat split; discriminate |].
  split; [| split].
  - intros col lines stmts rest Hl.
    destruct lines as [| l lines]; [now intros [= <- <-] |].
    rewrite parse_suite_S.
    destruct (indent l <? col)%nat; [now intros [= <- <-] |].
    destruct (col <? indent l)%nat; [discriminate |].
    cbn [forallb] in Hl. apply andb_prop in Hl as [Hl Hls].
    intros H. apply bind_Ok in H as ([st rest1] & Hst & H).
    apply bind_Ok in H as ([more rest2] & Hmore & [= <- <-]).
    assert (Hok : stmt_ok true arity infn st = true /\ lines_ok rest1 = true).
    { destruct l as [ind b]. cbn [body] in Hst.
      destruct b as [e | kw e | kw | f ps | | f | z];
        try (apply bind_Ok in Hst as (st0 & Hst0 & [= <- <-]);
             split; [eapply simple_stmt_ok; eauto | exact Hls]).
      destruct (decide (kw = "if")); [| discriminate].
      destruct (expression e); [| discriminate].
      eapply IHif; [| | exact Hst]; [exact Hl | exact Hls]. }
    destruct Hok as [Hst' Hrest1].
    destruct (IHsuite _ _ _ _ Hrest1 Hmore) as [Hmore' Hrest2].
    split; [| exact Hrest2]. simpl. now rewrite Hst', Hmore'.
  - intros col test lines st rest Htest Hl. rewrite parse_if_S.
    intros H. apply bind_Ok in H as ([suite rest1] & Hbody & H).
    destruct (IHbody _ _ _ _ Hl Hbody) as [Hsuite Hrest1].
    assert (Hplain : stmt_ok true arity infn (SIf test suite []) = true)
      by (simpl; now rewrite Htest, Hsuite).
    destruct rest1 as [| l rest']; [now injection H as <- <- |].
    destruct (indent l =? col)%nat; [| now injection H as <- <-].
    pose proof Hrest1 as Hrest1'.
    cbn [forallb] in Hrest1'. apply andb_prop in Hrest1' as [Hline Hrest'].
    destruct l as [ind b]. cbn [body] in H.
    destruct b as [e | kw e | kw | f ps | | f | z]; try (now injection H as <- <-).
    + destruct (decide (kw = "elif")); [| now injection H as <- <-].
      destruct (expression e); [| discriminate].
      apply bind_Ok in H as ([st1 rest2] & Hif & [= <- <-]).
      destruct (IHif _ _ _ _ _ Hline Hrest' Hif) as [Hst1 Hrest2].
      split; [| exact Hrest2]. simpl. now rewrite Htest, Hsuite, Hst1.
    + destruct (decide (kw = "else")); [| now injection H as <- <-].
      apply bind_Ok in H as ([orelse rest2] & Helse & [= <- <-]).
      destruct (IHbody _ _ _ _ Hrest' Helse) as [Horelse Hrest2].
      split; [| exact Hrest2]. simpl. now rewrite Htest, Hsuite, Horelse.
  - intros col lines stmts rest Hl.
    destruct lines as [| l lines]; [discriminate |].
    rewrite parse_body_S. destruct (col <? indent l)%nat; [| discriminate].
    now apply IHsuite.
Qed.

End CompiledSuites.

Section ParseActions.
Context {host : PyHost}.
Import Python CodeBlock.

Lemma fn_ok_extends (fm fm' : gmap string func_entry) (k : string) (e e' : func_entry) :
  extends fm fm' -> compiled e' = compiled e -> arglist e' = arglist e ->
  fn_ok fm k e -> fn_ok fm' k e'.
Proof.
  intros Hext Hc Ha Hok code Hcode. rewrite Hc in Hcode.
  destruct (Hok code Hcode) as (Hg & Hlen & Hbody).
  split; [exact Hg |]. split; [now rewrite Ha |].
  eapply forallb_impl; [| exact Hbody].
  apply List.Forall_forall. intros st _. apply stmt_ok_extends.
  intros o n. now apply arity_in_extends.
Qed.

(** An update of [functionmap] that keeps the declared parameters. *)
Lemma functionmap_ok_insert (fm : gmap string func_entry) (k : string) (e : func_entry) :
  map_Forall (fn_ok fm) fm ->
  (forall e0, fm !! k = Some e0 -> arglist e = arglist e0) ->
  fn_ok (<[k := e]> fm) k e ->
  map_Forall (fn_ok (<[k := e]> fm)) (<[k := e]> fm).
Proof.
  intros Hfm Harg Hk.
  assert (Hext : extends fm (<[k := e]> fm)).
  { intros g e0 Hg. destruct (decide (k = g)) as [<- |].
    - exists e. rewrite lookup_insert_eq. split; [reflexivity | now apply Harg].
    - exists e0. rewrite lookup_insert_ne by assumption. now split. }
  intros j ej Hj. destruct (decide (k = j)) as [<- | Hne].
  - rewrite lookup_insert_eq in Hj. now injection Hj as <-.
  - rewrite lookup_insert_ne in Hj by assumption.
    apply (fn_ok_extends fm _ j ej); [exact Hext | reflexivity | reflexivity |].
    now apply Hfm.
Qed.

Lemma functionmap_ok_block (fm : gmap string func_entry) (k : string) (e : func_entry)
      (b : list node) :
  map_Forall (fn_ok fm) fm -> fm !! k = Some e ->
  map_Forall (fn_ok (<[k := set_block e b]> fm)) (<[k := set_block e b]> fm)
  /\ extends fm (<[k := set_block e b]> fm).
Proof.
  intros Hfm Hk.
  assert (Hext : extends fm (<[k := set_block e b]> fm)).
  { intros g e0 Hg. destruct (decide (k = g)) as [<- |].
    - exists (set_block e b). rewrite lookup_insert_eq. split; [reflexivity |].
      rewrite Hk in Hg. now injection Hg as <-.
    - exists e0. rewrite lookup_insert_ne by assumption. now split. }
  split; [| exact Hext].
  apply functionmap_ok_insert; [exact Hfm | |].
  - intros e0 He0. rewrite Hk in He0. now injection He0 as <-.
  - apply (fn_ok_extends fm _ k e); [exact Hext | reflexivity | reflexivity |].
    now apply Hfm.
Qed.

Lemma builder_ok_eq (cb cb' : CodeBlock.t) :
  function_name cb' = function_name cb -> functionmap cb' = functionmap cb ->
  builder_ok cb -> builder_ok cb'.
Proof. unfold builder_ok. now intros -> ->. Qed.

Lemma frame_append_ok (cb cb' : CodeBlock.t) (f : frameref) (x : node) :
  builder_ok cb -> frame_append cb f x = Ok cb' -> builder_ok cb'.
Proof.
  intros Hcb. unfold frame_append. destruct f as [| g].
  - intros [= <-]. revert Hcb. now apply builder_ok_eq.
  - destruct (functionmap cb !! g) as [e |] eqn:Hg; [| discriminate].
    intros [= <-]. destruct Hcb as [Hname Hfm]. split; [exact Hname |].
    now apply functionmap_ok_block.
Qed.

Lemma inner_append_ok (cb cb' : CodeBlock.t) (i : nat) (x : node) :
  builder_ok cb -> inner_append cb i x = Ok cb' -> builder_ok cb'.
Proof.
  intros Hcb. unfold inner_append. destruct (inner_blocks cb !! i); [| discriminate].
  intros [= <-]. revert Hcb. now apply builder_ok_eq.
Qed.

Lemma stack_append_ok (cb cb' : CodeBlock.t) (x : node) :
  builder_ok cb -> stack_append cb x = Ok cb' -> builder_ok cb'.
Proof.
  intros Hcb. unfold stack_append. destruct (stack cb);
    [now apply frame_append_ok | now apply inner_append_ok].
Qed.

Lemma pushAssignment_ok (cb cb' : CodeBlock.t) (toks : list ptok) :
  builder_ok cb -> pushAssignment cb toks = Ok cb' -> builder_ok cb'.
Proof.
  intros Hcb. unfold pushAssignment. intros H.
  apply bind_Ok in H as (cb1 & H1 & [= <-]). apply stack_append_ok in H1; [| exact Hcb].
  revert H1. now apply builder_ok_eq.
Qed.

Lemma pushComparison_ok (cb cb' : CodeBlock.t) (toks : list ptok) :
  builder_ok cb -> pushComparison cb toks = Ok cb' -> builder_ok cb'.
Proof.
  intros Hcb. unfold pushComparison. intros H.
  apply bind_Ok in H as (cb1 & H1 & [= <-]). apply stack_append_ok in H1; [| exact Hcb].
  revert H1. now apply builder_ok_eq.
Qed.

Lemma pushReturn_ok (cb cb' : CodeBlock.t) (toks : list ptok) :
  builder_ok cb -> pushReturn cb toks = Ok cb' -> builder_ok cb'.
Proof.
  intros Hcb. unfold pushReturn. intros H.
  apply bind_Ok in H as (cb1 & H1 & [= <-]). apply stack_append_ok in H1; [| exact Hcb].
  revert H1. now apply builder_ok_eq.
Qed.

Lemma pushConditionalBlock_ok (cb cb' : CodeBlock.t) (toks : list ptok) :
  builder_ok cb -> pushConditionalBlock cb toks = Ok cb' -> builder_ok cb'.
Proof.
  intros Hcb. unfold pushConditionalBlock. intros H.
  apply bind_Ok in H as (copy & _ & H).
  destruct (1 <? inner_block_count cb)%nat.
  - apply bind_Ok in H as (cb1 & H1 & H).
    apply inner_append_ok in H1; [| revert Hcb; now apply builder_ok_eq].
    apply bind_Ok in H as (blocks & _ & [= <-]).
    revert H1. now apply builder_ok_eq.
  - apply bind_Ok in H as (cb1 & H1 & H).
    apply frame_append_ok in H1; [| exact Hcb].
    apply bind_Ok in H as (blocks & _ & [= <-]).
    revert H1. now apply builder_ok_eq.
Qed.

Lemma pushIfCond_ok (cb cb' : CodeBlock.t) (toks : list ptok) :
  builder_ok cb -> pushIfCond cb toks = Ok cb' -> builder_ok cb'.
Proof.
  intros Hcb. unfold pushIfCond. intros H.
  apply bind_Ok in H as (cb1 & H1 & [= <-]).
  assert (Hcb1 : builder_ok cb1).
  { destruct (0 <? inner_block_count cb)%nat.
    - destruct (0 <? length (inner_blocks cb))%nat; [| discriminate].
      now apply inner_append_ok in H1.
    - now apply frame_append_ok in H1. }
  revert Hcb1. now apply builder_ok_eq.
Qed.

Lemma countFunctionArgs_ok (cb cb' : CodeBlock.t) (toks : list ptok) :
  builder_ok cb -> countFunctionArgs cb toks = Ok cb' -> builder_ok cb'.
Proof.
  intros Hcb. unfold countFunctionArgs. destruct toks as [| tok toks]; [now intros [= <-] |].
  destruct (known cb tok); [| discriminate].
  intros H. apply bind_Ok in H as (arg_count & _ & H).
  destruct (_ <? _)%nat; [discriminate |]. destruct (_ <? _)%nat; [discriminate |].
  now injection H as <-.
Qed.

Lemma pushAtom_ok (cb cb' : CodeBlock.t) (toks : list ptok) :
  builder_ok cb -> pushAtom cb toks = Ok cb' -> builder_ok cb'.
Proof.
  intros Hcb. unfold pushAtom.
  destruct (match toks with [] => _ | _ => _ end) as [add_not add_tok].
  destruct (match add_tok with Some _ => _ | None => _ end);
    intros H; apply bind_Ok in H as (xs & _ & [= <-]);
    revert Hcb; now apply builder_ok_eq.
Qed.

Lemma pushFirst_ok (cb cb' : CodeBlock.t) (toks : list ptok) :
  builder_ok cb -> pushFirst cb toks = Ok cb' -> builder_ok cb'.
Proof.
  intros Hcb. unfold pushFirst. destruct toks as [| tok toks]; [discriminate |].
  intros H; apply bind_Ok in H as (xs & _ & [= <-]).
  revert Hcb; now apply builder_ok_eq.
Qed.

Lemma pushUMinus_ok (cb cb' : CodeBlock.t) (toks : list ptok) :
  builder_ok cb -> pushUMinus cb toks = Ok cb' -> builder_ok cb'.
Proof.
  intros Hcb. unfold pushUMinus. intros [= <-]. revert Hcb; now apply builder_ok_eq.
Qed.

(** [pushFuncArgs] on the tokens of a declaration that starts with a
    name. *)
Lemma pushFuncArgs_ok (cb cb' : CodeBlock.t) (w : string) (more : list ptok) :
  w <> "" -> w <> "," ->
  builder_ok cb -> pushFuncArgs cb [PGroup (PStr w :: more)] = Ok cb' -> builder_ok cb'.
Proof.
  intros Hw Hcomma [Hname Hfm]. unfold pushFuncArgs. cbn [flat_items map concat].
  rewrite app_nil_r. cbn [filter list_filter]. unfold ptok_is at 1.
  destruct (decide (bool_decide (w = ",") = false)) as [_ | Hd];
    [| now rewrite bool_decide_eq_false_2 in Hd].
  cbn [ptok_str].
  destruct (bool_decide (is_Some (functionmap cb !! w))) eqn:Hknown; [discriminate |].
  apply bool_decide_eq_false in Hknown.
  assert (Hfresh : functionmap cb !! w = None).
  { destruct (functionmap cb !! w) eqn:E; [| reflexivity]. exfalso. apply Hknown. eauto. }
  intros H. apply bind_Ok in H as (arg_list & _ & H).
  destruct arg_list as [| a arg_list]; [discriminate |].
  injection H as <-. split; [now intros f [= <-] |]. cbn [functionmap].
  apply functionmap_ok_insert; [exact Hfm | |].
  - intros e0 He0. congruence.
  - intros code Hcode. now destruct (decide (arg_type a = "void")).
Qed.

Lemma compile_def_ok (arity : string -> option nat) (infn : bool)
      (header : linebody) (suite : list pyline)
      (defname : option string) (code : compiled_function) :
  forallb (line_ok true arity infn) suite = true ->
  compile_def (mkline 0 header :: suite) = Ok (defname, code) ->
  forallb (stmt_ok true arity infn) (cf_body code) = true
  /\ forall f ps, header = LDef f (ps ++ ["count=0"]) -> cf_params code = ps.
Proof.
  intros Hsuite. unfold compile_def. intros H.
  apply bind_Ok in H as ([defname' params] & Hheader & H).
  apply bind_Ok in H as ([stmts rest] & Hparse & H).
  destruct rest; [| discriminate]. injection H as _ <-. cbn [cf_body cf_params].
  split.
  - destruct (parse_ok arity infn (3 * S (length suite))) as (_ & _ & Hbody).
    now destruct (Hbody _ _ _ _ Hsuite Hparse).
  - intros f ps ->. rewrite reverse_app in Hheader. cbn [reverse app] in Hheader.
    change (reverse ["count=0"]) with ["count=0"] in Hheader. cbn [app] in Hheader.
    destruct (_ && _); [| discriminate]. injection Hheader as _ <-.
    apply reverse_involutive.
Qed.

(** [pushFuncBlock] compiles a function whose call sites are well-formed. *)
Lemma pushFuncBlock_ok (cb cb' : CodeBlock.t) (toks : list ptok) :
  builder_ok cb -> pushFuncBlock cb toks = Ok cb' -> builder_ok cb'.
Proof.
  intros [Hname Hfm] H. pose proof H as Hguard. unfold pushFuncBlock in H.
  apply bind_Ok in H as (body0 & _ & H).
  apply bind_Ok in H as (body1 & _ & H).
  apply bind_Ok in H as (cb1 & Hcb1 & H).
  assert (Hok1 : function_name cb1 = function_name cb
                 /\ map_Forall (fn_ok (functionmap cb1)) (functionmap cb1)).
  { destruct (CodeBlock.frame cb) as [| g]; [now injection Hcb1 as <- |].
    destruct (functionmap cb !! g) as [e0 |] eqn:Hg; [| discriminate].
    injection Hcb1 as <-. split; [reflexivity |]. now apply functionmap_ok_block. }
  destruct Hok1 as [Hname1 Hfm1].
  destruct (function_name cb1) as [f |] eqn:Hf; [| discriminate].
  destruct (functionmap cb1 !! f) as [e |] eqn:He; [| discriminate].
  apply bind_Ok in H as (function_body & Hbody & H).
  apply bind_Ok in H as ([defname code] & Hcompile & [= <-]).
  split; [now intros ? [= <-] |]. cbn [functionmap].
  apply functionmap_ok_insert; [exact Hfm1 | |].
  { intros e0 He0. rewrite He in He0. now injection He0 as <-. }
  intros code' [= <-].
  assert (Hnamed : named (Some f) = true).
  { symmetry in Hname1. apply Hname in Hname1. now destruct f. }
  apply toPythonBlockFrom_ok in Hbody. rewrite Hnamed in Hbody.
  destruct (pushFuncBlock_guard cb _ toks f Hguard) as (e' & code' & He' & Hc' & Hg' & _);
    [congruence |].
  cbn [functionmap] in He'. rewrite lookup_insert_eq in He'. injection He' as <-.
  cbn [compiled set_compiled] in Hc'. injection Hc' as <-.
  split; [exact Hg' |].
  assert (Hlines : forall tail,
             forallb (line_ok true (arity_in (functionmap cb1)) true) tail = true ->
             forallb (line_ok true (arity_in (functionmap cb1)) true)
                     (mkline 2 (LCond "if" (ECountAbove 100))
                        :: mkline 4 (LRaise f) :: function_body ++ tail) = true).
  { intros tail Htail. cbn [forallb]. rewrite forallb_app, Hbody, Htail. reflexivity. }
  cbn [app] in Hcompile.
  assert (Hcode : forallb (stmt_ok true (arity_in (functionmap cb1)) true) (cf_body code)
                  = true
                  /\ cf_params code = map arg_name (arglist e)).
  { destruct (last _) as [l |] in Hcompile;
      [destruct (RETURN_RE_match _) in Hcompile |]; cbn [app] in Hcompile.
    - apply (compile_def_ok (arity_in (functionmap cb1)) true) in Hcompile as [Hb Hp].
      + split; [exact Hb | now apply (Hp f)].
      + rewrite <- (app_nil_r function_body). now apply Hlines.
    - apply (compile_def_ok (arity_in (functionmap cb1)) true) in Hcompile as [Hb Hp].
      + split; [exact Hb | now apply (Hp f)].
      + now apply Hlines.
    - apply (compile_def_ok (arity_in (functionmap cb1)) true) in Hcompile as [Hb Hp].
      + split; [exact Hb | now apply (Hp f)].
      + rewrite <- (app_nil_r function_body). now apply Hlines. }
  destruct Hcode as [Hb Hp]. cbn [arglist set_compiled].
  split; [now rewrite Hp, length_map |].
  eapply forallb_impl; [| exact Hb].
  apply List.Forall_forall. intros st _. apply stmt_ok_extends.
  intros o n. apply arity_in_extends.
  intros g e0 Hg. destruct (decide (f = g)) as [<- |].
  - exists (set_compiled e code). rewrite lookup_insert_eq. split; [reflexivity |].
    rewrite He in Hg. now injection Hg as <-.
  - exists e0. rewrite lookup_insert_ne by assumption. now split.
Qed.

End ParseActions.

Section GrammarFacts.
Context {host : PyHost}.
Import Python CodeBlock PyParsing Grammar.

Lemma preserves_ext (p q : parser) :
  (forall c cb, p c cb = q c cb) -> preserves q -> preserves p.
Proof. intros Heq Hq c cb Hcb. rewrite Heq. now apply Hq. Qed.

Lemma preserves_Literal (m : string) : preserves (Literal m).
Proof. intros c cb Hcb. unfold Literal. now destruct (starts_with _ _). Qed.

Lemma preserves_Keyword (m : string) : preserves (Keyword m).
Proof. intros c cb Hcb. unfold Keyword. now destruct (_ && _). Qed.

Lemma preserves_Word (init body : ascii -> bool) : preserves (Word init body).
Proof.
  intros c cb Hcb. unfold Word. destruct (rest (pre_parse c)); [exact Hcb |].
  now destruct (init _).
Qed.

Lemma preserves_Regex (re_match : list ascii -> option nat) : preserves (Regex re_match).
Proof. intros c cb Hcb. unfold Regex. now destruct (re_match _). Qed.

Lemma preserves_stringEnd : preserves stringEnd.
Proof. intros c cb Hcb. unfold stringEnd. now destruct (rest (pre_parse c)). Qed.

Lemma preserves_And (a b : parser) : preserves a -> preserves b -> preserves (a +> b).
Proof.
  intros Ha Hb c cb Hcb. unfold And. specialize (Ha c cb Hcb).
  destruct (a c cb) as [c1 toks1 cb1 | cb1 | |]; try exact Ha.
  specialize (Hb c1 cb1 Ha). now destruct (b c1 cb1).
Qed.

Lemma preserves_MatchFirst (a b : parser) :
  preserves a -> preserves b -> preserves (a <|> b).
Proof.
  intros Ha Hb c cb Hcb. unfold MatchFirst. specialize (Ha c cb Hcb).
  destruct (a c cb) as [c1 toks1 cb1 | cb1 | |]; try exact Ha. now apply Hb.
Qed.

Lemma preserves_Optional (a : parser) : preserves a -> preserves (Optional a).
Proof.
  intros Ha c cb Hcb. unfold Optional. specialize (Ha c cb Hcb).
  now destruct (a c cb).
Qed.

Lemma preserves_repeat (fuel : nat) (a : parser) (acc : list ptok) :
  preserves a -> preserves (repeat fuel a acc).
Proof.
  intros Ha. revert acc. induction fuel as [| fuel IH]; intros acc c cb Hcb; [exact I |].
  cbn [repeat]. specialize (Ha c cb Hcb).
  destruct (a c cb) as [c1 toks1 cb1 | cb1 | |]; try exact Ha. now apply IH.
Qed.

Lemma preserves_ZeroOrMore (a : parser) : preserves a -> preserves (ZeroOrMore a).
Proof. intros Ha c cb Hcb. unfold ZeroOrMore. now apply preserves_repeat. Qed.

Lemma preserves_OneOrMore (a : parser) : preserves a -> preserves (OneOrMore a).
Proof. intros Ha. apply preserves_And; [exact Ha | now apply preserves_ZeroOrMore]. Qed.

Lemma preserves_Group (a : parser) : preserves a -> preserves (Group a).
Proof.
  intros Ha c cb Hcb. unfold Group. specialize (Ha c cb Hcb). now destruct (a c cb).
Qed.

Lemma preserves_suppress (a : parser) : preserves a -> preserves (suppress a).
Proof.
  intros Ha c cb Hcb. unfold suppress. specialize (Ha c cb Hcb). now destruct (a c cb).
Qed.

Lemma preserves_action (a : parser) (fn : CodeBlock.t -> list ptok -> outcome CodeBlock.t) :
  preserves a ->
  (forall cb cb' toks, builder_ok cb -> fn cb toks = Ok cb' -> builder_ok cb') ->
  preserves (setParseAction a fn).
Proof.
  intros Ha Hfn c cb Hcb. unfold setParseAction. specialize (Ha c cb Hcb).
  destruct (a c cb) as [c1 toks1 cb1 | cb1 | |]; try exact Ha.
  destruct (fn cb1 toks1) as [cb2 | e |] eqn:Hf; try exact I;
    [exact (Hfn cb1 cb2 toks1 Ha Hf) | destruct e; solve [exact I | exact Ha]].
Qed.

Create HintDb parsers.
#[local] Hint Resolve preserves_Literal preserves_Keyword preserves_Word preserves_Regex
  preserves_stringEnd preserves_And preserves_MatchFirst preserves_Optional
  preserves_ZeroOrMore preserves_OneOrMore preserves_Group preserves_suppress : parsers.

Ltac terminal :=
  unfold compareop, boolop, addop, multop, typestring, comments;
  unfold fnumber, ident, uptolineend, comment_sym, plus, minus, mult, div,
    mod_, lpar, rpar, lbrack, rbrack, glbl, boolnot, boolor, booland, ifcond, elseifcond,
    elsecond, func, num, strn, void, ret, is_equal, is_nequal, is_lt, is_lte, is_gt, is_gte,
    assignop, expop;
  auto 20 with parsers.

Lemma preserves_atom (combinatorial : parser) :
  preserves combinatorial -> preserves (atom combinatorial).
Proof.
  intros Hc. unfold atom.
  apply preserves_action; [| intros; eapply pushUMinus_ok; eauto].
  apply preserves_And; [terminal |].
  apply preserves_MatchFirst; [| apply preserves_Group; repeat apply preserves_And; terminal].
  apply preserves_action; [| intros; eapply pushAtom_ok; eauto].
  apply preserves_MatchFirst; [| terminal].
  apply preserves_action; [| intros; eapply countFunctionArgs_ok; eauto].
  repeat apply preserves_And; terminal.
Qed.

Lemma preserves_factor (n : nat) (atom : parser) :
  preserves atom -> preserves (factor n atom).
Proof.
  intros Ha. induction n as [| n IH]; [intros c cb Hcb; exact I |].
  apply (preserves_ext _ (atom +> ZeroOrMore (setParseAction (expop +> factor n atom) pushFirst)));
    [reflexivity |].
  apply preserves_And; [exact Ha |]. apply preserves_ZeroOrMore.
  apply preserves_action; [| intros; eapply pushFirst_ok; eauto].
  apply preserves_And; [terminal | exact IH].
Qed.

Lemma preserves_term (factor : parser) : preserves factor -> preserves (term factor).
Proof.
  intros Hf. unfold term. apply preserves_And; [exact Hf |]. apply preserves_ZeroOrMore.
  apply preserves_action; [| intros; eapply pushFirst_ok; eauto].
  apply preserves_And; [terminal | exact Hf].
Qed.

Lemma preserves_expr (term : parser) : preserves term -> preserves (expr term).
Proof.
  intros Hf. unfold expr. apply preserves_And; [exact Hf |]. apply preserves_ZeroOrMore.
  apply preserves_action; [| intros; eapply pushFirst_ok; eauto].
  apply preserves_And; [terminal | exact Hf].
Qed.

Lemma preserves_combinatorial (n : nat) : preserves (combinatorial n).
Proof.
  induction n as [| n IH]; [intros c cb Hcb; exact I |].
  set (e := expr (term (factor (S n) (atom (combinatorial n))))).
  assert (He : preserves e)
    by (apply preserves_expr, preserves_term, preserves_factor, preserves_atom, IH).
  apply (preserves_ext _ (Optional boolnot +> e
                            +> ZeroOrMore (setParseAction
                                             ((boolop <|> compareop) +> Optional boolnot +> e)
                                             pushFirst))); [reflexivity |].
  clearbody e.
  repeat apply preserves_And; try terminal; try exact He.
  apply preserves_ZeroOrMore.
  apply preserves_action; [| intros; eapply pushFirst_ok; eauto].
  repeat apply preserves_And; try terminal; exact He.
Qed.

Lemma preserves_returnline (n : nat) : preserves (returnline n).
Proof.
  unfold returnline. apply preserves_action; [| intros; eapply pushReturn_ok; eauto].
  apply preserves_Group, preserves_And; [terminal | apply preserves_combinatorial].
Qed.

Lemma preserves_assignment (n : nat) : preserves (assignment n).
Proof.
  unfold assignment. apply preserves_action; [| intros; eapply pushAssignment_ok; eauto].
  apply preserves_Group. repeat apply preserves_And; try terminal.
  apply preserves_combinatorial.
Qed.

Lemma preserves_comparison (n : nat) : preserves (comparison n).
Proof.
  unfold comparison. apply preserves_action; [| intros; eapply pushComparison_ok; eauto].
  apply preserves_Group. repeat apply preserves_And; try terminal.
  apply preserves_combinatorial.
Qed.

Lemma preserves_conditional_set (n : nat) (block : parser) :
  preserves block -> preserves (conditional_set n block).
Proof.
  intros Hb. unfold conditional_set. apply preserves_Group.
  assert (Hif : forall kw, preserves (setParseAction (Keyword kw) pushIfCond))
    by (intros kw; apply preserves_action; [terminal | intros; eapply pushIfCond_ok; eauto]).
  repeat apply preserves_And; try apply Hif; try apply preserves_comparison; try exact Hb.
  - apply preserves_ZeroOrMore.
    repeat apply preserves_And; try apply Hif; try apply preserves_comparison; exact Hb.
  - apply preserves_Optional, preserves_And; [apply Hif | exact Hb].
Qed.

Lemma preserves_block (n m : nat) : preserves (block n m).
Proof.
  induction m as [| m IH]; [intros c cb Hcb; exact I |].
  apply (preserves_ext _
           (setParseAction
              (Group (lbrack
                        +> ZeroOrMore (suppress comments <|> assignment n
                                         <|> conditional_set n (block n m))
                        +> rbrack))
              pushConditionalBlock)); [reflexivity |].
  apply preserves_action; [| intros; eapply pushConditionalBlock_ok; eauto].
  apply preserves_Group. repeat apply preserves_And; try terminal.
  apply preserves_ZeroOrMore. repeat apply preserves_MatchFirst.
  - apply preserves_suppress. terminal.
  - apply preserves_assignment.
  - now apply preserves_conditional_set.
Qed.

(** The tokens of a sequence that starts with an identifier. *)
Lemma And_Matched (a b : parser) (c c2 : cursor) (cb cb2 : CodeBlock.t) (toks : list ptok) :
  (a +> b) c cb = Matched c2 toks cb2 ->
  exists c1 toks1 cb1 toks2,
    a c cb = Matched c1 toks1 cb1 /\ b c1 cb1 = Matched c2 toks2 cb2
    /\ toks = toks1 ++ toks2.
Proof.
  unfold And. destruct (a c cb) as [c1 toks1 cb1 | | |]; try discriminate.
  destruct (b c1 cb1) as [c2' toks2 cb2' | | |] eqn:Hb; try discriminate.
  intros [= <- <- <-]. eauto 10.
Qed.

Lemma ident_Matched (c c1 : cursor) (cb cb1 : CodeBlock.t) (toks : list ptok) :
  ident c cb = Matched c1 toks cb1 ->
  exists w, toks = [PStr w] /\ w <> "" /\ w <> ",".
Proof.
  unfold ident, Word. destruct (rest (pre_parse c)) as [| x cs]; [discriminate |].
  destruct (is_alpha x) eqn:Hx; [| discriminate]. intros [= _ <- _].
  eexists. split; [reflexivity |]. cbn [string_of_list_ascii].
  split; [discriminate |]. intros [= -> _]. discriminate.
Qed.

Lemma preserves_func_def_args : preserves func_def_args.
Proof.
  intros c cb Hcb. unfold func_def_args, setParseAction, Group.
  match goal with |- context [(?a +> ?b) c cb] => set (p := a +> b) end.
  assert (Hp : preserves p).
  { subst p. repeat apply preserves_And; terminal. }
  specialize (Hp c cb Hcb).
  destruct (p c cb) as [c1 toks cb1 | cb1 | |] eqn:Hmatch; try exact Hp.
  destruct (pushFuncArgs cb1 [PGroup toks]) as [cb2 | e |] eqn:Hpush; try exact I;
    [| destruct e; solve [exact I | exact Hp]].
  subst p.
  apply And_Matched in Hmatch as (? & t1 & ? & ? & Hmatch & _ & ->).
  apply And_Matched in Hmatch as (? & t2 & ? & ? & Hmatch & _ & ->).
  apply And_Matched in Hmatch as (? & t3 & ? & ? & Hmatch & _ & ->).
  apply ident_Matched in Hmatch as (w & -> & Hw & Hcomma).
  cbn [app] in Hpush. eapply pushFuncArgs_ok; eauto.
Qed.

Lemma preserves_function_block (n : nat) : preserves (function_block n).
Proof.
  unfold function_block. apply preserves_action; [| intros; eapply pushFuncBlock_ok; eauto].
  apply preserves_Group. repeat apply preserves_And; try terminal.
  apply preserves_ZeroOrMore. repeat apply preserves_MatchFirst.
  - apply preserves_suppress. terminal.
  - apply preserves_assignment.
  - apply preserves_conditional_set, preserves_block.
  - apply preserves_returnline.
Qed.

Lemma preserves_bnf (n : nat) : preserves (bnf n).
Proof.
  unfold bnf, func_def. apply preserves_And; [| terminal].
  apply preserves_OneOrMore. repeat apply preserves_MatchFirst.
  - apply preserves_suppress. terminal.
  - apply preserves_Group. repeat apply preserves_And; try terminal.
    + apply preserves_func_def_args.
    + apply preserves_function_block.
  - apply preserves_assignment.
  - apply preserves_conditional_set, preserves_block.
Qed.

(** Parsing keeps the builder well-formed. *)
Lemma parse_ok_builder (source_code_str : string) (cb cb' : CodeBlock.t) :
  builder_ok cb -> Grammar.parse source_code_str cb = Ok cb' -> builder_ok cb'.
Proof.
  intros Hcb. unfold Grammar.parse, parseString.
  pose proof (preserves_bnf (S (String.length source_code_str))
                (mkcursor None (list_ascii_of_string source_code_str)) cb Hcb) as H.
  destruct (bnf _ _ cb) as [c1 toks cb1 | | |]; try discriminate.
  now intros [= <-].
Qed.

End GrammarFacts.

Section LoadedModule.
Context {host : PyHost}.
Import Python CodeBlock.

Lemma uncompiled_ok (funcmap : gmap string func_entry) :
  uncompiled funcmap -> map_Forall (fn_ok funcmap) funcmap.
Proof. intros H k e Hk code Hcode. rewrite (H k e Hk) in Hcode. discriminate. Qed.

(** The builder [wrap_code_block] returns is well-formed. *)
Lemma wrap_code_block_ok (program_name source_code_str : string)
      (funcmap : gmap string func_entry) (cb : CodeBlock.t) :
  uncompiled funcmap ->
  LanguageEngine.wrap_code_block program_name source_code_str funcmap = Ok cb ->
  map_Forall (fn_ok (functionmap cb)) (functionmap cb).
Proof.
  intros Hfm. unfold LanguageEngine.wrap_code_block. intros H.
  apply bind_Ok in H as (shared & Hparse & H).
  apply bind_Ok in H as (shared' & Hreduce & [= <-]).
  apply parse_ok_builder in Hparse.
  2: { destruct (bool_decide (funcmap = ∅)) eqn:Hempty.
       - split; [discriminate |]. cbn. apply map_Forall_empty.
       - split; [discriminate |]. cbn. rewrite (right_id_L ∅ (∪)). now apply uncompiled_ok. }
  unfold reduce in Hreduce. apply bind_Ok in Hreduce as (outer & _ & [= <-]).
  destruct Hparse as [_ Hshared]. cbn.
  set (fm := functionmap shared) in *.
  assert (Hext : extends fm (fm ∪ funcmap)).
  { intros g e Hg. exists e. split; [now apply lookup_union_Some_l | reflexivity]. }
  intros k e Hk. apply lookup_union_Some_raw in Hk as [Hk | [_ Hk]].
  - apply (fn_ok_extends fm _ k e); [exact Hext | reflexivity | reflexivity |].
    now apply Hshared.
  - intros code Hcode. rewrite (Hfm k e Hk) in Hcode. discriminate.
Qed.

(** The functions of a loaded module are the compiled functions of the
    table. *)
Lemma load_functions (cb : CodeBlock.t) (m : module) (opcall : string)
      (f : compiled_function) :
  load cb = Ok m -> functions m !! opcall = Some f ->
  exists k e, opcall = "userfunc_" +:+ k /\ functionmap cb !! k = Some e
              /\ compiled e = Some f.
Proof.
  unfold load. intros H. apply bind_Ok in H as (exec_code & _ & H).
  assert (Hfun : functions m
                 = list_to_map
                     (omap (fun kv : string * func_entry =>
                              c ← compiled kv.2; Some ("userfunc_" +:+ kv.1, c))
                           (map_to_list (functionmap cb)))).
  { destruct exec_code; [now injection H as <- |].
    apply bind_Ok in H as ([defname code] & _ & [= <-]). reflexivity. }
  rewrite Hfun. intros Hl. apply elem_of_list_to_map_2 in Hl.
  apply list_elem_of_omap in Hl as ([k e] & Hin & Hkv).
  apply elem_of_map_to_list in Hin. cbn in Hkv.
  destruct (compiled e) as [c |] eqn:Hc; [| discriminate].
  cbn in Hkv. injection Hkv as <- <-. eauto.
Qed.

Lemma load_arity (cb : CodeBlock.t) (m : module) (opcall : string) (n : nat) :
  map_Forall (fn_ok (functionmap cb)) (functionmap cb) ->
  load cb = Ok m -> arity_of m opcall = Some n ->
  arity_in (functionmap cb) opcall = Some n.
Proof.
  intros Hfm Hload. unfold arity_of.
  destruct (functions m !! opcall) as [f |] eqn:Hf; [| discriminate].
  cbn [fmap option_fmap option_map]. intros [= <-].
  destruct (load_functions cb m opcall f Hload Hf) as (k & e & -> & Hk & Hc).
  rewrite (arity_in_userfunc _ _ _ Hk).
  destruct (Hfm k e Hk f Hc) as (_ & -> & _). reflexivity.
Qed.

(** The call sites of a loaded module are well-formed and its functions
    open with the guard. *)
Lemma load_ok (cb : CodeBlock.t) (m : module) :
  map_Forall (fn_ok (functionmap cb)) (functionmap cb) ->
  load cb = Ok m -> module_ok m.
Proof.
  intros Hfm Hload. split.
  - intros opcall f Hf.
    destruct (load_functions cb m opcall f Hload Hf) as (k & e & -> & Hk & Hc).
    destruct (Hfm k e Hk f Hc) as (Hg & _ & Hbody).
    split; [now exists k |].
    eapply forallb_impl; [| exact Hbody].
    apply List.Forall_forall. intros st _. apply stmt_ok_lax.
    intros o n. now apply load_arity.
  - intros suite Hrun. pose proof Hload as Hload'. unfold load in Hload.
    apply bind_Ok in Hload as (exec_code & Hpy & H).
    destruct exec_code as [| l exec_code]; [injection H as <-; discriminate |].
    apply bind_Ok in H as ([defname code] & Hcompile & [= <-]).
    cbn in Hrun. injection Hrun as <-.
    unfold toPython in Hpy. destruct (outer_block cb) as [| x outer]; [discriminate |].
    apply bind_Ok in Hpy as (python_lines & Hlines & [= <- <-]).
    apply toPythonBlockFrom_ok in Hlines.
    apply (compile_def_ok (arity_in (functionmap cb)) false) in Hcompile as [Hbody _];
      [| exact Hlines].
    eapply forallb_impl; [| exact Hbody].
    apply List.Forall_forall. intros st _. apply stmt_ok_lax.
    intros o n. now apply load_arity.
Qed.

End LoadedModule.

(** ** The depth of a run *)

Section BoundedDepth.
Context {host : PyHost}.
Import Python.
Hypothesis Hmax : 101 <= sys_maxint.
Variable m : module.
Hypothesis Hm : module_ok m.

Lemma count_succ (c : Z) :
  0 <= c <= 100 ->
  operator_call "operator.add" [VNum (NInt c); VNum (NInt 1)] = Ok (VNum (NInt (c + 1))).
Proof.
  intros Hc. cbn. unfold int_of_Z, fits_int.
  replace (- sys_maxint - 1 <=? c + 1) with true by (symmetry; apply Z.leb_le; lia).
  replace (c + 1 <=? sys_maxint) with true by (symmetry; apply Z.leb_le; lia).
  reflexivity.
Qed.

Lemma eval_args_length (fuel : nat) (fr : frame) (es : list pyexpr) :
  forall s s' vs, eval_args fuel m fr s es = (s', Ok vs) -> length vs = length es.
Proof.
  revert es. induction fuel as [| fuel IH]; intros es s s' vs; [discriminate |].
  cbn [eval_args]. destruct es as [| e es]; [now intros [= _ <-] |].
  destruct (eval fuel m fr s e) as [s1 [v | x |]]; try discriminate.
  destruct (eval_args fuel m fr s1 es) as [s2 [vs' | x |]] eqn:Hargs; try discriminate.
  intros [= _ <-]. simpl. f_equal. eauto.
Qed.

Lemma eval_count_succ (fuel : nat) (fr : frame) (s s' : state) (v : value) (c : Z) :
  fr_count fr = Some (VNum (NInt c)) -> 0 <= c <= 100 ->
  eval fuel m fr s ECountSucc = (s', Ok v) -> v = VNum (NInt (c + 1)).
Proof.
  intros Hfr Hc. destruct fuel; [discriminate |]. cbn [eval].
  unfold count_of. rewrite Hfr. cbn [mbind outcome_bind].
  rewrite count_succ by exact Hc. now intros [= _ <-].
Qed.

Lemma eval_args_counted (fuel : nat) (fr : frame) (c : Z) (qs : list pyexpr) (n : nat) :
  fr_count fr = Some (VNum (NInt c)) -> 0 <= c <= 100 ->
  counted qs n = true ->
  forall s s' vs, eval_args fuel m fr s qs = (s', Ok vs) ->
                  length vs = S n /\ vs !! n = Some (VNum (NInt (c + 1))).
Proof.
  intros Hfr Hc Hq s s' vs Hvs. unfold counted in Hq.
  apply andb_prop in Hq as [Hlen Hlast]. apply Nat.eqb_eq in Hlen.
  split; [now rewrite (eval_args_length _ _ _ _ _ _ Hvs) |].
  revert qs n Hlen Hlast s s' vs Hvs.
  induction fuel as [| fuel IH]; intros qs n Hlen Hlast s s' vs; [discriminate |].
  cbn [eval_args]. destruct qs as [| e qs]; [discriminate |].
  destruct (eval fuel m fr s e) as [s1 [v | x |]] eqn:He; try discriminate.
  destruct (eval_args fuel m fr s1 qs) as [s2 [vs' | x |]] eqn:Hargs; try discriminate.
  intros [= _ <-].
  destruct qs as [| e' qs'].
  - simpl in Hlen. injection Hlen as <-. simpl in Hlast.
    destruct e; try discriminate. simpl. f_equal.
    eapply eval_count_succ; eauto.
  - destruct n as [| n]; [simpl in Hlen; lia |]. simpl.
    eapply IH; [| | exact Hargs]; [simpl in Hlen |- *; lia |].
    exact Hlast.
Qed.

(** The evaluator keeps the counts bounded: in a function frame past the
    guard the count is at most 100, and a call site passes [count+1]. *)
Lemma bounded_depth_step (fuel : nat) :
  (forall infn fr s e,
      frame_ok infn fr -> bounded s -> site_ok false (arity_of m) infn e = true ->
      bounded (eval fuel m fr s e).1)
  /\ (forall infn fr s es,
         frame_ok infn fr -> bounded s ->
         forallb (site_ok false (arity_of m) infn) es = true ->
         bounded (eval_args fuel m fr s es).1)
  /\ (forall infn fr s suite,
         frame_ok infn fr -> bounded s ->
         forallb (stmt_ok false (arity_of m) infn) suite = true ->
         bounded (exec fuel m fr s suite).1)
  /\ (forall opcall f s args,
         functions m !! opcall = Some f ->
         depth_ok (default (VNum (NInt 0)) (args !! length (cf_params f))) ->
         bounded s -> bounded (call fuel m f s args).1).
Proof.
  induction fuel as [fuel IH] using lt_wf_ind.
  destruct fuel as [| fuel]; [repeat split; intros; assumption |].
  destruct (IH fuel (Nat.lt_succ_diag_r fuel)) as (IHeval & IHargs & IHexec & IHcall).
  repeat split.
  - (* eval *)
    intros infn fr s e Hfr Hs He. cbn [eval].
    destruct e as [n | opcall ps | | | e1 | a opname b | opname | opname | symbol e1 | e1 | limit];
      cbn [site_ok] in He; try exact Hs.
    + (* ECall *)
      apply andb_prop in He as [Hps Hshape].
      assert (Hop : forall qs, forallb (site_ok false (arity_of m) infn) qs = true ->
                bounded (match callee_of m fr false opcall with
                         | Ok target =>
                             match eval_args fuel m fr s qs with
                             | (s1, Ok vs) =>
                                 match target with
                                 | Operator => (s1, operator_call opcall vs)
                                 | _ => (s1, Raise TypeError)
                                 end
                             | (s1, Raise x) => (s1, Raise x)
                             | (s1, OutOfFuel) => (s1, OutOfFuel)
                             end
                         | Raise x => (s, Raise x)
                         | OutOfFuel => (s, OutOfFuel)
                         end).1).
      { intros qs Hqs. destruct (callee_of m fr false opcall) as [target | x |];
          try exact Hs.
        specialize (IHargs infn fr s qs Hfr Hs Hqs).
        destruct (eval_args fuel m fr s qs) as [s1 [vs | x |]]; try exact IHargs.
        destruct target; exact IHargs. }
      destruct ps as [| p ps]; [now apply Hop |].
      destruct p; try (now apply Hop).
      cbn [forallb site_ok] in Hps. rewrite andb_true_l in Hps.
      destruct (callee_of m fr true opcall) as [target | x |] eqn:Htarget; try exact Hs.
      pose proof (IHargs infn fr s ps Hfr Hs Hps) as Hb.
      destruct (eval_args fuel m fr s ps) as [s1 [vs | x |]] eqn:Hargs; try exact Hb.
      simpl in Hb.
      destruct target as [| f | |]; try exact Hb.
      assert (Hf : functions m !! opcall = Some f).
      { unfold callee_of in Htarget.
        destruct (local fr (root opcall));
          [destruct (decide (root opcall = opcall)); discriminate |].
        destruct (functions m !! opcall) as [f' |];
          [now injection Htarget as -> | destruct (imported m); discriminate]. }
      apply (IHcall opcall f s1 vs Hf); [| exact Hb].
      unfold arity_of in Hshape. rewrite Hf in Hshape. cbn [fmap option_fmap option_map] in Hshape.
      destruct infn.
      * destruct Hfr as (c & Hcount & Hc).
        destruct (eval_args_counted fuel fr c ps _ Hcount Hc Hshape s s1 vs Hargs) as [_ Hn].
        rewrite Hn. exists (c + 1). split; [reflexivity | lia].
      * apply Nat.eqb_eq in Hshape. rewrite <- Hshape.
        rewrite <- (eval_args_length _ _ _ _ _ _ Hargs).
        rewrite lookup_ge_None_2 by lia. exists 0. split; [reflexivity | lia].
    + (* ENeg *)
      destruct (callee_of m fr false "operator.mul") as [target | x |]; try exact Hs.
      specialize (IHeval infn fr s e1 Hfr Hs He).
      destruct (eval fuel m fr s e1) as [s1 [v | x |]]; exact IHeval.
    + (* EBool *)
      apply andb_prop in He as [Ha Hb].
      pose proof (IHeval infn fr s a Hfr Hs Ha) as H1.
      destruct (eval fuel m fr s a) as [s1 [va | x |]]; try exact H1.
      destruct (decide (opname = "and")); destruct (truthy va); try exact H1;
        now apply (IHeval infn).
    + (* EGet *)
      destruct (binding_of m fr "get_symbol"); exact Hs.
    + (* EUpdate *)
      specialize (IHeval infn fr s e1 Hfr Hs He).
      destruct (binding_of m fr "update_symbol") as [hidden | |]; try exact Hs;
        destruct (eval fuel m fr s e1) as [s1 [v | x |]]; try exact IHeval.
      destruct (update_symbol _ _ _); exact IHeval.
  - (* eval_args *)
    intros infn fr s es Hfr Hs Hes. cbn [eval_args].
    destruct es as [| e es]; [exact Hs |].
    cbn [forallb] in Hes. apply andb_prop in Hes as [He Hes].
    pose proof (IHeval infn fr s e Hfr Hs He) as H1.
    destruct (eval fuel m fr s e) as [s1 [v | x |]]; try exact H1.
    pose proof (IHargs infn fr s1 es Hfr H1 Hes) as H2.
    destruct (eval_args fuel m fr s1 es) as [s2 [vs | x |]]; exact H2.
  - (* exec *)
    intros infn fr s suite Hfr Hs Hsuite. cbn [exec].
    destruct suite as [| st suite]; [exact Hs |].
    cbn [forallb] in Hsuite. apply andb_prop in Hsuite as [Hst Hsuite].
    destruct st as [e | e | function_name | test thens orelse]; cbn [stmt_ok] in Hst.
    + pose proof (IHeval infn fr s e Hfr Hs Hst) as H1.
      destruct (eval fuel m fr s e) as [s1 [v | x |]]; try exact H1.
      now apply (IHexec infn).
    + pose proof (IHeval infn fr s e Hfr Hs Hst) as H1.
      destruct (eval fuel m fr s e) as [s1 [v | x |]]; exact H1.
    + destruct (binding_of m fr "CodeBlockRuntimeError"); exact Hs.
    + apply andb_prop in Hst as [Hst Horelse]. apply andb_prop in Hst as [Htest Hthens].
      pose proof (IHeval infn fr s test Hfr Hs Htest) as H1.
      destruct (eval fuel m fr s test) as [s1 [v | x |]]; try exact H1.
      assert (H2 : bounded (exec fuel m fr s1 (if truthy v then thens else orelse)).1)
        by (destruct (truthy v); now apply (IHexec infn)).
      destruct (exec fuel m fr s1 _) as [s2 [[| w] | x |]]; try exact H2.
      now apply (IHexec infn).
  - (* call *)
    intros opcall f s args Hf Hcount Hs. cbn [call].
    destruct (_ || _); [exact Hs |].
    set (count := default (VNum (NInt 0)) (args !! length (cf_params f))) in *.
    destruct Hcount as (c & Hc & Hrange). clearbody count. subst count.
    set (fr := mkframe _ (Some (VNum (NInt c)))).
    set (s0 := mkstate (tables s) (entered s ++ [VNum (NInt c)])).
    assert (Hs0 : bounded s0).
    { unfold bounded, s0. simpl. apply Forall_app. split; [exact Hs |].
      apply Forall_singleton. exists c. split; [reflexivity | exact Hrange]. }
    assert (Hexec : bounded (exec fuel m fr s0 (cf_body f)).1);
      [| destruct (exec fuel m fr s0 (cf_body f)) as [s1 [[| v] | x |]]; exact Hexec].
    destruct Hm as [Hfun _]. destruct (Hfun opcall f Hf) as [[function_name Hg] Hbody].
    destruct Hg as (dead & orelse & rest & Hg). rewrite Hg in Hbody |- *.
    cbn [forallb stmt_ok] in Hbody.
    apply andb_prop in Hbody as [Hguard Hrest].
    apply andb_prop in Hguard as [_ Horelse].
    destruct fuel as [| fuel]; [exact Hs0 |]. cbn [exec].
    destruct fuel as [| fuel]; [exact Hs0 |]. cbn [eval].
    unfold count_of. cbn [fr fr_count mbind outcome_bind].
    replace (operator_call "operator.gt" [VNum (NInt c); VNum (NInt 100)])
      with (Ok (A := value) (VBool (c >? 100))) by reflexivity.
    cbn [truthy]. destruct (c >? 100) eqn:Hgt.
    + cbn [exec]. destruct (binding_of m fr "CodeBlockRuntimeError"); exact Hs0.
    + assert (Hfr : frame_ok true fr) by (exists c; split; [reflexivity | lia]).
      destruct (IH (S fuel)) as (_ & _ & IHexec' & _); [lia |].
      pose proof (IHexec' true fr s0 orelse Hfr Hs0 Horelse) as H2.
      destruct (exec (S fuel) m fr s0 orelse) as [s2 [[| w] | x |]]; try exact H2.
      now apply (IHexec' true).
Qed.

(** No run of a well-formed module enters a function with a count above
    101. *)
Lemma run_bounded (fuel : nat) (t : symtables) :
  Forall depth_ok (entered (run fuel m t).1).
Proof.
  unfold run. destruct (run_body m) as [suite |] eqn:Hrun; [| constructor].
  destruct Hm as [_ Hsuite].
  destruct (bounded_depth_step fuel) as (_ & _ & Hexec & _).
  pose proof (Hexec false (mkframe [] None) (mkstate t []) suite I
                (Forall_nil_2 depth_ok) (Hsuite suite Hrun)) as H.
  destruct (exec fuel m _ _ suite) as [s1 [[| v] | x |]]; exact H.
Qed.

End BoundedDepth.

Section RegisteredBlocks.
Context {host : PyHost}.
Import Python CodeBlock.

(** No run of a registered block enters a function with a count above
    101. *)
Lemma registered_blocks_bound_the_depth
        (eng eng' : LanguageEngine.t) (block_name code_string : string)
        (r : LanguageEngine.runnable) (fuel : nat) (t : symtables) :
  101 <= sys_maxint ->
  uncompiled (LanguageEngine.functionmap eng) ->
  LanguageEngine.register_code_block eng block_name code_string = (eng', Ok ()) ->
  LanguageEngine.code_blocks eng' !! block_name = Some r ->
  Forall depth_ok (entered (run fuel (LanguageEngine.module_context r) t).1).
Proof.
  intros Hmax Hfm. unfold LanguageEngine.register_code_block.
  destruct (LanguageEngine.code_blocks eng !! block_name); [discriminate |].
  destruct (_ ← LanguageEngine.wrap_code_block _ _ _; _) as [r' | |] eqn:Hreg;
    try discriminate.
  intros [= <-]. cbn. rewrite lookup_insert_eq. intros [= <-].
  apply bind_Ok in Hreg as (cb & Hwrap & Hreg).
  apply bind_Ok in Hreg as (m & Hload & [= <-]). cbn.
  apply run_bounded; [exact Hmax |].
  eapply load_ok; [| exact Hload]. eapply wrap_code_block_ok; eauto.
Qed.

End RegisteredBlocks.

Section DepthCounter.
Context {host : PyHost}.
Import CodeBlock Python.

Lemma c_long_bound : c_long host -> 101 <= sys_maxint.
Proof. intros [H | H]; rewrite H; lia. Qed.

(** The engine starts with no compiled function in its table, and no
    method of the engine writes to the table. *)
Lemma engine_table_uncompiled : uncompiled (LanguageEngine.functionmap LanguageEngine.init).
Proof.
  unfold uncompiled, LanguageEngine.init. cbn [LanguageEngine.functionmap].
  repeat (apply map_Forall_insert_2; [reflexivity |]). apply map_Forall_empty.
Qed.

Lemma engine_table_fixed (fuel : nat) (eng : LanguageEngine.t)
      (block_name code_string : string) (local_symbol_table : local_table) :
  LanguageEngine.functionmap
    (LanguageEngine.register_code_block eng block_name code_string).1
  = LanguageEngine.functionmap eng
  /\ LanguageEngine.functionmap
       (LanguageEngine.execute_code_block fuel eng block_name local_symbol_table).1.1
     = LanguageEngine.functionmap eng
  /\ LanguageEngine.functionmap (LanguageEngine.unregister_code_block eng block_name)
     = LanguageEngine.functionmap eng.
Proof.
  unfold LanguageEngine.register_code_block, LanguageEngine.execute_code_block,
    LanguageEngine.unregister_code_block.
  destruct (LanguageEngine.code_blocks eng !! block_name) as [r |].
  - destruct (run _ _ _) as [s res]. repeat split.
  - destruct (_ ← LanguageEngine.wrap_code_block _ _ _; _); repeat split.
Qed.

(** A call whose count is above the ceiling ends in the guard, with what
    the name of the exception is in the frame of the call. *)
Lemma call_above_the_ceiling (fuel : nat) (m : module) (f : compiled_function)
      (s : state) (function_name : string) (args : list value) (c : Z) :
  guarded function_name f -> length args = length (cf_params f) -> 100 < c ->
  call (S (S (S fuel))) m f s (args ++ [VNum (NInt c)])
  = (mkstate (tables s) (entered s ++ [VNum (NInt c)]),
     Raise (if bool_decide ("CodeBlockRuntimeError" ∈ cf_params f) then TypeError
            else if imported m then depth_exceeded function_name
                 else NameError)).
Proof.
  intros (dead & orelse & rest & Hg) Hlen Hc.
  rewrite (call_binds_count _ m f s args [VNum (NInt c)] Hlen) by (simpl; lia).
  cbn [head default]. rewrite Hg.
  rewrite (guard_raises_exactly_above_the_ceiling fuel m
             (mkframe (zip (cf_params f) args) (Some (VNum (NInt c)))) _
             function_name dead orelse rest c eq_refl).
  replace (c >? 100) with true by (symmetry; apply Z.gtb_lt; lia).
  destruct (local_zip (cf_params f) args "CodeBlockRuntimeError"
              (Some (VNum (NInt c))) Hlen) as [Hin Hnot].
  case_bool_decide as Hp.
  - destruct (Hin Hp) as [v ->]. reflexivity.
  - rewrite (Hnot Hp). destruct (imported m); reflexivity.
Qed.

(** The modules of the blocks an engine holds stay well-formed through
    the calls of its methods. *)
Lemma served_modules_ok (reqs : list request) (eng : LanguageEngine.t) :
  uncompiled (LanguageEngine.functionmap eng) ->
  map_Forall (fun _ r => module_ok (LanguageEngine.module_context r))
             (LanguageEngine.code_blocks eng) ->
  map_Forall (fun _ r => module_ok (LanguageEngine.module_context r))
             (LanguageEngine.code_blocks (served eng reqs)).
Proof.
  revert eng. induction reqs as [| req reqs IH]; intros eng Hfm Hok; [exact Hok |].
  cbn [served fold_left]. fold (served (serve eng req) reqs).
  destruct req as [block_name code_string | fuel block_name l | block_name];
    cbn [serve]; apply IH.
  - now rewrite (proj1 (engine_table_fixed 0 eng block_name code_string LocalNone)).
  - unfold LanguageEngine.register_code_block.
    destruct (LanguageEngine.code_blocks eng !! block_name); [exact Hok |].
    destruct (_ ← LanguageEngine.wrap_code_block _ _ _; _) as [r | |] eqn:Hreg;
      try exact Hok.
    cbn. apply map_Forall_insert_2; [| exact Hok].
    apply bind_Ok in Hreg as (cb & Hwrap & Hreg).
    apply bind_Ok in Hreg as (m & Hload & [= <-]). cbn.
    eapply load_ok; [| exact Hload]. eapply wrap_code_block_ok; eauto.
  - now rewrite (proj1 (proj2 (engine_table_fixed fuel eng block_name "" l))).
  - unfold LanguageEngine.execute_code_block.
    destruct (LanguageEngine.code_blocks eng !! block_name); [| exact Hok].
    destruct (run _ _ _) as [s res]. exact Hok.
  - now rewrite (proj2 (proj2 (engine_table_fixed 0 eng block_name "" LocalNone))).
  - unfold LanguageEngine.unregister_code_block.
    destruct (LanguageEngine.code_blocks eng !! block_name); [| exact Hok].
    cbn. now apply map_Forall_delete.
Qed.

(** C4: a call site passes [_symbols] and the operands, and inside a
    function body also [count+1], whose value is the count of the frame
    plus one; a call that passes the declared arguments only binds
    [count] to its default 0; the body of every function that
    [pushFuncBlock] compiles opens with the guard and takes the declared
    parameters.  The guard raises exactly when [count] is above 100,
    before anything of the body runs, and what it raises is the value of
    [CodeBlockRuntimeError(...)] in the frame: the call-depth failure when
    no parameter of the function has that name, and [TypeError] when one
    has, the name being then the parameter.  No run of a block held by an
    engine that [LanguageEngine()] made enters a function with a count
    above 101.  The function that calls itself unconditionally is entered
    with the counts 0, 1, ..., 101 and ends with the call-depth failure,
    raised by the frame whose count is 101; with its parameter named
    [CodeBlockRuntimeError] it is entered with the same counts and ends
    with [TypeError]. *)
Theorem recursion_depth_counter :
  c_long host ->
  (forall functionmap func_name symbol op entry below params,
      let opname := if SYMBOL_RE_match op then drop1 op else op in
      dict_get OPERATOR_FUNCTIONS opname = None ->
      functionmap !! opname = Some entry ->
      length (arglist entry) = length params ->
      assemble functionmap func_name symbol [Str op] (below ++ params)
      = Ok (below ++ [mkop (result_tag ("userfunc_" +:+ opname) params)
                           (ECall ("userfunc_" +:+ opname)
                                  (ESymbols :: map val params
                                     ++ if named func_name then [ECountSucc] else []))]))
  /\ (forall fuel m fr s c,
         fr_count fr = Some (VNum (NInt c)) -> 0 <= c <= 100 ->
         eval (S fuel) m fr s ECountSucc = (s, Ok (VNum (NInt (c + 1)))))
  /\ (forall fuel m f s args extra,
         length args = length (cf_params f) -> (length extra <= 1)%nat ->
         let count := default (VNum (NInt 0)) (head extra) in
         call (S fuel) m f s (args ++ extra)
         = match exec fuel m (mkframe (zip (cf_params f) args) (Some count))
                        (mkstate (tables s) (entered s ++ [count])) (cf_body f) with
           | (s1, Ok (Returned v)) => (s1, Ok v)
           | (s1, Ok Normal) => (s1, Ok VNone)
           | (s1, Raise x) => (s1, Raise x)
           | (s1, OutOfFuel) => (s1, OutOfFuel)
           end)
  /\ (forall cb cb' toks f,
         pushFuncBlock cb toks = Ok cb' -> function_name cb = Some f ->
         exists e code,
           CodeBlock.functionmap cb' !! f = Some e /\ compiled e = Some code
           /\ guarded f code /\ cf_params code = map arg_name (arglist e))
  /\ (forall fuel m fr s function_name dead orelse rest c,
         fr_count fr = Some (VNum (NInt c)) -> c <= 100 ->
         exec (S (S fuel)) m fr s
              (SIf (ECountAbove 100) (SRaise function_name :: dead) orelse :: rest)
         = match exec (S fuel) m fr s orelse with
           | (s2, Ok Normal) => exec (S fuel) m fr s2 rest
           | r => r
           end)
  /\ (forall fuel m f s function_name args c,
         guarded function_name f -> length args = length (cf_params f) -> 100 < c ->
         let entered_f := mkstate (tables s) (entered s ++ [VNum (NInt c)]) in
         ("CodeBlockRuntimeError" ∉ cf_params f -> imported m = true ->
          call (S (S (S fuel))) m f s (args ++ [VNum (NInt c)])
          = (entered_f, Raise (depth_exceeded function_name)))
         /\ ("CodeBlockRuntimeError" ∈ cf_params f ->
             call (S (S (S fuel))) m f s (args ++ [VNum (NInt c)])
             = (entered_f, Raise TypeError)))
  /\ (forall reqs block_name r fuel t,
         LanguageEngine.code_blocks (served LanguageEngine.init reqs) !! block_name
         = Some r ->
         Forall depth_ok (entered (run fuel (LanguageEngine.module_context r) t).1))
  /\ entered_counts endless
     = Ok (Raise (depth_exceeded "f"), (fun c => VNum (NInt c)) <$> seqZ 0 102)
  /\ entered_counts hidden_guard
     = Ok (Raise TypeError, (fun c => VNum (NInt c)) <$> seqZ 0 102).
Proof.
  intros H.
  split; [exact call_site |].
  split.
  { intros fuel m fr s c Hfr Hc. cbn [eval]. unfold count_of. rewrite Hfr.
    cbn [mbind outcome_bind]. now rewrite (count_succ (c_long_bound H)). }
  split; [exact call_binds_count |].
  split; [exact pushFuncBlock_guard |].
  split.
  { intros fuel m fr s function_name dead orelse rest c Hfr Hc.
    rewrite (guard_raises_exactly_above_the_ceiling _ _ _ _ _ _ _ _ c Hfr).
    now replace (c >? 100) with false
      by (symmetry; rewrite Z.gtb_ltb; apply Z.ltb_ge; lia). }
  split.
  { intros fuel m f s function_name args c Hg Hlen Hc entered_f. subst entered_f.
    rewrite (call_above_the_ceiling fuel m f s function_name args c Hg Hlen Hc).
    split.
    - intros Hp ->. now rewrite bool_decide_eq_false_2.
    - intros Hp. now rewrite bool_decide_eq_true_2. }
  split.
  { intros reqs block_name r fuel t Hr.
    apply run_bounded; [exact (c_long_bound H) |].
    exact (served_modules_ok reqs LanguageEngine.init engine_table_uncompiled
             (map_Forall_empty _) block_name r Hr). }
  split; run_on_c_long H.
Qed.

End DepthCounter.

Lemma recursion_depth_counter_witness :
  entered_counts (host := cpython64) endless
  = Ok (Raise (depth_exceeded "f"), (fun c => VNum (NInt c)) <$> seqZ 0 102)
  /\ entered_counts (host := cpython64) hidden_guard
     = Ok (Raise TypeError, (fun c => VNum (NInt c)) <$> seqZ 0 102).
Proof.
  exact (proj2 (proj2 (proj2 (proj2 (proj2 (proj2 (proj2
           (recursion_depth_counter (host := cpython64) c_long_cpython64)))))))).
Defined.

(* ===================================================================== *)
(** * Further results on the symbol table                                  *)
(* ===================================================================== *)

Section SymbolTableWrites.
Context {host : PyHost}.
Import SymbolTable.

Lemma setitem_consts (st : SymbolTable.t) (item : string) (val : value) :
  consts (setitem st item val) = consts st.
Proof. unfold setitem. now destruct (consts st !! item). Qed.

Lemma setitem_callback (st : SymbolTable.t) (item : string) (val : value) :
  sym_change_callback (setitem st item val) = sym_change_callback st.
Proof. unfold setitem. now destruct (consts st !! item). Qed.

Lemma writes_consts (ws : list (string * value)) (st : SymbolTable.t) :
  consts (writes st ws) = consts st.
Proof.
  revert st. induction ws as [| w ws IH]; intros st; [reflexivity |].
  cbn [writes fold_left]. fold (writes (setitem st w.1 w.2) ws).
  now rewrite IH, setitem_consts.
Qed.

Lemma writes_snoc (ws : list (string * value)) (w : string * value) (st : SymbolTable.t) :
  writes st (ws ++ [w]) = setitem (writes st ws) w.1 w.2.
Proof. unfold writes. now rewrite fold_left_app. Qed.

(** X1: a constant keeps its value: no sequence of [__setitem__] calls
    changes the dictionary of the constants, and a name that [setConstant]
    gave a value reads as that value after any such sequence. *)
Theorem a_constant_keeps_its_value (st : SymbolTable.t) (constant_name : string)
        (constant_value : value) (ws : list (string * value)) :
  consts (writes st ws) = consts st
  /\ getitem (writes (setConstant st constant_name constant_value) ws) constant_name
     = constant_value.
Proof.
  split; [apply writes_consts |].
  unfold getitem. rewrite writes_consts. cbn [setConstant consts].
  now rewrite lookup_insert_eq.
Qed.

Lemma getitem_setitem (st : SymbolTable.t) (k item : string) (v : value) :
  consts st !! item = None ->
  getitem (setitem st k v) item = if decide (k = item) then v else getitem st item.
Proof.
  intros Hc. unfold getitem, setitem.
  destruct (consts st !! k) eqn:Hk.
  - rewrite Hc. case_decide as Heq; [| reflexivity]. rewrite Heq in Hk. congruence.
  - cbn [consts vars]. rewrite Hc. case_decide as Heq.
    + rewrite Heq. now rewrite lookup_insert_eq.
    + now rewrite lookup_insert_ne.
Qed.

(** X2: a name that is not a constant reads as the value of the last
    [__setitem__] on it, and as it read before when the sequence holds no
    write to it. *)
Theorem the_last_write_wins (st : SymbolTable.t) (item : string)
        (ws : list (string * value)) :
  consts st !! item = None ->
  getitem (writes st ws) item = default (getitem st item) (last_written item ws).
Proof.
  intros Hc. induction ws as [| w ws IH] using rev_ind; [reflexivity |].
  rewrite writes_snoc, getitem_setitem by (now rewrite writes_consts).
  unfold last_written. rewrite filter_app.
  case_decide as Heq.
  - rewrite filter_cons_True, filter_nil by exact Heq.
    now rewrite last_snoc.
  - rewrite filter_cons_False, filter_nil, app_nil_r by exact Heq.
    exact IH.
Qed.

(** X3: the change callback is called once for each [__setitem__] on a
    name that is not a constant, in the order of the writes and with the
    name and the value written; it is not called for a write to a
    constant, nor when no callback is installed. *)
Theorem the_callback_sees_each_write_to_a_variable (st : SymbolTable.t)
        (ws : list (string * value)) :
  notified (writes st ws)
  = notified st
      ++ (if sym_change_callback st
          then filter (fun w => consts st !! w.1 = None) ws
          else []).
Proof.
  revert st. induction ws as [| [k v] ws IH]; intros st.
  { cbn. destruct (sym_change_callback st); cbn; now rewrite app_nil_r. }
  cbn [writes fold_left fst snd]. fold (writes (setitem st k v) ws).
  rewrite IH, setitem_callback, setitem_consts.
  unfold setitem. destruct (consts st !! k) eqn:Hw.
  - rewrite filter_cons_False by (cbn; rewrite Hw; discriminate). reflexivity.
  - rewrite filter_cons_True by exact Hw. cbn [notified].
    destruct (sym_change_callback st); [| reflexivity].
    now rewrite <- app_assoc.
Qed.

(** X4: [keys()] lists a name exactly when the variables or the
    constants hold it, and has one entry for each entry of the two
    dictionaries (a name that both hold is listed twice); a name that
    [keys()] does not list reads as the value of an uninitialised symbol. *)
Theorem keys_lists_both_dictionaries (st : SymbolTable.t) (item : string) :
  (item ∈ keys st <-> is_Some (vars st !! item) \/ is_Some (consts st !! item))
  /\ length (keys st) = (size (vars st) + size (consts st))%nat
  /\ (item ∉ keys st -> getitem st item = DEFAULT_UNINITIALIZED_VALUE).
Proof.
  assert (Hin : forall m : gmap string value,
             item ∈ (map_to_list m).*1 <-> is_Some (m !! item)).
  { intros m. rewrite list_elem_of_fmap. split.
    - intros ([k v] & -> & Hkv). apply elem_of_map_to_list in Hkv. now exists v.
    - intros [v Hv]. exists (item, v). split; [reflexivity |].
      now apply elem_of_map_to_list. }
  assert (Hkeys : item ∈ keys st
                  <-> is_Some (vars st !! item) \/ is_Some (consts st !! item)).
  { unfold keys. rewrite elem_of_app, !Hin. reflexivity. }
  split; [exact Hkeys |]. split.
  - unfold keys. rewrite length_app, !length_fmap, !length_map_to_list. reflexivity.
  - intros Hnot. unfold getitem.
    destruct (consts st !! item) eqn:Hc.
    { exfalso. apply Hnot, Hkeys. right. eauto. }
    destruct (vars st !! item) eqn:Hv; [| reflexivity].
    exfalso. apply Hnot, Hkeys. left. eauto.
Qed.

End SymbolTableWrites.

Lemma the_last_write_wins_witness :
  SymbolTable.getitem (host := cpython64)
    (writes shadowed_table
            [("y", VNum (NInt 1)); ("x", VNum (NInt 5)); ("y", VNum (NInt 2))]) "y"
  = VNum (NInt 2).
Proof.
  apply (the_last_write_wins (host := cpython64) shadowed_table "y"
           [("y", VNum (NInt 1)); ("x", VNum (NInt 5)); ("y", VNum (NInt 2))]).
  vm_compute. reflexivity.
Defined.

Lemma keys_lists_both_dictionaries_witness :
  "x" ∈ SymbolTable.keys shadowed_table
  /\ SymbolTable.getitem (host := cpython64) shadowed_table "z"
     = VNum (NInt (-9223372036854775808)).
Proof.
  split.
  - apply (proj1 (keys_lists_both_dictionaries (host := cpython64) shadowed_table "x")).
    left. exists (VNum (NInt 2)). vm_compute. reflexivity.
  - apply (proj2 (proj2 (keys_lists_both_dictionaries (host := cpython64)
                           shadowed_table "z"))).
    apply (bool_decide_eq_false_1 _). vm_compute. reflexivity.
Defined.


(* ===================================================================== *)
(** * Further results on the constant folder                               *)
(* ===================================================================== *)

Section FolderResults.
Context {host : PyHost}.
Import CodeBlock.

Lemma scan_skip (xs pre rest : list node) :
  forallb operand_token xs = true -> scan pre (xs ++ rest) = scan (pre ++ xs) rest.
Proof.
  revert pre. induction xs as [| x xs IH]; intros pre Hxs.
  { now rewrite app_nil_r. }
  cbn [forallb] in Hxs. apply andb_prop in Hxs as [Hx Hxs].
  cbn [app scan]. rewrite (IH (pre ++ [x]) Hxs), <- app_assoc. cbn [app].
  destruct x as [n | s | l |]; try reflexivity.
  cbn [operand_token] in Hx. apply andb_prop in Hx as [Hop Hminus].
  apply negb_true_iff, bool_decide_eq_false in Hop, Hminus.
  destruct (dict_get OPERATOR_FUNCTIONS s) as [sig |]; [exfalso; apply Hop; eauto |].
  case_decide; [contradiction | reflexivity].
Qed.

Lemma reduce_loop_shortens (fuel : nat) (code_line folded : list node) :
  reduce_loop fuel code_line = Ok folded ->
  folded = code_line \/ (length folded < length code_line)%nat.
Proof.
  revert code_line. induction fuel as [| fuel IH]; intros code_line; cbn [reduce_loop];
    [discriminate |].
  destruct (scan [] code_line) as [| code_line' | |] eqn:Hscan; try discriminate.
  - intros [= <-]. now left.
  - intros H. right. apply scan_shortens in Hscan. cbn in Hscan.
    destruct (IH _ H) as [-> | Hlt]; lia.
Qed.

(** X5: [reduceLine] gives the line back or a strictly shorter one, and
    a line that holds no operator token is given back as it is. *)
Theorem folding_only_shortens (code_line folded : list node) :
  (reduceLine code_line = Ok folded ->
     folded = code_line \/ (length folded < length code_line)%nat)
  /\ (forallb operand_token code_line = true -> reduceLine code_line = Ok code_line).
Proof.
  split; [apply reduce_loop_shortens |].
  intros H. unfold reduceLine. cbn [reduce_loop].
  pose proof (scan_skip code_line [] [] H) as Hs.
  rewrite app_nil_r in Hs. now rewrite Hs.
Qed.

Lemma reread_integer (z : Z) :
  exists long, reread (NInt z) = Ok (VNum (if long : bool then NLong z else NInt z)).
Proof.
  cbn [reread]. unfold int_literal.
  destruct (_ && _); [now exists false | now exists true].
Qed.

Lemma convert_int_result (la lb : bool) (z : Z) :
  (r ← convert TInt (int_result la lb z); Ok (Some r)) = Ok (Some (int_of_Z z)).
Proof.
  unfold int_result. destruct (la || lb); [reflexivity |].
  unfold int_of_Z at 1. destruct (fits_int z) eqn:Hfits; cbn; unfold int_of_Z;
    now rewrite Hfits.
Qed.

Ltac decide_names :=
  repeat first [ rewrite decide_True by reflexivity
               | rewrite decide_False by discriminate ].

Ltac fold_integers a b :=
  unfold executeOperation; cbn [dict_get OPERATOR_FUNCTIONS]; decide_names;
  destruct (reread_integer a) as [la Ha], (reread_integer b) as [lb Hb];
  cbn [mapM]; rewrite Ha, Hb; cbn [mbind outcome_bind mret outcome_ret];
  destruct la, lb; cbn [operator_call as_integer]; decide_names.

Lemma exact_operator_folds (op : string) (f : Z -> Z -> Z) (a b : Z) :
  exact_operator op = Some f ->
  executeOperation op [NInt a; NInt b] = Ok (Some (int_of_Z (f a b))).
Proof.
  unfold exact_operator. intros Hop.
  repeat (case_decide; [injection Hop as <-; subst op; fold_integers a b;
                        apply convert_int_result |]).
  discriminate Hop.
Qed.

(** X6: [executeOperation] on two [int] operands is exact: a sum, a
    difference or a product is the integer result, an [int] when the
    platform's [int] holds it and a [long] otherwise; [%] is the floored
    remainder and raises [ZeroDivisionError] for a zero divisor; a
    comparison is 1 or 0. *)
Theorem integer_folding_is_exact (a b : Z) :
  executeOperation "operator.add" [NInt a; NInt b] = Ok (Some (int_of_Z (a + b)))
  /\ executeOperation "operator.sub" [NInt a; NInt b] = Ok (Some (int_of_Z (a - b)))
  /\ executeOperation "operator.mul" [NInt a; NInt b] = Ok (Some (int_of_Z (a * b)))
  /\ executeOperation "operator.mod" [NInt a; NInt b]
     = (if b =? 0 then Raise ZeroDivisionError else Ok (Some (int_of_Z (a mod b))))
  /\ executeOperation "operator.lt" [NInt a; NInt b]
     = Ok (Some (NInt (if a <? b then 1 else 0)))
  /\ executeOperation "operator.le" [NInt a; NInt b]
     = Ok (Some (NInt (if a <=? b then 1 else 0)))
  /\ executeOperation "operator.gt" [NInt a; NInt b]
     = Ok (Some (NInt (if a >? b then 1 else 0)))
  /\ executeOperation "operator.ge" [NInt a; NInt b]
     = Ok (Some (NInt (if a >=? b then 1 else 0)))
  /\ executeOperation "operator.eq" [NInt a; NInt b]
     = Ok (Some (NInt (if a =? b then 1 else 0)))
  /\ executeOperation "operator.ne" [NInt a; NInt b]
     = Ok (Some (NInt (if a =? b then 0 else 1))).
Proof.
  repeat split.
  - now apply exact_operator_folds.
  - now apply exact_operator_folds.
  - now apply exact_operator_folds.
  - fold_integers a b; destruct (b =? 0); try reflexivity;
      apply convert_int_result.
  - fold_integers a b; reflexivity.
  - fold_integers a b; reflexivity.
  - fold_integers a b; reflexivity.
  - fold_integers a b; reflexivity.
  - fold_integers a b; reflexivity.
  - fold_integers a b; cbn; now destruct (a =? b).
Qed.

Lemma division_by_zero (op : string) (a : Z) :
  op = "operator.truediv" \/ op = "operator.mod" ->
  executeOperation op [NInt a; NInt 0] = Raise ZeroDivisionError.
Proof.
  intros [-> | ->]; fold_integers a 0; reflexivity.
Qed.

(** X7: folding a line whose first operator is the division or the
    remainder of an [int] by the literal 0 raises [ZeroDivisionError],
    whatever operands stand before and whatever follows. *)
Theorem folding_a_division_by_zero_raises (op : string) (a : Z)
        (pre rest : list node) :
  op = "operator.truediv" \/ op = "operator.mod" ->
  forallb operand_token pre = true ->
  reduceLine (pre ++ [Num (NInt a); Num (NInt 0); Str op] ++ rest)
  = Raise ZeroDivisionError.
Proof.
  intros Hop Hpre. unfold reduceLine. cbn [reduce_loop].
  replace (pre ++ [Num (NInt a); Num (NInt 0); Str op] ++ rest)
    with ((pre ++ [Num (NInt a); Num (NInt 0)]) ++ Str op :: rest)
    by (now rewrite <- app_assoc).
  rewrite scan_skip.
  2: { rewrite forallb_app, Hpre. reflexivity. }
  cbn [app scan].
  assert (Hsig : dict_get OPERATOR_FUNCTIONS op = Some ["number"; "number"])
    by (destruct Hop as [-> | ->]; reflexivity).
  rewrite Hsig. cbn [length].
  rewrite length_app. cbn [length].
  replace (2 <=? length pre + 2)%nat with true by (symmetry; apply Nat.leb_le; lia).
  replace (length pre + 2 - 2)%nat with (length pre) by lia.
  rewrite drop_app_length. cbn [mapM is_number mbind option_bind mret option_ret].
  now rewrite division_by_zero.
Qed.

Lemma reduceBlockNode_kind (x y : node) :
  reduceBlockNode x = Ok y -> same_kind x y.
Proof.
  destruct x as [n | s | l |]; cbn [reduceBlockNode same_kind]; try discriminate.
  - now intros [= <-].
  - unfold mbind, outcome_bind.
    destruct (reduce_items reduceBlockNode l) as [l' | |]; try discriminate.
    intros [= <-]. eauto.
Qed.

Lemma reduce_items_kind (f : node -> outcome node) :
  (forall x y, f x = Ok y -> same_kind x y) ->
  forall b b', reduce_items f b = Ok b' -> Forall2 same_kind b b'.
Proof.
  intros Hf b.
  assert (H : forall n b, (length b <= n)%nat ->
                          forall b', reduce_items f b = Ok b' -> Forall2 same_kind b b');
    [| now apply (H (length b))].
  clear b. induction n as [| n IH]; intros b Hlen b'.
  { destruct b; [| simpl in Hlen; lia]. intros [= <-]. constructor. }
  destruct b as [| code_line rest]; [intros [= <-]; constructor |].
  cbn [reduce_items]. destruct (is_tag code_line) as [tag |] eqn:Htag.
  - destruct rest as [| sub rest']; [discriminate |].
    unfold mbind, outcome_bind.
    destruct (f sub) as [sub' | |] eqn:Hsub; try discriminate.
    destruct (reduce_items f rest') as [rest'' | |] eqn:Hrest; try discriminate.
    intros [= <-]. constructor.
    { destruct code_line; try discriminate. reflexivity. }
    constructor; [now apply Hf |].
    apply IH; [simpl in Hlen; lia | exact Hrest].
  - unfold mbind, outcome_bind.
    destruct code_line as [x | s | l |].
    3: { destruct (reduceLine l) as [l' | |]; try discriminate.
         destruct (reduce_items f rest) as [rest'' | |] eqn:Hrest; try discriminate.
         intros [= <-]. constructor; [cbn; eauto |].
         apply IH; [simpl in Hlen; lia | exact Hrest]. }
    all: destruct (reduce_items f rest) as [rest'' | |] eqn:Hrest; try discriminate.
    all: intros [= <-]; constructor; [reflexivity |].
    all: apply IH; [simpl in Hlen; lia | exact Hrest].
Qed.

(** X8: [reduceBlock] keeps the shape of a block: as many items, every
    list still a list, every tag, string and number in its place. *)
Theorem folding_keeps_the_shape_of_a_block (block folded : list node) :
  reduceBlock block = Ok folded ->
  Forall2 same_kind block folded
  /\ length folded = length block
  /\ map is_tag folded = map is_tag block.
Proof.
  unfold reduceBlock. cbn [reduceBlockNode]. unfold mbind, outcome_bind.
  destruct (reduce_items reduceBlockNode block) as [items | |] eqn:Hitems;
    try discriminate.
  intros [= <-].
  pose proof (reduce_items_kind reduceBlockNode reduceBlockNode_kind _ _ Hitems) as H.
  split; [exact H |]. split; [symmetry; now apply Forall2_length in H |].
  clear Hitems. induction H as [| x y b b' Hxy _ IH]; [reflexivity |].
  cbn [map]. rewrite IH. f_equal.
  destruct x; cbn in Hxy; try (now rewrite Hxy).
  destruct Hxy as [l' ->]. reflexivity.
Qed.

End FolderResults.

Lemma folding_only_shortens_witness :
  (folded_sum = sum_and_product
   \/ (length folded_sum < length sum_and_product)%nat)
  /\ CodeBlock.reduceLine (host := cpython64)
       [CodeBlock.Str "_x"; CodeBlock.Str "_y"; CodeBlock.Str "="]
     = Ok [CodeBlock.Str "_x"; CodeBlock.Str "_y"; CodeBlock.Str "="].
Proof.
  split.
  - apply (proj1 (folding_only_shortens (host := cpython64) sum_and_product folded_sum)).
    vm_compute. reflexivity.
  - apply (proj2 (folding_only_shortens (host := cpython64)
                    [CodeBlock.Str "_x"; CodeBlock.Str "_y"; CodeBlock.Str "="] [])).
    vm_compute. reflexivity.
Defined.

Lemma folding_a_division_by_zero_raises_witness :
  CodeBlock.reduceLine (host := cpython64)
    ([CodeBlock.Str "_x"]
       ++ [CodeBlock.Num (NInt 1); CodeBlock.Num (NInt 0); CodeBlock.Str "operator.truediv"]
       ++ [CodeBlock.Str "="])
  = Raise ZeroDivisionError.
Proof.
  apply (folding_a_division_by_zero_raises (host := cpython64) "operator.truediv" 1
           [CodeBlock.Str "_x"] [CodeBlock.Str "="]).
  - left. reflexivity.
  - vm_compute. reflexivity.
Defined.

Lemma folding_keeps_the_shape_of_a_block_witness :
  length folded_conditional = length conditional
  /\ map CodeBlock.is_tag folded_conditional = map CodeBlock.is_tag conditional.
Proof.
  refine (proj2 (folding_keeps_the_shape_of_a_block (host := cpython64)
                   conditional folded_conditional _)).
  vm_compute. reflexivity.
Defined.

Section Overflow.
Context {host : PyHost}.
Import Python CodeBlock.

(** X9: a statement that assigns the sum, the difference or the product
    of two [int] literals, when the platform's [int] does not hold the
    result, folds to the assignment of a [long], and [toPythonLine] raises
    [TypeError] on the folded statement. *)
Theorem an_overflowing_constant_cannot_be_compiled
        (functionmap : gmap string func_entry) (func_name : option string)
        (symbol op : string) (f : Z -> Z -> Z) (a b : Z) (col : nat) :
  operand_token (Str symbol) = true ->
  exact_operator op = Some f ->
  fits_int (f a b) = false ->
  reduceLine (binary_statement symbol a b op)
  = Ok [Str symbol; Num (NLong (f a b)); Str "="]
  /\ toPythonLine functionmap func_name
       (Lst [Str symbol; Num (NLong (f a b)); Str "="]) col
     = Raise TypeError.
Proof.
  intros Hsym Hop Hfits. split.
  - unfold reduceLine, binary_statement. cbn [length reduce_loop].
    change [Str symbol; Num (NInt a); Num (NInt b); Str op; Str "="]
      with ([Str symbol; Num (NInt a); Num (NInt b)] ++ Str op :: [Str "="]).
    rewrite scan_skip by (cbn [forallb]; now rewrite Hsym).
    cbn [app scan].
    assert (Hsig : dict_get OPERATOR_FUNCTIONS op = Some ["number"; "number"]).
    { unfold exact_operator in Hop.
      repeat (case_decide; [subst op; reflexivity |]). discriminate Hop. }
    rewrite Hsig.
    cbn [length Nat.leb Nat.sub drop take mapM is_number mbind option_bind mret option_ret
         fmap option_fmap option_map].
    rewrite (exact_operator_folds op f a b Hop).
    cbn [node_of_result app]. unfold int_of_Z. rewrite Hfits.
    change [Str symbol; Num (NLong (f a b)); Str "="]
      with ([Str symbol; Num (NLong (f a b)); Str "="] ++ []).
    rewrite scan_skip by (cbn [forallb]; now rewrite Hsym).
    reflexivity.
  - unfold toPythonLine, assembled. cbn [line_items mbind outcome_bind].
    unfold line_head. cbn [last]. reflexivity.
Qed.

End Overflow.

Lemma an_overflowing_constant_cannot_be_compiled_witness :
  CodeBlock.reduceLine (host := cpython64)
    (binary_statement "_x" 9223372036854775807 1 "operator.add")
  = Ok [CodeBlock.Str "_x"; CodeBlock.Num (NLong (9223372036854775807 + 1));
        CodeBlock.Str "="]
  /\ CodeBlock.toPythonLine ∅ None
       (CodeBlock.Lst [CodeBlock.Str "_x";
                       CodeBlock.Num (NLong (9223372036854775807 + 1));
                       CodeBlock.Str "="]) 0
     = Raise TypeError.
Proof.
  apply (an_overflowing_constant_cannot_be_compiled (host := cpython64) ∅ None
           "_x" "operator.add" Z.add 9223372036854775807 1 0).
  - vm_compute. reflexivity.
  - vm_compute. reflexivity.
  - vm_compute. reflexivity.
Defined.


(* ===================================================================== *)
(** * Further results on the builder                                       *)
(* ===================================================================== *)

Ltac no_member H :=
  repeat (apply elem_of_cons in H as [H | H]; [discriminate H |]);
  now apply elem_of_nil in H.


Section Declarations.
Import CodeBlock.

Lemma not_a_comma (a : funcarg) :
  parameter a = true ->
  ptok_is (PStr (arg_type a)) "," = false /\ ptok_is (PStr (arg_name a)) "," = false.
Proof.
  unfold parameter. intros H. apply andb_prop in H as [Ht Hn].
  apply bool_decide_eq_true in Ht. apply negb_true_iff in Hn.
  split; [| exact Hn]. cbn [ptok_is]. apply bool_decide_eq_false.
  intros Heq. rewrite Heq in Ht. no_member Ht.
Qed.

Lemma filter_parameter_tokens (args : list funcarg) :
  forallb parameter args = true ->
  filter (fun item => ptok_is item "," = false) (parameter_tokens args)
  = concat (map (fun a => [PStr (arg_type a); PStr (arg_name a)]) args).
Proof.
  induction args as [| a rest IH]; [reflexivity |].
  cbn [forallb]. intros H. apply andb_prop in H as [Ha Hrest].
  destruct (not_a_comma a Ha) as [Ht Hn].
  cbn [parameter_tokens map concat app].
  rewrite filter_cons_True by exact Ht. rewrite filter_cons_True by exact Hn.
  do 2 f_equal. destruct rest as [| b rest']; [reflexivity |].
  rewrite filter_cons_False by (cbn; discriminate).
  now apply IH.
Qed.

Lemma declared_args_parameters (func_name : string) (args acc : list funcarg) :
  forallb parameter args = true ->
  declared_args func_name
    (concat (map (fun a => [PStr (arg_type a); PStr (arg_name a)]) args)) None acc
  = Ok (acc ++ args).
Proof.
  revert acc. induction args as [| a rest IH]; intros acc.
  { intros _. cbn. now rewrite app_nil_r. }
  cbn [forallb]. intros H. apply andb_prop in H as [Ha Hrest].
  destruct (not_a_comma a Ha) as [Ht Hn].
  unfold parameter in Ha. apply andb_prop in Ha as [Htype _].
  apply bool_decide_eq_true in Htype.
  cbn [map concat app declared_args]. rewrite Ht, Hn. cbn [ptok_str].
  assert (Hin : str_in (arg_type a) ["void"; "number"; "string"] = true).
  { apply elem_of_cons in Htype as [Heq | Htype]; [now rewrite Heq |].
    apply elem_of_cons in Htype as [Heq | Htype]; [now rewrite Heq |].
    now apply elem_of_nil in Htype. }
  assert (Hvoid : arg_type a <> "void").
  { intros Heq. rewrite Heq in Htype. no_member Htype. }
  rewrite Hin. rewrite !decide_False by exact Hvoid.
  rewrite (IH (acc ++ [mkarg (arg_type a) (arg_name a)]) Hrest).
  rewrite <- app_assoc. now destruct a.
Qed.

(** X10: [pushFuncArgs] on the declaration of a name that [functionmap]
    holds raises the redefinition error; on a new name it enters the
    declared parameters in their order, or none for [void], with an empty
    block, points [stack] and [frame] at that block and sets
    [function_name]. *)
Theorem a_declaration_enters_the_function_table (cb : CodeBlock.t) (func_name : string)
        (a : funcarg) (args : list funcarg) :
  func_name <> "," ->
  (is_Some (functionmap cb !! func_name) ->
     pushFuncArgs cb (declaration func_name (a :: args))
     = Raise (ParseFatalException
                ("Redefinition of existing function '" +:+ func_name +:+ "'")))
  /\ (functionmap cb !! func_name = None ->
      forallb parameter (a :: args) = true ->
      pushFuncArgs cb (declaration func_name (a :: args))
      = Ok (declared cb func_name (a :: args)))
  /\ (functionmap cb !! func_name = None ->
      pushFuncArgs cb [PGroup [PStr func_name; PStr "void"]]
      = Ok (declared cb func_name [])).
Proof.
  intros Hname.
  assert (Hfirst : forall items,
             filter (fun item => ptok_is item "," = false)
                    (flat_items [PGroup (PStr func_name :: items)])
             = PStr func_name :: filter (fun item => ptok_is item "," = false) items).
  { intros items. unfold flat_items. cbn [map concat]. rewrite app_nil_r.
    apply filter_cons_True. cbn [ptok_is]. now apply bool_decide_eq_false. }
  split; [| split].
  - intros Hknown. unfold pushFuncArgs, declaration. rewrite Hfirst. cbn [ptok_str].
    now rewrite bool_decide_eq_true_2.
  - intros Hnew Hargs. unfold pushFuncArgs, declaration. rewrite Hfirst. cbn [ptok_str].
    rewrite bool_decide_eq_false_2 by (rewrite Hnew; intros [? ?]; discriminate).
    rewrite filter_parameter_tokens, declared_args_parameters by exact Hargs.
    cbn [app mbind outcome_bind].
    cbn [forallb] in Hargs. apply andb_prop in Hargs as [Ha _].
    unfold parameter in Ha. apply andb_prop in Ha as [Htype _].
    apply bool_decide_eq_true in Htype.
    rewrite decide_False; [reflexivity |].
    intros Heq. rewrite Heq in Htype. no_member Htype.
  - intros Hnew. unfold pushFuncArgs. rewrite Hfirst. cbn [ptok_str].
    rewrite bool_decide_eq_false_2 by (rewrite Hnew; intros [? ?]; discriminate).
    reflexivity.
Qed.

End Declarations.

Lemma a_declaration_enters_the_function_table_witness :
  CodeBlock.pushFuncArgs fresh_builder
    (declaration "distance" [CodeBlock.mkarg "number" "a"])
  = Raise (ParseFatalException "Redefinition of existing function 'distance'")
  /\ CodeBlock.pushFuncArgs fresh_builder
       (declaration "area" [CodeBlock.mkarg "number" "w"; CodeBlock.mkarg "number" "h"])
     = Ok (declared fresh_builder "area"
                    [CodeBlock.mkarg "number" "w"; CodeBlock.mkarg "number" "h"])
  /\ CodeBlock.pushFuncArgs fresh_builder
       [CodeBlock.PGroup [CodeBlock.PStr "now"; CodeBlock.PStr "void"]]
     = Ok (declared fresh_builder "now" []).
Proof.
  split; [| split].
  - apply (a_declaration_enters_the_function_table
             fresh_builder "distance" (CodeBlock.mkarg "number" "a") []).
    + discriminate.
    + vm_compute. eexists. reflexivity.
  - apply (a_declaration_enters_the_function_table
             fresh_builder "area" (CodeBlock.mkarg "number" "w")
             [CodeBlock.mkarg "number" "h"]).
    + discriminate.
    + vm_compute. reflexivity.
    + vm_compute. reflexivity.
  - apply (a_declaration_enters_the_function_table
             fresh_builder "now" (CodeBlock.mkarg "number" "a") []).
    + discriminate.
    + vm_compute. reflexivity.
Defined.

Section Nesting.
Import CodeBlock.

Lemma mid_lookup {A : Type} (pre : list A) (b : A) (tail : list A) :
  (pre ++ b :: tail) !! length pre = Some b.
Proof. induction pre; [reflexivity | exact IHpre]. Qed.

Lemma mid_insert {A : Type} (pre : list A) (b x : A) (tail : list A) :
  <[length pre := x]> (pre ++ b :: tail) = pre ++ x :: tail.
Proof. induction pre as [| a pre IH]; [reflexivity | simpl; now f_equal]. Qed.

Lemma next_lookup {A : Type} (pre : list A) (b c : A) (tail : list A) :
  (pre ++ b :: c :: tail) !! S (length pre) = Some c.
Proof. induction pre; [reflexivity | exact IHpre]. Qed.

Lemma next_insert {A : Type} (pre : list A) (b c x : A) (tail : list A) :
  <[S (length pre) := x]> (pre ++ b :: c :: tail) = pre ++ b :: x :: tail.
Proof. induction pre as [| a pre IH]; [reflexivity | simpl; now f_equal]. Qed.

Lemma next_delete {A : Type} (pre : list A) (b c : A) (tail : list A) :
  delete (S (length pre)) (pre ++ b :: c :: tail) = pre ++ b :: tail.
Proof. induction pre as [| a pre IH]; [reflexivity | simpl; now f_equal]. Qed.

(** The statements of a block that is open at [i] go to that block. *)
Lemma appended_inner (body : list node) (cb : CodeBlock.t) (pre : list (list node))
      (b : list node) (tail : list (list node)) :
  stack cb = AtInner (length pre) -> inner_blocks cb = pre ++ b :: tail ->
  appended body cb
  = Ok (set_inner cb (pre ++ (b ++ body) :: tail) (inner_block_count cb)).
Proof.
  revert cb b. induction body as [| x body IH]; intros cb b Hstack Hinner.
  { cbn [appended]. rewrite app_nil_r, <- Hinner. now destruct cb. }
  cbn [appended]. unfold stack_append, inner_append. rewrite Hstack, Hinner, mid_lookup.
  cbn [mbind outcome_bind]. rewrite mid_insert.
  rewrite (IH _ (b ++ [x])); [| exact Hstack | reflexivity].
  cbn. now rewrite <- app_assoc.
Qed.

Lemma appended_first (body : list node) (cb : CodeBlock.t) (b : list node) :
  stack cb = AtInner 0 -> inner_blocks cb = [b] ->
  appended body cb = Ok (set_inner cb [b ++ body] (inner_block_count cb)).
Proof. intros Hstack Hinner. now apply (appended_inner body cb [] b []). Qed.

Lemma ok_bind {A B : Type} (a : A) (k : A -> outcome B) : (Ok a ≫= k) = k a.
Proof. reflexivity. Qed.

Ltac builder :=
  repeat first
    [ progress unfold set_outer, set_inner, set_stack, set_scratch, set_functionmap,
        set_block, stack_append, inner_append, frame_append, stack_block, frame_block, del
    | progress cbn [name outer_block inner_blocks stack frame scratch inner_block_count
                    function_name functionmap arglist block compiled ptok_str
                    length Nat.ltb Nat.leb Nat.sub app
                    lookup list_lookup insert list_insert delete list_delete]
    | rewrite ok_bind ].

(** X11: between two statements, the actions of a conditional
    ([pushIfCond], [pushComparison] when the keyword has a comparison, the
    statements of the block, [pushConditionalBlock]) amount to appending the
    tag and the block to [stack]; the number of open blocks and [stack] are
    afterwards what they were, at every depth of nesting. *)
Theorem a_conditional_leaves_the_nesting_as_it_was
        (compared : bool) (keyword : string) (body : list node) (cb cb' : CodeBlock.t) :
  between_statements cb ->
  conditional_actions compared keyword body cb
  = conditional_appended compared keyword body cb
  /\ (conditional_actions compared keyword body cb = Ok cb' ->
      between_statements cb'
      /\ inner_block_count cb' = inner_block_count cb
      /\ stack cb' = stack cb).
Proof.
  intros [Hcount Hstack].
  destruct cb as [nm outer ib st fr scr cnt fn fm]. cbn in Hcount, Hstack. subst cnt st.
  destruct ib as [| b0 ib0] using rev_ind.
  - (* no block is open: the container is the frame *)
    clear. cbn [length].
    assert (Heq : conditional_actions compared keyword body
                    (mkblock nm outer [] (AtFrame fr) fr scr 0 fn fm)
                  = conditional_appended compared keyword body
                      (mkblock nm outer [] (AtFrame fr) fr scr 0 fn fm)).
    { unfold conditional_actions, conditional_appended, pushIfCond, pushComparison,
        pushConditionalBlock.
      destruct fr as [| f].
      + destruct compared; builder.
        * rewrite (appended_first body _ [Lst scr]); [| reflexivity | reflexivity].
          builder. reflexivity.
        * rewrite (appended_first body _ []); [| reflexivity | reflexivity].
          builder. reflexivity.
      + builder. destruct (fm !! f) as [e |] eqn:Hf; [| reflexivity].
        destruct compared; builder.
        * rewrite (appended_first body _ [Lst scr]); [| reflexivity | reflexivity].
          builder. rewrite !lookup_insert_eq. builder. reflexivity.
        * rewrite (appended_first body _ []); [| reflexivity | reflexivity].
          builder. rewrite !lookup_insert_eq. builder. reflexivity. }
    split; [exact Heq |]. rewrite Heq. clear Heq.
    unfold conditional_appended.
    destruct fr as [| f]; builder.
    + destruct compared; intros [= <-]; repeat split.
    + destruct (fm !! f) as [e |]; [| discriminate]. builder.
      rewrite lookup_insert_eq. builder.
      destruct compared; intros [= <-]; repeat split.
  - (* the container is the innermost open block *)
    clear IHib0. rename ib0 into pre.
    assert (Hlen : forall x : list node, length (pre ++ [x]) = S (length pre))
      by (intros x; rewrite length_app; cbn; lia).
    assert (Hlen2 : forall x y : list node, length (pre ++ [x; y]) = S (S (length pre)))
      by (intros x y; rewrite length_app; cbn; lia).
    rewrite Hlen.
    assert (Heq : conditional_actions compared keyword body
                    (mkblock nm outer (pre ++ [b0]) (AtInner (length pre)) fr scr
                             (S (length pre)) fn fm)
                  = conditional_appended compared keyword body
                      (mkblock nm outer (pre ++ [b0]) (AtInner (length pre)) fr scr
                               (S (length pre)) fn fm)).
    { unfold conditional_actions, conditional_appended, pushIfCond, pushComparison,
        pushConditionalBlock.
      builder. rewrite !Hlen. builder. rewrite Nat.sub_0_r, !mid_lookup. builder.
      rewrite !mid_insert, !mid_lookup. builder. rewrite !mid_insert.
      rewrite <- !app_assoc. builder. rewrite !Hlen2. builder.
      destruct compared; builder.
      * rewrite next_lookup. builder. rewrite next_insert.
        rewrite (appended_inner body _ (pre ++ [b0 ++ [Str ("_" +:+ keyword)]])
                   [Lst scr] []).
        2: { builder. now rewrite Hlen. }
        2: { builder. now rewrite <- app_assoc. }
        builder. rewrite <- !app_assoc. builder.
        rewrite next_lookup. builder. rewrite Nat.sub_0_r, mid_lookup. builder.
        rewrite mid_insert, Hlen2, next_delete.
        rewrite Nat.leb_refl. builder. now rewrite <- app_assoc.
      * rewrite (appended_inner body _ (pre ++ [b0 ++ [Str ("_" +:+ keyword)]])
                   [] []).
        2: { builder. now rewrite Hlen. }
        2: { builder. now rewrite <- app_assoc. }
        builder. rewrite <- !app_assoc. builder.
        rewrite next_lookup. builder. rewrite Nat.sub_0_r, mid_lookup. builder.
        rewrite mid_insert, Hlen2, next_delete.
        rewrite Nat.leb_refl. builder. now rewrite <- app_assoc. }
    split; [exact Heq |]. rewrite Heq. clear Heq.
    unfold conditional_appended. builder. rewrite mid_lookup. builder.
    rewrite mid_insert, mid_lookup. builder. rewrite mid_insert.
    destruct compared; intros [= <-]; unfold between_statements; builder;
      rewrite Hlen; repeat split.
Qed.

End Nesting.

Lemma a_conditional_leaves_the_nesting_as_it_was_witness :
  conditional_actions true "if" [] (CodeBlock.init "none" ∅)
  = conditional_appended true "if" [] (CodeBlock.init "none" ∅).
Proof.
  apply (proj1 (a_conditional_leaves_the_nesting_as_it_was true "if" []
                  (CodeBlock.init "none" ∅) (CodeBlock.init "none" ∅)
                  (conj eq_refl eq_refl))).
Defined.


(* ===================================================================== *)
(** * Further results on the generated code                                *)
(* ===================================================================== *)

Section Indentation.
Context {host : PyHost}.
Import Python CodeBlock.
Variable functionmap : gmap string func_entry.
Variable func_name : option string.

Lemma toPythonLine_indent (code_line : node) (col : nat) (l : pyline) :
  toPythonLine functionmap func_name code_line col = Ok l -> indent l = col.
Proof.
  unfold toPythonLine. intros H. apply bind_Ok in H as (e & _ & [= <-]). reflexivity.
Qed.

Lemma suite_at_cons (col : nat) (l : pyline) (lines : list pyline) :
  indent l = col -> Forall (fun l => (col <= indent l)%nat) lines ->
  suite_at col (l :: lines).
Proof.
  intros Hl Hlines. split.
  - constructor; [lia | exact Hlines].
  - now intros l' [= <-].
Qed.

Lemma mapM_lines_at (f : ascii -> outcome pyline) (col : nat) (cs : list ascii)
      (lines : list pyline) :
  (forall c l, f c = Ok l -> indent l = col) ->
  mapM f cs = Ok lines -> Forall (fun l => indent l = col) lines.
Proof.
  intros Hf. revert lines. induction cs as [| c cs IH]; intros lines; simpl.
  - intros [= <-]. constructor.
  - intros H. apply bind_Ok in H as (l & Hl & H).
    apply bind_Ok in H as (ls & Hls & [= <-]).
    constructor; [now apply (Hf c) | now apply IH].
Qed.

Lemma block_lines_at
      (sub_lines : bool -> node -> nat -> outcome (list pyline)) (col : nat)
      (b : list node) (lines : list pyline) :
  Forall (fun sub => forall skip col lines,
                       sub_lines skip sub col = Ok lines -> suite_at (col + 2) lines) b ->
  block_lines functionmap func_name sub_lines col b = Ok lines ->
  suite_at col lines.
Proof.
  intros Hb.
  assert (H : forall n b lines, (length b <= n)%nat ->
              Forall (fun sub => forall skip col lines,
                                   sub_lines skip sub col = Ok lines ->
                                   suite_at (col + 2) lines) b ->
              block_lines functionmap func_name sub_lines col b = Ok lines ->
              suite_at col lines);
    [| now apply (H (length b))].
  clear b lines Hb. induction n as [| n IH]; intros b lines Hlen Hb.
  { destruct b; [| simpl in Hlen; lia]. intros [= <-]. split; [constructor | discriminate]. }
  destruct b as [| code_line rest];
    [intros [= <-]; split; [constructor | discriminate] |].
  apply Forall_cons in Hb as [_ Hrest]. cbn [block_lines].
  destruct (is_tag code_line) as [tag |].
  - destruct rest as [| sub rest']; [discriminate |].
    apply Forall_cons in Hrest as [Hsub Hrest'].
    intros H. apply bind_Ok in H as (conditional_code & _ & H).
    apply bind_Ok in H as (inner & Hinner & H).
    apply bind_Ok in H as (more & Hmore & [= <-]).
    apply Hsub in Hinner as [Hinner _].
    apply IH in Hmore as [Hmore _]; [| simpl in Hlen; lia | exact Hrest'].
    apply suite_at_cons; [reflexivity |].
    apply Forall_app. split; [| exact Hmore].
    eapply Forall_impl; [exact Hinner |]. cbn. intros; lia.
  - intros H. apply bind_Ok in H as (l & Hl & H).
    apply bind_Ok in H as (more & Hmore & [= <-]).
    apply toPythonLine_indent in Hl.
    apply IH in Hmore as [Hmore _]; [| simpl in Hlen; lia | exact Hrest].
    now apply suite_at_cons.
Qed.

Lemma toPythonBlockFrom_at (block : node) :
  forall skip col lines,
    toPythonBlockFrom functionmap func_name skip block col = Ok lines ->
    suite_at (col + 2) lines.
Proof.
  induction block as [n | s | l IH |] using node_nested_ind; intros skip col lines;
    cbn [toPythonBlockFrom]; try discriminate.
  - intros H. apply mapM_lines_at with (col := (col + 2)%nat) in H.
    2: { intros c l. apply toPythonLine_indent. }
    split.
    + eapply Forall_impl; [exact H |]. cbn. intros; lia.
    + intros l Hl. destruct lines as [| l' lines]; [discriminate |].
      injection Hl as ->. now apply Forall_cons in H as [H _].
  - apply block_lines_at.
    destruct skip, l as [| x l]; try exact IH; [now apply Forall_cons in IH as [_ IH]].
Qed.

(** X12: every line that [toPythonBlock] generates for a block at
    column [col] stands at column [col + 2] or to its right, and the first
    of them at [col + 2]. *)
Theorem a_block_is_indented_by_two (block : list node) (col : nat) (lines : list pyline) :
  toPythonBlock functionmap func_name block col = Ok lines ->
  Forall (fun l => (col + 2 <= indent l)%nat) lines
  /\ (forall l, head lines = Some l -> indent l = (col + 2)%nat).
Proof. apply toPythonBlockFrom_at. Qed.

End Indentation.

Lemma a_block_is_indented_by_two_witness :
  exists lines,
    CodeBlock.toPythonBlock ∅ None conditional 0 = Ok lines
    /\ Forall (fun l => (0 + 2 <= Python.indent l)%nat) lines.
Proof.
  assert (H : exists lines,
             CodeBlock.toPythonBlock ∅ None conditional 0 = Ok lines)
    by (vm_compute; eexists; reflexivity).
  destruct H as [lines H]. exists lines. split; [exact H |].
  exact (proj1 (a_block_is_indented_by_two ∅ None conditional 0
                  lines H)).
Defined.

Section Texts.

Lemma prefix_cons (a b : ascii) (p s : string) :
  String.prefix (String a p) (String b s) = true -> a = b /\ String.prefix p s = true.
Proof. cbn. destruct (ascii_dec a b); [auto | discriminate]. Qed.

(** The characters of a prefix are characters of the text. *)
Lemma prefix_forallb (P : ascii -> bool) (p s : string) :
  String.prefix p s = true ->
  forallb P (list_ascii_of_string s) = true -> forallb P (list_ascii_of_string p) = true.
Proof.
  revert s. induction p as [| a p IH]; intros s; [reflexivity |].
  destruct s as [| b s]; [discriminate |].
  intros H. apply prefix_cons in H as [<- H]. cbn [list_ascii_of_string forallb].
  intros Hs. apply andb_prop in Hs as [Ha Hs]. rewrite Ha. cbn. eauto.
Qed.

(** A prefix of [s +:+ t] is a prefix of [s], or goes on into [t]. *)
Lemma prefix_app (p s t : string) :
  String.prefix p (s +:+ t) = true ->
  String.prefix p s = true
  \/ exists q, list_ascii_of_string p = list_ascii_of_string s ++ list_ascii_of_string q
               /\ String.prefix q t = true.
Proof.
  revert p. induction s as [| b s IH]; intros p H.
  { right. exists p. split; [reflexivity | exact H]. }
  destruct p as [| a p]; [now left |].
  cbn [String.append] in H. apply prefix_cons in H as [<- H].
  destruct (IH p H) as [Hp | (q & Hq & Ht)].
  - left. cbn. destruct (ascii_dec a a); [exact Hp | congruence].
  - right. exists q. split; [| exact Ht]. cbn [list_ascii_of_string app]. now rewrite Hq.
Qed.

Lemma pretty_N_go_head (x : N) (s : string) (c : ascii) :
  (forall rest, s <> String c rest) ->
  (forall d, pretty_N_char d <> c) ->
  forall rest, pretty_N_go x s <> String c rest.
Proof.
  intros Hs Hc. revert s Hs. induction (N.lt_wf_0 x) as [x _ IH]; intros s Hs.
  assert (x = 0 \/ 0 < x)%N as [-> | Hx] by lia.
  - now rewrite pretty_N_go_0.
  - rewrite pretty_N_go_step by exact Hx. apply IH.
    + now apply N.div_lt.
    + intros rest [= Hd _]. now apply (Hc (x `mod` 10)%N).
Qed.

(** The text of an integer does not start with a letter. *)
Lemma pretty_Z_head (z : Z) (rest : string) : pretty z <> String "r" rest.
Proof.
  assert (Hd : forall d, pretty_N_char d <> "r"%char).
  { intros d. unfold pretty_N_char. repeat case_match; discriminate. }
  assert (Hn : forall p rest, pretty (N.pos p) <> String "r" rest).
  { intros p rest'. unfold pretty, pretty_N.
    destruct (decide (N.pos p = 0%N)); [discriminate |].
    apply pretty_N_go_head; [discriminate | exact Hd]. }
  destruct z as [| p | p]; [discriminate | apply Hn | discriminate].
Qed.

End Texts.

Section Returns.
Context {host : PyHost}.
Import Python CodeBlock.

Lemma return_prefix_head (s : string) :
  String.prefix "return " s = true -> exists rest, s = String "r" rest.
Proof.
  destruct s as [| b s]; [discriminate |]. intros H.
  apply prefix_cons in H as [<- _]. eauto.
Qed.

Lemma identifier_chars (s : string) :
  identifier s = true -> forallb is_ident_char (list_ascii_of_string s) = true.
Proof.
  destruct s as [| c s]; [discriminate |]. unfold identifier.
  intros H. apply andb_prop in H as [H _]. apply andb_prop in H as [Hc Hs].
  cbn [list_ascii_of_string forallb]. rewrite Hs. unfold is_ident_char. now rewrite Hc.
Qed.

(** The text of an expression that is not a [return] does not read as
    one. *)
Lemma expression_is_no_return (e : pyexpr) :
  plain_floats host -> expression e = true ->
  String.prefix "return " (render e) = false.
Proof.
  intros Hhost He. apply not_true_is_false. intros H.
  destruct e as [n | opcall ps | | | e1 | a opname b | opname | opname | symbol e1 | e1 | limit];
    cbn [render] in H; try discriminate.
  - destruct n as [z | z | f]; cbn [render_number] in H.
    + apply return_prefix_head in H as [rest H]. now apply pretty_Z_head in H.
    + apply return_prefix_head in H as [rest H]. now apply pretty_Z_head in H.
    + now rewrite Hhost in H.
  - cbn [expression] in He. apply andb_prop in He as [Hname _].
    unfold dotted_name in Hname. apply andb_prop in Hname as [Hchars _].
    apply prefix_app in H as [H | (q & Hq & H)].
    + apply (prefix_forallb _ _ _ H) in Hchars. discriminate.
    + destruct q as [| c q].
      * cbn in Hq. rewrite app_nil_r in Hq. rewrite <- Hq in Hchars. discriminate.
      * cbn [String.append] in H. apply prefix_cons in H as [-> _].
        assert (Hin : In "("%char (list_ascii_of_string "return ")).
        { rewrite Hq. apply in_or_app. right. now left. }
        cbn in Hin. intuition discriminate.
  - cbn [expression] in He. apply identifier_chars in He.
    apply (prefix_forallb _ _ _ H) in He. discriminate.
Qed.

(** A line at column 2 whose text matches [RETURN_RE] and that Python
    reads as a simple statement is a [return]. *)
Lemma return_line (l : pyline) (st : stmt) :
  plain_floats host -> indent l = 2%nat ->
  RETURN_RE_match (render_line l) = true \/ (exists z, body l = LReturnValue z) ->
  simple_stmt (body l) = Ok st -> exists e, st = SReturn e.
Proof.
  intros Hhost Hcol Hre. destruct l as [col b]. cbn [indent body] in *. subst col.
  destruct Hre as [Hre | [z ->]]; [| intros [= <-]; eauto].
  unfold RETURN_RE_match, render_line in Hre. cbn [indent body spaces String.append] in Hre.
  apply prefix_cons in Hre as [_ Hre]. apply prefix_cons in Hre as [_ Hre].
  destruct b as [e | kw e | kw | f ps | | f | z]; cbn [simple_stmt]; try discriminate.
  - cbn [render_body] in Hre.
    assert (Hplain : expression e = true -> False).
    { intros He. now rewrite (expression_is_no_return e Hhost He) in Hre. }
    destruct e as [n | opcall ps | | | e1 | a opname b | opname | opname | symbol e1 | e1 | limit];
      match goal with
      | |- (if expression ?x then Ok (SReturn _) else _) = _ -> _ =>
          destruct (expression x); [intros [= <-]; eauto | discriminate]
      | |- (if expression ?x then _ else _) = _ -> _ =>
          destruct (expression x) eqn:He; [intros _ | discriminate];
          exfalso; apply Hplain; reflexivity
      end.
  - intros [= <-]. eauto.
Qed.


Lemma ends_with_tail (l l1 : pyline) (rest : list pyline) :
  ends_with l (l1 :: rest) -> rest = [] /\ l1 = l \/ ends_with l rest.
Proof.
  unfold ends_with. destruct rest as [| l2 rest]; [intros [= <-]; now left |].
  intros H. right. exact H.
Qed.

(** Reading lines that end with a line at column [c0]: a suite or a
    statement to the right of [c0] leaves that line unread, and a suite at
    [c0] that reads it reads it as its last statement. *)
Lemma parse_reads_the_last_line (l : pyline) (fuel : nat) :
  (forall col lines stmts rest,
      (indent l <= col)%nat -> ends_with l lines ->
      parse_suite fuel col lines = Ok (stmts, rest) ->
      ends_with l rest
      \/ (col = indent l /\ rest = []
          /\ exists stmts0 st, stmts = stmts0 ++ [st] /\ simple_stmt (body l) = Ok st))
  /\ (forall col test lines st rest,
         (indent l <= col)%nat -> ends_with l lines ->
         parse_if fuel col test lines = Ok (st, rest) -> ends_with l rest)
  /\ (forall col lines stmts rest,
         (indent l <= col)%nat -> ends_with l lines ->
         parse_body fuel col lines = Ok (stmts, rest) -> ends_with l rest).
Proof.
  induction fuel as [| fuel (IHsuite & IHif & IHbody)];
    [repeat split; discriminate |].
  assert (Hnil_if : forall col test st rest, parse_if fuel col test [] <> Ok (st, rest)).
  { intros col test st rest. destruct fuel as [| fuel']; [discriminate |].
    rewrite parse_if_S. destruct fuel'; discriminate. }
  assert (Hnil_body : forall col stmts rest, parse_body fuel col [] <> Ok (stmts, rest)).
  { intros col stmts rest. destruct fuel; discriminate. }
  split; [| split].
  - intros col lines stmts rest Hcol Hl.
    destruct lines as [| l1 lines]; [discriminate |].
    rewrite parse_suite_S.
    destruct (indent l1 <? col)%nat eqn:Hleft; [intros [= <- <-]; now left |].
    destruct (col <? indent l1)%nat eqn:Hright; [discriminate |].
    apply Nat.ltb_ge in Hleft, Hright.
    intros H. apply bind_Ok in H as ([st rest1] & Hst & H).
    apply bind_Ok in H as ([more rest2] & Hmore & [= <- <-]).
    assert (Hnext : ends_with l rest1 ->
                    ends_with l rest2
                    \/ (col = indent l /\ rest2 = []
                        /\ exists stmts0 st0, st :: more = stmts0 ++ [st0]
                                              /\ simple_stmt (body l) = Ok st0)).
    { intros Hrest1.
      destruct (IHsuite _ _ _ _ Hcol Hrest1 Hmore)
        as [Hrest2 | (Hc & Hr & stmts0 & st0 & -> & Hst0)]; [now left |].
      right. split; [exact Hc |]. split; [exact Hr |].
      exists (st :: stmts0), st0. split; [reflexivity | exact Hst0]. }
    apply ends_with_tail in Hl as [[-> ->] | Hl].
    + (* the last line *)
      destruct (body l) as [e | kw e | kw | f ps | | f | z] eqn:Hb;
        try (apply bind_Ok in Hst as (st0 & Hst0 & [= <- <-]);
             destruct fuel; [discriminate |]; injection Hmore as <- <-;
             right; split; [lia |]; split; [reflexivity |];
             exists [], st0; split; [reflexivity | exact Hst0]).
      destruct (decide (kw = "if")); [| discriminate].
      destruct (expression e); [| discriminate].
      now apply Hnil_if in Hst.
    + destruct (body l1) as [e | kw e | kw | f ps | | f | z];
        try (apply bind_Ok in Hst as (st0 & _ & [= <- <-]); now apply Hnext).
      destruct (decide (kw = "if")); [| discriminate].
      destruct (expression e); [| discriminate].
      apply Hnext. eapply IHif; eauto.
  - intros col test lines st rest Hcol Hl. rewrite parse_if_S.
    intros H. apply bind_Ok in H as ([suite rest1] & Hbody & H).
    pose proof (IHbody _ _ _ _ Hcol Hl Hbody) as Hrest1.
    destruct rest1 as [| l1 rest']; [discriminate |].
    destruct (indent l1 =? col)%nat; [| now injection H as <- <-].
    destruct (body l1) as [e | kw e | kw | f ps | | f | z];
      try (now injection H as <- <-).
    + destruct (decide (kw = "elif")); [| now injection H as <- <-].
      destruct (expression e); [| discriminate].
      apply bind_Ok in H as ([st1 rest2] & Hif & [= <- <-]).
      apply ends_with_tail in Hrest1 as [[-> _] | Hrest'];
        [now apply Hnil_if in Hif | eapply IHif; eauto].
    + destruct (decide (kw = "else")); [| now injection H as <- <-].
      apply bind_Ok in H as ([orelse rest2] & Helse & [= <- <-]).
      apply ends_with_tail in Hrest1 as [[-> _] | Hrest'];
        [now apply Hnil_body in Helse | eapply IHbody; eauto].
  - intros col lines stmts rest Hcol Hl.
    destruct lines as [| l1 lines]; [discriminate |].
    rewrite parse_body_S. destruct (col <? indent l1)%nat eqn:Hright; [| discriminate].
    apply Nat.ltb_lt in Hright. intros H.
    destruct (IHsuite (indent l1) _ _ _ ltac:(lia) Hl H) as [Hrest | (Hc & _)];
      [exact Hrest | lia].
Qed.

(** A suite that ends with a [return] does not come to its end. *)
Lemma returns_never_falls_through (m : module) (fuel : nat) :
  forall fr s stmts e, (exec fuel m fr s (stmts ++ [SReturn e])).2 <> Ok Normal.
Proof.
  induction fuel as [| fuel IH]; intros fr s stmts e; [discriminate |].
  cbn [exec]. destruct stmts as [| st stmts]; cbn [app].
  - destruct (eval fuel m fr s e) as [s1 [v | x |]]; discriminate.
  - destruct st as [e' | e' | function_name | test thens orelse].
    + destruct (eval fuel m fr s e') as [s1 [v | x |]]; try discriminate. apply IH.
    + destruct (eval fuel m fr s e') as [s1 [v | x |]]; discriminate.
    + destruct (binding_of m fr "CodeBlockRuntimeError"); discriminate.
    + destruct (eval fuel m fr s test) as [s1 [v | x |]]; try discriminate.
      destruct (exec fuel m fr s1 _) as [s2 [[| w] | x |]]; try discriminate.
      apply IH.
Qed.


Lemma compile_def_returns (header : linebody) (suite : list pyline) (l : pyline)
      (defname : option string) (code : compiled_function) :
  plain_floats host ->
  compile_def (mkline 0 header :: suite) = Ok (defname, code) ->
  last suite = Some l -> indent l = 2%nat ->
  (forall l1, head suite = Some l1 -> indent l1 = 2%nat) ->
  RETURN_RE_match (render_line l) = true \/ (exists z, body l = LReturnValue z) ->
  returns (cf_body code).
Proof.
  intros Hhost Hcompile Hlast Hcol Hhead Hre. unfold compile_def in Hcompile.
  apply bind_Ok in Hcompile as ([defname' params] & _ & H).
  apply bind_Ok in H as ([stmts after] & Hparse & H).
  destruct after; [| discriminate]. injection H as _ <-. cbn [cf_body].
  destruct suite as [| l1 suite]; [discriminate |].
  specialize (Hhead l1 eq_refl).
  replace (3 * S (length (l1 :: suite)))%nat
    with (S (S (3 * length suite + 4))) in Hparse by (simpl; lia).
  rewrite parse_body_S, Hhead in Hparse. cbn [Nat.ltb Nat.leb] in Hparse.
  destruct (parse_reads_the_last_line l (S (3 * length suite + 4))) as (Hsuite & _ & _).
  destruct (Hsuite 2%nat _ _ _ ltac:(lia) Hlast Hparse)
    as [Hends | (_ & _ & stmts0 & st & -> & Hst)]; [discriminate |].
  destruct (return_line l st Hhost Hcol Hre Hst) as [e ->].
  now exists stmts0, e.
Qed.

(** A line to the right of column 2 does not match [RETURN_RE]. *)
Lemma deeper_line_is_no_return (l : pyline) :
  (2 < indent l)%nat -> RETURN_RE_match (render_line l) = false.
Proof.
  destruct l as [[| [| [| col]]] b]; cbn [indent]; try lia. intros _.
  unfold RETURN_RE_match, render_line. cbn [indent spaces String.append].
  reflexivity.
Qed.

(** X13: the body of every function that [pushFuncBlock] compiles ends
    with a [return] statement, so that running the body never comes to its
    end without a value. *)
Theorem a_compiled_function_always_returns
        (cb cb' : CodeBlock.t) (toks : list ptok) (f : string) :
  plain_floats host ->
  pushFuncBlock cb toks = Ok cb' -> function_name cb = Some f ->
  exists e code,
    functionmap cb' !! f = Some e /\ compiled e = Some code
    /\ returns (cf_body code)
    /\ forall fuel m fr s, (exec fuel m fr s (cf_body code)).2 <> Ok Normal.
Proof.
  intros Hhost. unfold pushFuncBlock. intros H Hname.
  apply bind_Ok in H as (body0 & _ & H).
  apply bind_Ok in H as (body1 & _ & H).
  apply bind_Ok in H as (cb1 & Hcb1 & H).
  assert (Hname1 : function_name cb1 = Some f).
  { destruct (CodeBlock.frame cb) as [| g]; [injection Hcb1 as <-; exact Hname |].
    destruct (functionmap cb !! g); [| discriminate].
    injection Hcb1 as <-. exact Hname. }
  rewrite Hname1 in H.
  destruct (functionmap cb1 !! f) as [e |]; [| discriminate].
  apply bind_Ok in H as (function_body & Hbody & H).
  apply bind_Ok in H as ([defname code] & Hcompile & [= <-]).
  exists (set_compiled e code), code. cbn [functionmap].
  split; [apply lookup_insert_eq |]. split; [reflexivity |].
  assert (Hreturns : returns (cf_body code));
    [| split; [exact Hreturns |];
       destruct Hreturns as (stmts & ret & ->); intros fuel m fr s;
       apply returns_never_falls_through].
  apply toPythonBlockFrom_at in Hbody as [Hindent Hfirst]. cbn [Nat.add] in Hindent, Hfirst.
  cbn [app] in Hcompile.
  set (guard := mkline 2 (LCond "if" (ECountAbove 100))) in *.
  set (raising := mkline 4 (LRaise f)) in *.
  set (header := mkline 0 (LDef f (map arg_name (arglist e) ++ ["count=0"]))) in *.
  destruct (last (header :: guard :: raising :: function_body)) as [l |] eqn:Hlast;
    [| apply last_None in Hlast; discriminate Hlast].
  assert (Hl : last (guard :: raising :: function_body) = Some l) by exact Hlast.
  destruct (RETURN_RE_match (render_line l)) eqn:Hre.
  - (* the last line of the body is a return *)
    eapply (compile_def_returns _ _ l); [exact Hhost | exact Hcompile | exact Hl | |
                                         now intros l1 [= <-] | now left].
    destruct function_body as [| l1 function_body] using rev_ind.
    + injection Hl as <-. discriminate.
    + clear IHfunction_body.
      replace (guard :: raising :: function_body ++ [l1])
        with ((guard :: raising :: function_body) ++ [l1]) in Hl by reflexivity.
      rewrite last_snoc in Hl. injection Hl as ->.
      apply Forall_app in Hindent as [_ Hl]. apply Forall_inv in Hl.
      cbn beta in Hl.
      destruct (decide (indent l = 2%nat)) as [Heq | Hne]; [exact Heq |].
      rewrite deeper_line_is_no_return in Hre by lia. discriminate.
  - (* the value of an uninitialised symbol is returned *)
    cbn [app] in Hcompile.
    eapply (compile_def_returns _ _ (mkline 2 (LReturnValue (- sys_maxint - 1))));
      [exact Hhost | exact Hcompile | | reflexivity | now intros l1 [= <-] |
       right; eexists; reflexivity].
    replace (guard :: raising :: function_body
               ++ [mkline 2 (LReturnValue (- sys_maxint - 1))])
      with ((guard :: raising :: function_body)
              ++ [mkline 2 (LReturnValue (- sys_maxint - 1))]) by reflexivity.
    apply last_snoc.
Qed.

End Returns.

Lemma a_compiled_function_always_returns_witness :
  exists cb',
    CodeBlock.pushFuncBlock (host := cpython64) (declared fresh_builder "now" []) []
    = Ok cb'
    /\ exists e code,
         CodeBlock.functionmap cb' !! "now" = Some e
         /\ CodeBlock.compiled e = Some code
         /\ returns (Python.cf_body code).
Proof.
  assert (H : exists cb',
             CodeBlock.pushFuncBlock (host := cpython64)
               (declared fresh_builder "now" []) [] = Ok cb')
    by (vm_compute; eexists; reflexivity).
  destruct H as [cb' H]. exists cb'. split; [exact H |].
  destruct (a_compiled_function_always_returns (host := cpython64)
              (declared fresh_builder "now" []) cb' [] "now"
              (fun f => eq_refl) H eq_refl) as (e & code & He & Hcode & Hret & _).
  exists e, code. auto.
Defined.

Section LoadedFunctions.
Context {host : PyHost}.
Import Python CodeBlock.

Lemma userfunc_inj (k k' : string) :
  "userfunc_" +:+ k = "userfunc_" +:+ k' -> k = k'.
Proof. cbn. intros H. now injection H. Qed.

Lemma load_function_table (cb : CodeBlock.t) (m : module) :
  load cb = Ok m ->
  functions m
  = list_to_map
      (omap (fun kv : string * func_entry =>
               c ← compiled kv.2; Some ("userfunc_" +:+ kv.1, c))
            (map_to_list (functionmap cb))).
Proof.
  unfold load. intros H. apply bind_Ok in H as (exec_code & _ & H).
  destruct exec_code; [now injection H as <- |].
  apply bind_Ok in H as ([defname code] & _ & [= <-]). reflexivity.
Qed.

Lemma load_run (cb : CodeBlock.t) (m : module) :
  load cb = Ok m ->
  (imported m = true <-> outer_block cb <> [])
  /\ (run_body m = None <-> outer_block cb = []).
Proof.
  unfold load, toPython. intros H.
  destruct (outer_block cb) as [| x outer].
  - cbn in H. injection H as <-. cbn. repeat split; try discriminate; congruence.
  - apply bind_Ok in H as (exec_code & Hpy & H).
    apply bind_Ok in Hpy as (python_lines & _ & [= <-]).
    apply bind_Ok in H as ([defname code] & _ & [= <-]).
    cbn. repeat split; discriminate.
Qed.

(** X14: [load] defines in the module, under [userfunc_] and its name,
    exactly the functions of [functionmap] that have compiled code; it
    executes the import lines there, and defines [run], exactly when the
    outer block is not empty, so that the module of a block of function
    definitions only has neither [run] nor the names of
    [run_time_support], [operator] and [math]. *)
Theorem a_module_holds_the_compiled_functions (cb : CodeBlock.t) (m : module)
        (f : string) (code : compiled_function) :
  load cb = Ok m ->
  (functions m !! ("userfunc_" +:+ f) = Some code
   <-> exists e, functionmap cb !! f = Some e /\ compiled e = Some code)
  /\ (imported m = true <-> outer_block cb <> [])
  /\ (run_body m = None <-> outer_block cb = []).
Proof.
  intros Hload. split; [| apply load_run; exact Hload].
  - split.
    + intros Hf.
      destruct (load_functions cb m _ code Hload Hf) as (k & e & Heq & Hk & Hc).
      apply userfunc_inj in Heq. subst k. eauto.
    + intros (e & Hk & Hc). rewrite (load_function_table cb m Hload).
      apply elem_of_list_to_map_1.
      * (* the names of the module are distinct *)
        assert (Hnodup : NoDup (omap (fun kv : string * func_entry =>
                                        c ← compiled kv.2; Some ("userfunc_" +:+ kv.1, c))
                                     (map_to_list (functionmap cb))).*1).
        { pose proof (NoDup_fst_map_to_list (functionmap cb)) as Hnd.
          induction (map_to_list (functionmap cb)) as [| [k' e'] l IH]; [constructor |].
          cbn [fmap list_fmap fst] in Hnd. apply NoDup_cons in Hnd as [Hnot Hnd].
          cbn [omap list_omap snd fst]. destruct (compiled e') as [c' |]; cbn.
          - apply NoDup_cons. split; [| now apply IH].
            intros Hin. apply Hnot. apply list_elem_of_fmap in Hin as ([n c2] & Hn & Hin).
            cbn in Hn. apply list_elem_of_omap in Hin as ([k2 e2] & Hin2 & Hkv).
            cbn in Hkv. destruct (compiled e2); [| discriminate]. cbn in Hkv.
            injection Hkv as <- <-. apply userfunc_inj in Hn. subst k2.
            apply list_elem_of_fmap. now exists (k', e2).
          - now apply IH. }
        exact Hnodup.
      * apply list_elem_of_omap. exists (f, e). split.
        -- now apply elem_of_map_to_list.
        -- cbn. rewrite Hc. reflexivity.
Qed.

End LoadedFunctions.

Lemma a_module_holds_the_compiled_functions_witness :
  exists cb m,
    LanguageEngine.wrap_code_block (host := cpython64) "lib" functions_only
      (LanguageEngine.functionmap LanguageEngine.init) = Ok cb
    /\ CodeBlock.load cb = Ok m
    /\ (Python.imported m = true <-> CodeBlock.outer_block cb <> [])
    /\ (Python.run_body m = None <-> CodeBlock.outer_block cb = []).
Proof.
  assert (H : exists cb,
             LanguageEngine.wrap_code_block (host := cpython64) "lib" functions_only
               (LanguageEngine.functionmap LanguageEngine.init) = Ok cb)
    by (vm_compute; eexists; reflexivity).
  destruct H as [cb H].
  assert (Hm : exists m, CodeBlock.load cb = Ok m).
  { assert (Hreg : exists m,
               (cb0 ← LanguageEngine.wrap_code_block (host := cpython64) "lib"
                        functions_only (LanguageEngine.functionmap LanguageEngine.init);
                CodeBlock.load cb0) = Ok m)
      by (vm_compute; eexists; reflexivity).
    destruct Hreg as [m Hreg]. rewrite H in Hreg. now exists m. }
  destruct Hm as [m Hm]. exists cb, m. split; [exact H |]. split; [exact Hm |].
  exact (proj2 (a_module_holds_the_compiled_functions
                  cb m "one" (Python.mkfunction [] []) Hm)).
Defined.


(* ===================================================================== *)
(** * Further results on the registry                                      *)
(* ===================================================================== *)

Section FunctionsOnly.
Context {host : PyHost}.
Import Python CodeBlock LanguageEngine.

Lemma registered_block (eng eng' : LanguageEngine.t) (block_name code_string : string)
      (r : runnable) :
  register_code_block eng block_name code_string = (eng', Ok ()) ->
  code_blocks eng' !! block_name = Some r ->
  code_blocks eng !! block_name = None
  /\ wrap_code_block block_name code_string (LanguageEngine.functionmap eng)
     = Ok (code_block r)
  /\ load (code_block r) = Ok (module_context r)
  /\ eng' = mkengine (global_symbol_table eng) (LanguageEngine.functionmap eng)
                     (<[block_name := r]> (code_blocks eng)) (local_tables eng).
Proof.
  unfold register_code_block.
  destruct (code_blocks eng !! block_name) eqn:Hfree; [discriminate |].
  destruct (_ ← wrap_code_block _ _ _; _) as [r' | |] eqn:Hreg; try discriminate.
  intros [= <-]. cbn. rewrite lookup_insert_eq. intros [= <-].
  apply bind_Ok in Hreg as (cb & Hwrap & Hreg).
  apply bind_Ok in Hreg as (m & Hload & [= <-]). cbn. auto.
Qed.

(** X15: a registered block whose source holds no statement outside its
    function definitions cannot be executed: [execute_code_block] merges
    the local table into the per-block table and raises [AttributeError],
    the module having no [run]; the global table and the caller's table
    stay as they were. *)
Theorem a_block_of_functions_cannot_be_executed
        (eng eng' : LanguageEngine.t) (block_name code_string : string) (r : runnable)
        (fuel : nat) (local_symbol_table : local_table) :
  register_code_block eng block_name code_string = (eng', Ok ()) ->
  code_blocks eng' !! block_name = Some r ->
  outer_block (code_block r) = [] ->
  execute_code_block fuel eng' block_name local_symbol_table
  = (mkengine (global_symbol_table eng') (LanguageEngine.functionmap eng')
              (code_blocks eng') (merged eng' block_name local_symbol_table),
     local_symbol_table, Raise AttributeError).
Proof.
  intros Hreg Hr Houter.
  destruct (registered_block _ _ _ _ _ Hreg Hr) as (_ & _ & Hload & _).
  apply load_run in Hload. apply Hload in Houter.
  unfold execute_code_block, run. rewrite Hr, Houter. reflexivity.
Qed.

(** X16: unregistering a name after registering it under a free name
    gives the engine back as it was, whether the registration succeeded or
    failed. *)
Theorem unregistering_undoes_a_registration (eng : LanguageEngine.t)
        (block_name code_string : string) :
  code_blocks eng !! block_name = None ->
  unregister_code_block (register_code_block eng block_name code_string).1 block_name
  = eng.
Proof.
  intros Hfree. unfold register_code_block. rewrite Hfree.
  destruct (_ ← wrap_code_block _ _ _; _) as [r | e |].
  - unfold unregister_code_block. cbn. rewrite lookup_insert_eq.
    rewrite delete_insert_id by exact Hfree. now destruct eng.
  - cbn. unfold unregister_code_block. now rewrite Hfree.
  - cbn. unfold unregister_code_block. now rewrite Hfree.
Qed.

End FunctionsOnly.

Lemma a_block_of_functions_cannot_be_executed_witness :
  exists eng',
    LanguageEngine.register_code_block (host := cpython64) LanguageEngine.init "lib"
      functions_only = (eng', Ok ())
    /\ (LanguageEngine.execute_code_block (host := cpython64) 10 eng' "lib"
          (Python.LocalDict ∅)).2 = Raise AttributeError.
Proof.
  assert (H : exists eng' r,
             LanguageEngine.register_code_block (host := cpython64) LanguageEngine.init
               "lib" functions_only = (eng', Ok ())
             /\ LanguageEngine.code_blocks eng' !! "lib" = Some r
             /\ CodeBlock.outer_block (LanguageEngine.code_block r) = []).
  { exists (LanguageEngine.register_code_block (host := cpython64) LanguageEngine.init
              "lib" functions_only).1.
    vm_compute. eexists. repeat split. }
  destruct H as (eng' & r & Hreg & Hr & Houter). exists eng'. split; [exact Hreg |].
  now rewrite (a_block_of_functions_cannot_be_executed (host := cpython64)
                 LanguageEngine.init eng' "lib" functions_only r 10 (Python.LocalDict ∅)
                 Hreg Hr Houter).
Defined.

Lemma unregistering_undoes_a_registration_witness :
  LanguageEngine.unregister_code_block
    (LanguageEngine.register_code_block (host := cpython64) LanguageEngine.init
       "b1" "x = 5").1 "b1"
  = LanguageEngine.init.
Proof.
  apply (unregistering_undoes_a_registration (host := cpython64) LanguageEngine.init
           "b1" "x = 5").
  reflexivity.
Defined.

Section Constants.
Context {host : PyHost}.
Import Python.
Variable m : module.
Variable constants : gmap string value.

Abbreviation fixed := (constant_table constants).

Lemma setitem_keeps_constants (st : SymbolTable.t) (item : string) (val : value) :
  SymbolTable.consts (SymbolTable.setitem st item val) = SymbolTable.consts st.
Proof. unfold SymbolTable.setitem. now destruct (SymbolTable.consts st !! item). Qed.

Lemma update_symbol_fixed (s : state) (symname : string) (v : value) (t : symtables) :
  fixed s -> update_symbol (tables s) symname v = Ok t -> fixed (with_tables s t).
Proof.
  unfold constant_table, update_symbol. intros Hs.
  destruct symname as [| c name].
  - destruct (locals (tables s)); intros [= <-]; exact Hs.
  - destruct (Ascii.eqb c "_") eqn:Hc.
    + apply Ascii.eqb_eq in Hc. subst c. intros [= <-]. cbn.
      now rewrite setitem_keeps_constants.
    + assert (Hother : update_symbol (tables s) (String c name) v
                       = match locals (tables s) with
                         | LocalDict d =>
                             Ok (mktables (globals (tables s))
                                          (LocalDict (<[String c name := v]> d)))
                         | LocalSymbols st =>
                             Ok (mktables (globals (tables s))
                                   (LocalSymbols (SymbolTable.setitem st (String c name) v)))
                         | LocalNone => Raise TypeError
                         end).
      { unfold update_symbol.
        destruct c as [[] [] [] [] [] [] [] []]; try reflexivity. discriminate. }
      unfold update_symbol in Hother. rewrite Hother.
      destruct (locals (tables s)); intros [= <-]; exact Hs.
Qed.

Lemma run_keeps_constants_step (fuel : nat) :
  (forall fr s e, fixed s -> fixed (eval fuel m fr s e).1)
  /\ (forall fr s es, fixed s -> fixed (eval_args fuel m fr s es).1)
  /\ (forall fr s suite, fixed s -> fixed (exec fuel m fr s suite).1)
  /\ (forall f s args, fixed s -> fixed (call fuel m f s args).1).
Proof.
  induction fuel as [| fuel (IHeval & IHargs & IHexec & IHcall)];
    [repeat split; intros; assumption |].
  repeat split.
  - intros fr s e Hs. cbn [eval].
    destruct e as [n | opcall ps | | | e1 | a opname b | opname | opname | symbol e1 | e1 | limit];
      try exact Hs.
    + assert (Hplain : forall qs,
                 fixed (match callee_of m fr false opcall with
                        | Ok target =>
                            match eval_args fuel m fr s qs with
                            | (s1, Ok vs) =>
                                match target with
                                | Operator => (s1, operator_call opcall vs)
                                | _ => (s1, Raise TypeError)
                                end
                            | (s1, Raise x) => (s1, Raise x)
                            | (s1, OutOfFuel) => (s1, OutOfFuel)
                            end
                        | Raise x => (s, Raise x)
                        | OutOfFuel => (s, OutOfFuel)
                        end).1).
      { intros qs. destruct (callee_of m fr false opcall) as [target | x |];
          try exact Hs.
        specialize (IHargs fr s qs Hs).
        destruct (eval_args fuel m fr s qs) as [s1 [vs | x |]]; try exact IHargs.
        destruct target; exact IHargs. }
      destruct ps as [| p ps]; [apply Hplain |].
      destruct p; try apply Hplain.
      destruct (callee_of m fr true opcall) as [target | x |]; try exact Hs.
      specialize (IHargs fr s ps Hs).
      destruct (eval_args fuel m fr s ps) as [s1 [vs | x |]]; try exact IHargs.
      destruct target as [| f | |]; try exact IHargs.
      now apply IHcall.
    + destruct (callee_of m fr false "operator.mul") as [target | x |]; try exact Hs.
      specialize (IHeval fr s e1 Hs).
      destruct (eval fuel m fr s e1) as [s1 [v | x |]]; exact IHeval.
    + pose proof (IHeval fr s a Hs) as H1.
      destruct (eval fuel m fr s a) as [s1 [va | x |]]; try exact H1.
      destruct (decide (opname = "and")); destruct (truthy va); try exact H1;
        now apply IHeval.
    + destruct (binding_of m fr "get_symbol"); exact Hs.
    + specialize (IHeval fr s e1 Hs).
      destruct (binding_of m fr "update_symbol") as [hidden | |]; try exact Hs;
        destruct (eval fuel m fr s e1) as [s1 [v | x |]]; try exact IHeval.
      destruct (update_symbol (tables s1) (default "None" symbol) v) as [t2 | x |] eqn:Hup;
        try exact IHeval.
      eapply update_symbol_fixed; eauto.
  - intros fr s es Hs. cbn [eval_args].
    destruct es as [| e es]; [exact Hs |].
    pose proof (IHeval fr s e Hs) as H1.
    destruct (eval fuel m fr s e) as [s1 [v | x |]]; try exact H1.
    pose proof (IHargs fr s1 es H1) as H2.
    destruct (eval_args fuel m fr s1 es) as [s2 [vs | x |]]; exact H2.
  - intros fr s suite Hs. cbn [exec].
    destruct suite as [| st suite]; [exact Hs |].
    destruct st as [e | e | function_name | test thens orelse].
    + pose proof (IHeval fr s e Hs) as H1.
      destruct (eval fuel m fr s e) as [s1 [v | x |]]; try exact H1.
      now apply IHexec.
    + pose proof (IHeval fr s e Hs) as H1.
      destruct (eval fuel m fr s e) as [s1 [v | x |]]; exact H1.
    + destruct (binding_of m fr "CodeBlockRuntimeError"); exact Hs.
    + pose proof (IHeval fr s test Hs) as H1.
      destruct (eval fuel m fr s test) as [s1 [v | x |]]; try exact H1.
      pose proof (IHexec fr s1 (if truthy v then thens else orelse) H1) as H2.
      destruct (exec fuel m fr s1 _) as [s2 [[| w] | x |]]; try exact H2.
      now apply IHexec.
  - intros f s args Hs. cbn [call].
    destruct (_ || _); [exact Hs |].
    match goal with
    | |- context [exec fuel m ?fr ?s0 (cf_body f)] =>
        pose proof (IHexec fr s0 (cf_body f) Hs) as H1;
        destruct (exec fuel m fr s0 (cf_body f)) as [s1 [[| v] | x |]]; exact H1
    end.
Qed.

Lemma run_keeps_constants (fuel : nat) (t : symtables) :
  SymbolTable.consts (globals t) = constants -> fixed (run fuel m t).1.
Proof.
  intros Ht. unfold run. destruct (run_body m) as [suite |]; [| exact Ht].
  destruct (run_keeps_constants_step fuel) as (_ & _ & Hexec & _).
  pose proof (Hexec (mkframe [] None) (mkstate t []) suite Ht) as H.
  destruct (exec fuel m _ _ suite) as [s1 [[| v] | x |]]; exact H.
Qed.

End Constants.

Section EngineInvariants.
Context {host : PyHost}.
Import LanguageEngine.

Lemma serve_keeps (eng : LanguageEngine.t) (req : request) :
  SymbolTable.consts (global_symbol_table (serve eng req))
  = SymbolTable.consts (global_symbol_table eng)
  /\ functionmap (serve eng req) = functionmap eng.
Proof.
  destruct req as [block_name code_string | fuel block_name l | block_name]; cbn [serve].
  - unfold register_code_block.
    destruct (code_blocks eng !! block_name); [now split |].
    destruct (_ ← wrap_code_block _ _ _; _); now split.
  - unfold execute_code_block.
    destruct (code_blocks eng !! block_name) as [r |]; [| now split].
    pose proof (run_keeps_constants (module_context r) _ fuel
                  (Python.mktables (global_symbol_table eng) l) eq_refl) as H.
    destruct (Python.run _ _ _) as [s res]. now split.
  - unfold unregister_code_block.
    destruct (code_blocks eng !! block_name); now split.
Qed.

(** X17: no sequence of calls of [register_code_block],
    [execute_code_block] and [unregister_code_block] changes the constants
    of the global symbol table or the function table of the engine: a
    constant reads as before, and [pi] and [e] of a new engine as [math.pi]
    and [math.e]. *)
Theorem no_call_changes_the_constants_or_the_function_table
        (eng : LanguageEngine.t) (reqs : list request) :
  SymbolTable.consts (global_symbol_table (served eng reqs))
  = SymbolTable.consts (global_symbol_table eng)
  /\ functionmap (served eng reqs) = functionmap eng
  /\ (forall constant_name constant_value,
        SymbolTable.consts (global_symbol_table eng) !! constant_name
        = Some constant_value ->
        SymbolTable.getitem (global_symbol_table (served eng reqs)) constant_name
        = constant_value)
  /\ SymbolTable.getitem (global_symbol_table (served LanguageEngine.init reqs)) "pi"
     = VNum (NFloat math_pi)
  /\ SymbolTable.getitem (global_symbol_table (served LanguageEngine.init reqs)) "e"
     = VNum (NFloat math_e).
Proof.
  assert (H : forall reqs eng,
             SymbolTable.consts (global_symbol_table (served eng reqs))
             = SymbolTable.consts (global_symbol_table eng)
             /\ functionmap (served eng reqs) = functionmap eng).
  { clear. induction reqs as [| req reqs IH]; intros eng; [now split |].
    cbn [served fold_left]. fold (served (serve eng req) reqs).
    destruct (IH (serve eng req)) as [-> ->]. apply serve_keeps. }
  assert (Hget : forall eng constant_name constant_value,
             SymbolTable.consts (global_symbol_table eng) !! constant_name
             = Some constant_value ->
             SymbolTable.getitem (global_symbol_table (served eng reqs)) constant_name
             = constant_value).
  { intros eng' constant_name constant_value Hc. apply getitem_constant.
    now rewrite (proj1 (H reqs eng')). }
  split; [apply H |]. split; [apply H |]. split; [apply Hget |].
  split; apply Hget; reflexivity.
Qed.

End EngineInvariants.

Lemma no_call_changes_the_constants_or_the_function_table_witness :
  SymbolTable.getitem (host := cpython64)
    (LanguageEngine.global_symbol_table
       (served (host := cpython64) LanguageEngine.init
               [ReqRegister "b" assigns_pi; ReqExecute 100 "b" (Python.LocalDict ∅)]))
    "pi"
  = VNum (NFloat LanguageEngine.math_pi).
Proof.
  apply (proj1 (proj2 (proj2
           (no_call_changes_the_constants_or_the_function_table (host := cpython64)
              LanguageEngine.init
              [ReqRegister "b" assigns_pi; ReqExecute 100 "b" (Python.LocalDict ∅)])))).
  reflexivity.
Defined.
